(** * OpenTTD-Terrain: a shallow embedding of the terrain generator

    The Python sources are embedded as Rocq functions:

    - [Py], [Json], [TerrainParams], [PresetManager], [PresetStore]:
      [src/core/terrain_params.py] and [src/presets/preset_manager.py];
    - [PreviewCanvas], [CanvasMouse]: the view state, the mouse handlers
      and the 2D view of [src/ui/preview_canvas.py];
    - [ImageUtils], [ImageShading]: [src/utils/image_utils.py];
    - [MathUtils]: [src/utils/math_utils.py];
    - [Engine]: [src/core/terrain_generator.py] and the stage sequence of
      [GenerationWorker.run] in [src/ui/main_window.py].

    Floating-point numbers are read as rationals ([Q]): every arithmetic
    operation is exact.  A [double] rounds, so the statements about
    floats keep to what rounding preserves: the bounds are not strict
    where rounding can close the gap (the rescale
    [(a - min) / (max - min + 1e-8)] stays below 1 in [Q] and reaches 1 in
    [double]s once the spread absorbs the [1e-8]).  Library functions
    without a rational counterpart (square root, exponential, sine,
    cosine, power, cubic zoom, Gaussian filter, the pseudo-random
    generator) are fields of the class [Engine.NumLib]; statements hold
    for every interpretation of them, and [TestLib] is a small executable
    one.  The [print] calls of the sources are left out.

    The properties follow the definitions, in [ParamsSpec], [CanvasSpec],
    [TextureSpec], [EngineSpec], [EngineMore], [MathSpec], [ImageSpec],
    [CanvasMouseSpec], [PresetSpec] and [ErosionSpec]. *)

From Stdlib Require Import ZArith QArith Qabs Qround Qminmax.
From Stdlib Require Import Lia Lqa List String Bool Arith.
Import ListNotations.

Set Implicit Arguments.
Set Warnings "-register-all".
Open Scope string_scope.
Open Scope list_scope.
Open Scope Z_scope.
Open Scope Q_scope.

(** ** Exceptions and results *)

Inductive exn : Type :=
| TypeError
| ValueError
| AttributeError
| ZeroDivisionError.

Inductive result (A : Type) : Type :=
| Ok (a : A)
| Raise (e : exn).

Arguments Ok {A} a.
Arguments Raise {A} e.

Definition rbind {A B : Type} (r : result A) (k : A -> result B) : result B :=
  match r with
  | Ok a => k a
  | Raise e => Raise e
  end.

(** ** Python values *)

Module Py.

(** The values a dataclass field or a decoded JSON document can hold.
    [VObj repr] is any other object (a numpy scalar, ...), known only by
    its [str()]. *)
Inductive value : Type :=
| VNone
| VBool (b : bool)
| VInt (z : Z)
| VFloat (q : Q)
| VStr (s : string)
| VList (l : list value)
| VTuple (l : list value)
| VDict (d : list (string * value))
| VObj (repr : string).

(** A [dict] with string keys, in insertion order, keys unique. *)
Definition dict : Type := list (string * value).

Fixpoint dict_get (k : string) (d : dict) : option value :=
  match d with
  | [] => None
  | (k', v) :: d' => if String.eqb k k' then Some v else dict_get k d'
  end.

(** [d[k] = v]: replaces the value of an existing key in place, appends a
    new key. *)
Fixpoint dict_set (k : string) (v : value) (d : dict) : dict :=
  match d with
  | [] => [(k, v)]
  | (k', v') :: d' =>
      if String.eqb k k' then (k', v) :: d' else (k', v') :: dict_set k v d'
  end.

Definition keys (d : dict) : list string := map fst d.

(** [v == 0] as Python evaluates it on these values: [0], [0.0] and
    [False] are equal to zero (an object known only by its [str()] is
    taken to differ from it). *)
Definition eq_zero (v : value) : bool :=
  match v with
  | VInt z => Z.eqb z 0
  | VFloat q => Qeq_bool q 0
  | VBool b => negb b
  | _ => false
  end.

(** [isinstance(v, list)] *)
Definition is_list (v : value) : bool :=
  match v with
  | VList _ => true
  | _ => false
  end.

End Py.

(** ** JSON documents *)

Module Json.
Import Py.

(** The document tree that the JSON text denotes.  Python's [json] printer
    and parser are taken as a lossless codec between the text and this
    tree (a float is printed with its shortest round-tripping [repr]). *)
Inductive doc : Type :=
| JNull
| JBool (b : bool)
| JInt (z : Z)
| JFloat (q : Q)
| JStr (s : string)
| JArr (l : list doc)
| JObj (members : list (string * doc)).

(** [json.dumps(v, indent=2, default=str)]: lists and tuples both become
    arrays; an object the encoder does not know goes through [str]. *)
Fixpoint dumps (v : value) : doc :=
  match v with
  | VNone => JNull
  | VBool b => JBool b
  | VInt z => JInt z
  | VFloat q => JFloat q
  | VStr s => JStr s
  | VList l => JArr (map dumps l)
  | VTuple l => JArr (map dumps l)
  | VDict d => JObj (map (fun kv => match kv with (k, x) => (k, dumps x) end) d)
  | VObj repr => JStr repr
  end.

(** [json.loads]: arrays become lists, objects become dicts (a repeated
    key keeps its first position and its last value). *)
Fixpoint loads (j : doc) : value :=
  match j with
  | JNull => VNone
  | JBool b => VBool b
  | JInt z => VInt z
  | JFloat q => VFloat q
  | JStr s => VStr s
  | JArr l => VList (map loads l)
  | JObj ms =>
      VDict (fold_left (fun d kv => match kv with (k, x) => dict_set k (loads x) d end)
                       ms [])
  end.

End Json.

(** ** [TerrainParams] ([src/core/terrain_params.py]) *)

Module TerrainParams.
Import Py.

(** The dataclass.  Python checks no field type, so every field holds an
    arbitrary value. *)
Record t : Type := mk {
  size : value;
  seed : value;
  tectonic_uplift : value;
  tectonic_pattern : value;
  rock_hardness : value;
  terrain_age : value;
  precipitation : value;
  temperature : value;
  wind_intensity : value;
  distance_to_coast : value;
  num_regions : value;
  region_contrast : value;
  erosion_iterations : value;
  river_intensity : value;
  glacial_intensity : value
}.

(** The field defaults of the class body. *)
Definition defaults : dict :=
  [ ("size", VTuple [VInt 1024; VInt 1024]);
    ("seed", VNone);
    ("tectonic_uplift", VFloat 0.7);
    ("tectonic_pattern", VStr "convergent");
    ("rock_hardness", VFloat 0.5);
    ("terrain_age", VFloat 0.7);
    ("precipitation", VFloat 0.6);
    ("temperature", VFloat 0.4);
    ("wind_intensity", VFloat 0.3);
    ("distance_to_coast", VFloat 0.5);
    ("num_regions", VInt 4);
    ("region_contrast", VFloat 0.6);
    ("erosion_iterations", VInt 10);
    ("river_intensity", VFloat 0.8);
    ("glacial_intensity", VFloat 0.3) ]%string.

Definition field_names : list string := keys defaults.

Definition is_field (k : string) : bool :=
  existsb (String.eqb k) field_names.

(** The value a keyword argument list gives to field [k]: the argument, or
    the default. *)
Definition arg (kwargs : dict) (k : string) : value :=
  match dict_get k kwargs with
  | Some v => v
  | None =>
      match dict_get k defaults with
      | Some v => v
      | None => VNone
      end
  end.

(** [__post_init__]: a list-typed size becomes a tuple; a seed equal to 0
    becomes [None]. *)
Definition post_init (p : t) : t :=
  let sz := match size p with
            | VList l => VTuple l
            | v => v
            end in
  let sd := if eq_zero (seed p) then VNone else seed p in
  mk sz sd (tectonic_uplift p) (tectonic_pattern p) (rock_hardness p)
     (terrain_age p) (precipitation p) (temperature p) (wind_intensity p)
     (distance_to_coast p) (num_regions p) (region_contrast p)
     (erosion_iterations p) (river_intensity p) (glacial_intensity p).

(** The constructor called with keyword arguments [kwargs]: the generated
    [__init__] raises [TypeError] on a keyword that is not a field, fills the missing fields with their
    defaults, then runs [__post_init__]. *)
Definition init (kwargs : dict) : result t :=
  if forallb is_field (keys kwargs) then
    let a := arg kwargs in
    Ok (post_init
          (mk (a "size") (a "seed") (a "tectonic_uplift") (a "tectonic_pattern")
              (a "rock_hardness") (a "terrain_age") (a "precipitation")
              (a "temperature") (a "wind_intensity") (a "distance_to_coast")
              (a "num_regions") (a "region_contrast") (a "erosion_iterations")
              (a "river_intensity") (a "glacial_intensity")))%string
  else Raise TypeError.

(** [TerrainParams()] *)
Definition default : t :=
  post_init
    (let a := arg [] in
     mk (a "size") (a "seed") (a "tectonic_uplift") (a "tectonic_pattern")
        (a "rock_hardness") (a "terrain_age") (a "precipitation")
        (a "temperature") (a "wind_intensity") (a "distance_to_coast")
        (a "num_regions") (a "region_contrast") (a "erosion_iterations")
        (a "river_intensity") (a "glacial_intensity"))%string.

(** [to_dict]: [dataclasses.asdict] copies the fields, in declaration
    order; lists stay lists and tuples stay tuples. *)
Definition to_dict (p : t) : dict :=
  [ ("size", size p);
    ("seed", seed p);
    ("tectonic_uplift", tectonic_uplift p);
    ("tectonic_pattern", tectonic_pattern p);
    ("rock_hardness", rock_hardness p);
    ("terrain_age", terrain_age p);
    ("precipitation", precipitation p);
    ("temperature", temperature p);
    ("wind_intensity", wind_intensity p);
    ("distance_to_coast", distance_to_coast p);
    ("num_regions", num_regions p);
    ("region_contrast", region_contrast p);
    ("erosion_iterations", erosion_iterations p);
    ("river_intensity", river_intensity p);
    ("glacial_intensity", glacial_intensity p) ]%string.

(** [getattr(p, k)] on the fifteen data fields. *)
Definition getattr (p : t) (k : string) : option value :=
  dict_get k (to_dict p).

(** [setattr(p, k, v)] on a data field: a plain store, [__post_init__] is
    not run again. *)
Definition setattr (p : t) (k : string) (v : value) : t :=
  let f name old := if String.eqb k name then v else old in
  mk (f "size" (size p)) (f "seed" (seed p))
     (f "tectonic_uplift" (tectonic_uplift p))
     (f "tectonic_pattern" (tectonic_pattern p))
     (f "rock_hardness" (rock_hardness p))
     (f "terrain_age" (terrain_age p))
     (f "precipitation" (precipitation p))
     (f "temperature" (temperature p))
     (f "wind_intensity" (wind_intensity p))
     (f "distance_to_coast" (distance_to_coast p))
     (f "num_regions" (num_regions p))
     (f "region_contrast" (region_contrast p))
     (f "erosion_iterations" (erosion_iterations p))
     (f "river_intensity" (river_intensity p))
     (f "glacial_intensity" (glacial_intensity p))%string.

(** [to_json] *)
Definition to_json (p : t) : Json.doc :=
  Json.dumps (VDict (to_dict p)).

(** [from_dict]: coerces a list-typed ["size"] entry to a tuple, then
    passes every entry as a keyword argument. *)
Definition from_dict (data : dict) : result t :=
  let data' :=
    match dict_get "size" data with
    | Some (VList l) => dict_set "size" (VTuple l) data
    | _ => data
    end in
  init data'.

(** [from_json]: a document that is not an object cannot be unpacked as
    keyword arguments. *)
Definition from_json (j : Json.doc) : result t :=
  match Json.loads j with
  | VDict data => from_dict data
  | _ => Raise TypeError
  end.

(** *** Notions used in the statements about the record *)

(** What the loading paths are specified to do with a field: a list-typed
    size is read as a tuple, a seed equal to 0 as absent, every other
    field is the document's entry or the field default. *)
Definition coerce_size (v : value) : value :=
  match v with
  | VList l => VTuple l
  | _ => v
  end.

Definition normal_seed (v : value) : value :=
  if eq_zero v then VNone else v.

Definition expected_field (data : dict) (k : string) : value :=
  if String.eqb k "size" then coerce_size (arg data k)
  else if String.eqb k "seed" then normal_seed (arg data k)
  else arg data k.

(** A 2-tuple of positive integers. *)
Definition positive_pair (v : value) : Prop :=
  exists w h : Z, v = VTuple [VInt w; VInt h] /\ (0 < w)%Z /\ (0 < h)%Z.

(** A float of the unit interval. *)
Definition unit_float (v : value) : Prop :=
  exists q : Q, v = VFloat q /\ 0 <= q /\ q <= 1.

Definition int_between (lo hi : Z) (v : value) : Prop :=
  exists n : Z, v = VInt n /\ (lo <= n <= hi)%Z.

(** The field domains of the data model: a positive size pair, an absent
    seed or a 31-bit one, unit-interval floats, one of the four patterns,
    region and iteration counts in their ranges. *)
Definition in_range (p : t) : Prop :=
  positive_pair (size p)
  /\ (seed p = VNone \/ int_between 0 (2 ^ 31 - 1) (seed p))
  /\ unit_float (tectonic_uplift p)
  /\ (exists s, tectonic_pattern p = VStr s
                /\ In s ["convergent"; "divergent"; "transform"; "stable"])
  /\ unit_float (rock_hardness p)
  /\ unit_float (terrain_age p)
  /\ unit_float (precipitation p)
  /\ unit_float (temperature p)
  /\ unit_float (wind_intensity p)
  /\ unit_float (distance_to_coast p)
  /\ int_between 1 8 (num_regions p)
  /\ unit_float (region_contrast p)
  /\ int_between 1 50 (erosion_iterations p)
  /\ unit_float (river_intensity p)
  /\ unit_float (glacial_intensity p).

End TerrainParams.

(** ** [PresetManager] ([src/presets/preset_manager.py]) *)

Module PresetManager.
Import Py.

(** [load_preset]: [None] stands for a preset file that does not exist.
    Otherwise every entry of the document whose key is an attribute of a
    fresh record is stored with [setattr].  The embedding tracks the data
    fields only: [hasattr] is read as "is a field name".  (A key that
    names a method or a special attribute of the record, which [hasattr]
    also accepts, is outside the embedding; the documents that
    [save_preset] writes hold field names only.) *)
Definition load_preset (file : option Json.doc) : result TerrainParams.t :=
  match file with
  | None => Ok TerrainParams.default
  | Some j =>
      match Json.loads j with
      | VDict params_dict =>
          Ok (fold_left
                (fun params kv =>
                   match kv with
                   | (key, v) =>
                       if TerrainParams.is_field key
                       then TerrainParams.setattr params key v
                       else params
                   end)
                params_dict TerrainParams.default)
      | _ => Raise AttributeError
      end
  end.

(** [save_preset] writes [params.__dict__] with [json.dump]. *)
Definition save_preset (params : TerrainParams.t) : Json.doc :=
  Json.dumps (VDict (TerrainParams.to_dict params)).

End PresetManager.

(** ** Rational helpers *)

(** [a < b] on floats, as a boolean. *)
Definition Qltb (a b : Q) : bool := negb (Qle_bool b a).

(** Python's [int(q)]: truncation toward zero. *)
Definition Qtrunc (q : Q) : Z := Z.quot (Qnum q) (Zpos (Qden q)).

(** ** [PreviewCanvas] ([src/ui/preview_canvas.py]): the view state *)

Module PreviewCanvas.

Inductive view_mode : Type := Mode2D | Mode3D.

Record canvas : Type := mkCanvas {
  show_grid : bool;
  show_axes : bool;
  mode : view_mode;
  zoom_level : Q;
  pan_offset : Z * Z;
  rotation_x : Q;
  rotation_y : Q
}.

(** The state [__init__] builds. *)
Definition init : canvas :=
  mkCanvas false true Mode2D 1 (0, 0)%Z 30 45.

Definition toggle (m : view_mode) : view_mode :=
  match m with
  | Mode2D => Mode3D
  | Mode3D => Mode2D
  end.

(** The keys [keyPressEvent] tells apart. *)
Inductive key : Type :=
| Key_Space
| Key_G
| Key_A
| Key_R
| Key_Equal
| Key_Plus
| Key_Minus
| Key_Underscore
| Key_Other.

(** [wheelEvent], [delta] being [event.angleDelta().y()]. *)
Definition wheelEvent (delta : Z) (c : canvas) : canvas :=
  match mode c with
  | Mode2D =>
      let zoom_factor := if (0 <? delta)%Z then 1.1 else 0.9 in
      let z := zoom_level c * zoom_factor in
      mkCanvas (show_grid c) (show_axes c) (mode c)
               (Qmax 0.1 (Qmin 10.0 z))
               (pan_offset c) (rotation_x c) (rotation_y c)
  | Mode3D => c
  end.

(** [keyPressEvent] *)
Definition keyPressEvent (k : key) (c : canvas) : canvas :=
  match k with
  | Key_Space =>
      mkCanvas (show_grid c) (show_axes c) (toggle (mode c)) (zoom_level c)
               (pan_offset c) (rotation_x c) (rotation_y c)
  | Key_G =>
      mkCanvas (negb (show_grid c)) (show_axes c) (mode c) (zoom_level c)
               (pan_offset c) (rotation_x c) (rotation_y c)
  | Key_A =>
      mkCanvas (show_grid c) (negb (show_axes c)) (mode c) (zoom_level c)
               (pan_offset c) (rotation_x c) (rotation_y c)
  | Key_R =>
      mkCanvas (show_grid c) (show_axes c) (mode c) 1 (0, 0)%Z 30 45
  | Key_Equal | Key_Plus =>
      mkCanvas (show_grid c) (show_axes c) (mode c) (zoom_level c * 1.1)
               (pan_offset c) (rotation_x c) (rotation_y c)
  | Key_Minus | Key_Underscore =>
      mkCanvas (show_grid c) (show_axes c) (mode c) (zoom_level c * 0.9)
               (pan_offset c) (rotation_x c) (rotation_y c)
  | Key_Other => c
  end.

(** The user's actions on the zoom state, and a session of them. *)
Inductive event : Type :=
| Wheel (delta : Z)
| KeyPress (k : key).

Definition handle (c : canvas) (e : event) : canvas :=
  match e with
  | Wheel delta => wheelEvent delta c
  | KeyPress k => keyPressEvent k c
  end.

Definition session (es : list event) : canvas := fold_left handle es init.

(** The bound the zoom level is meant to keep. *)
Definition zoom_in_bounds (c : canvas) : Prop :=
  0.1 <= zoom_level c /\ zoom_level c <= 10.0.

End PreviewCanvas.

(** ** [generate_texture] ([src/utils/image_utils.py]) *)

Module ImageUtils.

Definition rgb : Type := (Z * Z * Z)%type.

(** A colour ramp: stops with their colours. *)
Definition ramp : Type := list (Q * rgb).

Definition terrain_ramp : ramp :=
  [ (0.0, (10, 10, 80)%Z);
    (0.2, (30, 30, 200)%Z);
    (0.25, (240, 240, 100)%Z);
    (0.35, (50, 180, 50)%Z);
    (0.5, (34, 139, 34)%Z);
    (0.7, (139, 90, 43)%Z);
    (0.85, (100, 100, 100)%Z);
    (1.0, (255, 255, 255)%Z) ].

Definition desert_ramp : ramp :=
  [ (0.0, (210, 180, 140)%Z);
    (0.7, (160, 120, 80)%Z);
    (1.0, (255, 255, 255)%Z) ].

Definition grayscale_ramp : ramp :=
  [ (0.0, (0, 0, 0)%Z);
    (1.0, (255, 255, 255)%Z) ].

(** [colormaps[colormap]], an unknown name falling back to ['terrain']. *)
Definition select_ramp (colormap : string) : ramp :=
  if String.eqb colormap "desert" then desert_ramp
  else if String.eqb colormap "grayscale" then grayscale_ramp
  else terrain_ramp.

(** One channel of the interpolated colour. *)
Definition lerp (c0 c1 : Z) (t : Q) : Z :=
  Qtrunc (inject_Z c0 * (1 - t) + inject_Z c1 * t).

(** The inner loop over [i in range(len(cmap) - 1)]: the first bracketing
    pair of stops gives the colour; when none brackets the elevation the
    pixel keeps [current]. *)
Fixpoint color_of (cmap : ramp) (height_val : Q) (current : rgb) : rgb :=
  match cmap with
  | (s0, (r0, g0, b0)) :: (((s1, (r1, g1, b1)) :: _) as rest) =>
      if Qle_bool s0 height_val && Qle_bool height_val s1 then
        let t := (height_val - s0) / (s1 - s0 + 0.00000001) in
        (lerp r0 r1 t, lerp g0 g1 t, lerp b0 b1 t)
      else color_of rest height_val current
  | _ => current
  end.

(** [generate_texture]: an absent heightmap gives an absent texture; the
    texture starts as zeros and every pixel is coloured from its
    elevation. *)
Definition generate_texture (heightmap : option (list (list Q))) (colormap : string)
  : option (list (list rgb)) :=
  match heightmap with
  | None => None
  | Some hm =>
      let cmap := select_ramp colormap in
      Some (map (map (fun height_val => color_of cmap height_val (0, 0, 0)%Z)) hm)
  end.

(** The pixel of row [y], column [x]. *)
Definition pixel {A : Type} (img : list (list A)) (y x : nat) : option A :=
  match nth_error img y with
  | Some row => nth_error row x
  | None => None
  end.

End ImageUtils.

(** ** [TerrainGenerator] ([src/core/terrain_generator.py]) *)

Module Engine.

(** A 2-D float array, as its list of rows, and a 2-D integer array. *)
Definition arr : Type := list (list Q).
Definition iarr : Type := list (list Z).

Definition QN (n : nat) : Q := inject_Z (Z.of_nat n).

(** *** numpy on lists of rows *)

Definition tabulate {A : Type} (h w : nat) (f : nat -> nat -> A) : list (list A) :=
  map (fun y => map (fun x => f y x) (seq 0 w)) (seq 0 h).

Definition get (a : arr) (y x : nat) : Q := nth x (nth y a []) 0.
Definition iget (a : iarr) (y x : nat) : Z := nth x (nth y a []) 0%Z.

(** [a.shape] *)
Definition shape {A : Type} (a : list (list A)) : nat * nat :=
  (List.length a, List.length (hd [] a)).

(** An array of [h] rows of [w] cells. *)
Definition has_shape {A : Type} (h w : nat) (a : list (list A)) : Prop :=
  List.length a = h /\ Forall (fun row => List.length row = w) a.

(** [np.zeros(shape)], [np.full(shape, v)] *)
Definition full (shp : nat * nat) (v : Q) : arr :=
  repeat (repeat v (snd shp)) (fst shp).
Definition zeros (shp : nat * nat) : arr := full shp 0.

Fixpoint zip_with {A B C : Type} (f : A -> B -> C) (l : list A) (m : list B) : list C :=
  match l, m with
  | a :: l', b :: m' => f a b :: zip_with f l' m'
  | _, _ => []
  end.

(** Elementwise operations (the arrays of one run all have the run's
    shape, so no broadcasting is involved). *)
Definition amap (f : Q -> Q) (a : arr) : arr := map (map f) a.
Definition amap2 (f : Q -> Q -> Q) (a b : arr) : arr := zip_with (zip_with f) a b.

(** [np.min(a)], [np.max(a)]: a [ValueError] on an empty array. *)
Definition np_min (a : arr) : result Q :=
  match List.concat a with
  | [] => Raise ValueError
  | v :: vs => Ok (fold_left Qmin vs v)
  end.

Definition np_max (a : arr) : result Q :=
  match List.concat a with
  | [] => Raise ValueError
  | v :: vs => Ok (fold_left Qmax vs v)
  end.

(** [(a - np.min(a)) / (np.max(a) - np.min(a) + 1e-8)], the closing line of
    the stages that rescale. *)
Definition rescale (a : arr) : result arr :=
  rbind (np_min a) (fun mn =>
  rbind (np_max a) (fun mx =>
  Ok (amap (fun v => (v - mn) / (mx - mn + 0.00000001)) a))).



(** [a[y, x] = f(a[y, x])] *)
Fixpoint upd_nth {A : Type} (n : nat) (f : A -> A) (l : list A) : list A :=
  match l, n with
  | [], _ => []
  | v :: l', O => f v :: l'
  | v :: l', S n' => v :: upd_nth n' f l'
  end.

Definition upd (a : arr) (y x : nat) (f : Q -> Q) : arr :=
  upd_nth y (upd_nth x f) a.

(** The one-dimensional rule of [np.gradient]: one-sided differences at the
    two ends, central differences inside. *)
Definition diff1 (n : nat) (f : nat -> Q) (i : nat) : Q :=
  if Nat.eqb i 0 then f 1%nat - f 0%nat
  else if Nat.eqb i (n - 1) then f (n - 1)%nat - f (n - 2)%nat
  else (f (i + 1)%nat - f (i - 1)%nat) / 2.

(** [np.gradient(a)]: the derivative along the rows axis, then along the
    columns axis; a [ValueError] when an axis has fewer than 2 entries. *)
Definition np_gradient (a : arr) : result (arr * arr) :=
  let (height, width) := shape a in
  if (height <? 2)%nat || (width <? 2)%nat then Raise ValueError
  else Ok (tabulate height width (fun y x => diff1 height (fun i => get a i x) y),
           tabulate height width (fun y x => diff1 width (fun j => get a y j) x)).

(** [np.clip(v, 0.0, 1.0)] *)
Definition clip01 (v : Q) : Q := Qmin (Qmax v 0) 1.

(** Index of the first minimum of a non-empty list ([np.argmin]). *)
Fixpoint argmin_from (best : Q) (best_i i : nat) (l : list Q) : nat :=
  match l with
  | [] => best_i
  | v :: l' =>
      if Qltb v best then argmin_from v i (S i) l'
      else argmin_from best best_i (S i) l'
  end.

Definition np_argmin (l : list Q) : nat :=
  match l with
  | [] => O
  | v :: l' => argmin_from v 0 1 l'
  end.

(** *** The numerical library

    What numpy, scipy and the [random] module provide and rationals do
    not: the pseudo-random generators, interpolation and filtering, the
    sort behind [np.argsort], and the transcendental functions. *)
Class NumLib : Type := {
  RandomState : Type;
  (** [np.random.RandomState(seed)] for [0 <= seed < 2^32] *)
  new_RandomState : Z -> RandomState;
  (** [rs.randn(rows, cols)] *)
  rs_randn : RandomState -> nat -> nat -> arr * RandomState;
  (** [rs.randint(low, high)] for [low < high] *)
  rs_randint : RandomState -> Z -> Z -> Z * RandomState;
  (** [rs.uniform(low, high)] *)
  rs_uniform : RandomState -> Q -> Q -> Q * RandomState;
  (** the process-wide generator of the [random] module *)
  Entropy : Type;
  (** [random.randint(a, b)] *)
  random_randint : Entropy -> Z -> Z -> Z * Entropy;
  (** [scipy.ndimage.zoom(a, factors, order=3)] *)
  zoom : arr -> Q * Q -> arr;
  (** [scipy.ndimage.gaussian_filter(a, sigma=sigma)] *)
  gaussian_filter : arr -> Q -> arr;
  (** [np.argsort] of a flat array *)
  argsort : list Q -> list nat;
  fsqrt : Q -> Q;
  fexp : Q -> Q;
  fsin : Q -> Q;
  fcos : Q -> Q;
  (** [x ** y] with a float exponent *)
  fpow : Q -> Q -> Q;
  np_pi : Q
}.

(** The generation request, with the field types the generator computes
    with ([size] is [(width, height)]). *)
Record params : Type := mkParams {
  size : Z * Z;
  seed : option Z;
  tectonic_uplift : Q;
  tectonic_pattern : string;
  rock_hardness : Q;
  terrain_age : Q;
  precipitation : Q;
  temperature : Q;
  wind_intensity : Q;
  distance_to_coast : Q;
  num_regions : Z;
  region_contrast : Q;
  erosion_iterations : Z;
  river_intensity : Q;
  glacial_intensity : Q
}.

(** The reading of a [TerrainParams] record as a generation request.  The
    generator computes with the fields as numbers: an [int], a [float] or
    a [bool] where a float is expected, an [int] or a [bool] where an
    integer is, the first two entries of a list or tuple for the size.  A
    pattern that is not a string compares unequal to every pattern name,
    like the empty string.  Records with another kind of value in a field
    make Python raise [TypeError] where the field is first used; they have
    no reading.  (An [int] precipitation is read as the float of the same
    value, although numpy builds an integer climate map from it and raises
    a [TypeError] where the float noise is added: for such a record the
    reading describes the stages before the climate only.) *)
Definition as_float (v : Py.value) : option Q :=
  match v with
  | Py.VInt z => Some (inject_Z z)
  | Py.VFloat q => Some q
  | Py.VBool b => Some (if b then 1 else 0)
  | _ => None
  end.

Definition as_int (v : Py.value) : option Z :=
  match v with
  | Py.VInt z => Some z
  | Py.VBool b => Some (if b then 1 else 0)%Z
  | _ => None
  end.

Definition as_size (v : Py.value) : option (Z * Z) :=
  match v with
  | Py.VTuple (a :: b :: _) | Py.VList (a :: b :: _) =>
      match as_int a, as_int b with
      | Some w, Some h => Some (w, h)
      | _, _ => None
      end
  | _ => None
  end.

Definition as_seed (v : Py.value) : option (option Z) :=
  match v with
  | Py.VNone => Some None
  | Py.VInt z => Some (Some z)
  | _ => None
  end.

Definition as_pattern (v : Py.value) : string :=
  match v with
  | Py.VStr s => s
  | _ => ""
  end.

Definition obind {A B : Type} (o : option A) (k : A -> option B) : option B :=
  match o with
  | Some a => k a
  | None => None
  end.

Definition of_record (r : TerrainParams.t) : option params :=
  obind (as_size (TerrainParams.size r)) (fun sz =>
  obind (as_seed (TerrainParams.seed r)) (fun sd =>
  obind (as_float (TerrainParams.tectonic_uplift r)) (fun tu =>
  obind (as_float (TerrainParams.rock_hardness r)) (fun rh =>
  obind (as_float (TerrainParams.terrain_age r)) (fun ta =>
  obind (as_float (TerrainParams.precipitation r)) (fun pr =>
  obind (as_float (TerrainParams.temperature r)) (fun te =>
  obind (as_float (TerrainParams.wind_intensity r)) (fun wi =>
  obind (as_float (TerrainParams.distance_to_coast r)) (fun dc =>
  obind (as_int (TerrainParams.num_regions r)) (fun nr =>
  obind (as_float (TerrainParams.region_contrast r)) (fun rc =>
  obind (as_int (TerrainParams.erosion_iterations r)) (fun ei =>
  obind (as_float (TerrainParams.river_intensity r)) (fun ri =>
  obind (as_float (TerrainParams.glacial_intensity r)) (fun gi =>
  Some (mkParams sz sd tu (as_pattern (TerrainParams.tectonic_pattern r))
                 rh ta pr te wi dc nr rc ei ri gi))))))))))))))).

(** [height, width = params.size[1], params.size[0]]; arrays of a negative
    dimension cannot be created. *)
Definition shape_of (p : params) : result (nat * nat) :=
  let (width, height) := size p in
  if (height <? 0)%Z || (width <? 0)%Z then Raise ValueError
  else Ok (Z.to_nat height, Z.to_nat width).

Section WithLib.
Context {L : NumLib}.

(** *** State: the generator's [self.rng] and the [random] module *)

Record world : Type := mkWorld {
  rng : option RandomState;
  entropy : Entropy
}.

Definition M (A : Type) : Type := world -> result (A * world).

Definition ret {A : Type} (a : A) : M A := fun w => Ok (a, w).

Definition bind {A B : Type} (m : M A) (k : A -> M B) : M B :=
  fun w =>
    match m w with
    | Ok (a, w') => k a w'
    | Raise e => Raise e
    end.

Definition lift {A : Type} (r : result A) : M A :=
  fun w =>
    match r with
    | Ok a => Ok (a, w)
    | Raise e => Raise e
    end.

Notation "x <- m ;; k" := (bind m (fun x => k))
  (at level 61, m at next level, right associativity).

Fixpoint foldM {A B : Type} (f : B -> A -> M B) (l : list A) (b : B) : M B :=
  match l with
  | [] => ret b
  | a :: l' => b' <- f b a ;; foldM f l' b'
  end.

(** [_init_random]: an absent seed is drawn from the [random] module; the
    generator is replaced by one seeded with the seed. *)
Definition _init_random (sd : option Z) : M Z :=
  fun w =>
    let (s, e) :=
      match sd with
      | Some s => (s, entropy w)
      | None => random_randint (entropy w) 0 (2 ^ 31 - 1)
      end in
    if (0 <=? s)%Z && (s <? 2 ^ 32)%Z
    then Ok (s, mkWorld (Some (new_RandomState s)) e)
    else Raise ValueError.

(** A call of a method of [self.rng]: an [AttributeError] while it is
    [None]. *)
Definition draw {A : Type} (f : RandomState -> A * RandomState) : M A :=
  fun w =>
    match rng w with
    | None => Raise AttributeError
    | Some rs => let (a, rs') := f rs in Ok (a, mkWorld (Some rs') (entropy w))
    end.

(** [self.rng.randint(low, high)] *)
Definition np_randint (low high : Z) : M Z :=
  fun w =>
    match rng w with
    | None => Raise AttributeError
    | Some rs =>
        if (low <? high)%Z
        then let (v, rs') := rs_randint rs low high in
             Ok (v, mkWorld (Some rs') (entropy w))
        else Raise ValueError
    end.

(** *** Fractal noise *)

(** One octave of [_perlin_noise_2d]. *)
Definition octave_pass (shp : nat * nat) (scale persistence : Q)
  (noise : arr) (octave : nat) : M arr :=
  let (height, width) := shp in
  let freq := inject_Z (2 ^ Z.of_nat octave) in
  let amplitude := Qpower persistence (Z.of_nat octave) in
  let octave_scale := scale / freq in
  let grid_size_x := Z.max 4 (Qtrunc (QN width * octave_scale)) in
  let grid_size_y := Z.max 4 (Qtrunc (QN height * octave_scale)) in
  small_noise <- draw (fun rs => rs_randn rs (Z.to_nat grid_size_y) (Z.to_nat grid_size_x)) ;;
  let zoom_factor := (QN height / inject_Z grid_size_y, QN width / inject_Z grid_size_x) in
  let octave_noise := zoom small_noise zoom_factor in
  let octave_noise := firstn height (map (firstn width) octave_noise) in
  mx <- lift (np_max octave_noise) ;;
  mn <- lift (np_min octave_noise) ;;
  let octave_noise :=
    if Qltb mn mx
    then amap (fun v => (v - mn) / (mx - mn) * 2 - 1) octave_noise
    else octave_noise in
  ret (amap2 (fun n o => n + o * amplitude) noise octave_noise).

(** [_perlin_noise_2d(shape, scale, octaves, persistence)] *)
Definition _perlin_noise_2d (shp : nat * nat) (scale : Q) (octaves : nat)
  (persistence : Q) : M arr :=
  _ <- (fun w =>
          match rng w with
          | None => (_ <- _init_random None ;; ret tt) w
          | Some _ => ret tt w
          end) ;;
  noise <- foldM (octave_pass shp scale persistence) (seq 0 octaves) (zeros shp) ;;
  mx <- lift (np_max noise) ;;
  mn <- lift (np_min noise) ;;
  ret (if Qltb mn mx then amap (fun v => (v - mn) / (mx - mn)) noise else noise).

(** [_simplex_noise_2d] *)
Definition _simplex_noise_2d (shp : nat * nat) (scale : Q) : M arr :=
  _perlin_noise_2d shp scale 4 0.5.

(** *** Stage 1: tectonic base *)

(** The vertical profile of one ridge of [_generate_mountain_belt] at row
    [y]: the main Gaussian and the two secondary ones, each inside its
    mask. *)
Definition vertical_profile (mountain_width pos_y : Z) (y : nat) : Q :=
  let distance_y := Z.abs (Z.of_nat y - pos_y) in
  let main :=
    if (distance_y <? mountain_width * 4)%Z
    then fexp (- inject_Z (distance_y ^ 2) / inject_Z (2 * mountain_width ^ 2))
    else 0 in
  let secondary_width := inject_Z mountain_width * 1.2 in
  let secondary_offset := Qtrunc (inject_Z mountain_width * 1.5) in
  let side (center : Z) (v : Q) : Q :=
    let d := Z.abs (Z.of_nat y - center) in
    if Qltb (inject_Z d) (secondary_width * 3)
    then v + 0.5 * fexp (- inject_Z (d ^ 2) / (2 * (secondary_width * secondary_width)))
    else v in
  side (pos_y + secondary_offset)%Z (side (pos_y - secondary_offset)%Z main).

(** The along-strike variation of ridge [i] at column [x]. *)
Definition longitudinal_var (width : nat) (i x : nat) : Q :=
  fsin (QN x / QN width * np_pi * 3) * 0.15
  + fsin (QN x / QN width * np_pi * 7 + QN i) * 0.10
  + 0.75.

(** [_generate_mountain_belt] *)
Definition _generate_mountain_belt (shp : nat * nat) (p : params) : M arr :=
  let (height, width) := shp in
  let num_mountains := Z.max 3 (3 + Qtrunc (tectonic_uplift p * 6)) in
  let base_width := QN height / inject_Z (num_mountains * 3) in
  let mountain_width := Qtrunc (base_width * (0.8 + tectonic_uplift p * 0.4)) in
  let pos_y (i : nat) : Z :=
    if (num_mountains =? 1)%Z then (Z.of_nat height / 2)%Z
    else Qtrunc (QN height * (QN i + 1) / inject_Z (num_mountains + 1)) in
  let mountain_map :=
    tabulate height width (fun y x =>
      fold_left
        (fun acc i => acc + vertical_profile mountain_width (pos_y i) y
                            * longitudinal_var width i x)
        (seq 0 (Z.to_nat num_mountains)) 0) in
  large_noise <- _perlin_noise_2d shp 0.3 3 0.5 ;;
  medium_noise <- _perlin_noise_2d shp 0.1 4 0.5 ;;
  small_noise <- _perlin_noise_2d shp 0.03 2 0.5 ;;
  let mountain_map :=
    amap2 (fun a s => a + s * 0.05)
      (amap2 (fun a m => a + m * 0.1)
         (amap2 (fun a l => a * 0.7 + l * 0.15) mountain_map large_noise)
         medium_noise)
      small_noise in
  let mountain_map := amap (fun v => fpow v 1.8) mountain_map in
  lift (rescale mountain_map).

(** The value [_generate_rift_valley] gives to column [x].  The operands of
    the divisions are Python integers: a rift of width 0 divides by zero. *)
Definition rift_val (rift_center rift_width : Z) (x : nat) : result Q :=
  let distance_to_center := Z.abs (Z.of_nat x - rift_center) in
  if (distance_to_center <? rift_width)%Z then
    Ok (- fexp (- inject_Z (distance_to_center ^ 2) / inject_Z (rift_width ^ 2)))
  else if ((rift_width * 2) ^ 2 =? 0)%Z then Raise ZeroDivisionError
  else
    Ok (fexp (- inject_Z ((distance_to_center - rift_width) ^ 2)
              / inject_Z ((rift_width * 2) ^ 2)) * 0.5).

Fixpoint mapR {A B : Type} (f : A -> result B) (l : list A) : result (list B) :=
  match l with
  | [] => Ok []
  | a :: l' => rbind (f a) (fun b => rbind (mapR f l') (fun bs => Ok (b :: bs)))
  end.

(** [_generate_rift_valley] *)
Definition _generate_rift_valley (shp : nat * nat) (p : params) : M arr :=
  let (height, width) := shp in
  let rift_center := (Z.of_nat width / 2)%Z in
  let rift_width := Qtrunc (QN width * 0.1) in
  row <- lift (mapR (rift_val rift_center rift_width) (seq 0 width)) ;;
  let rift_map := repeat row height in
  rift_map <-
    (if Qltb 0.6 (tectonic_uplift p)
     then volcanic_noise <- _perlin_noise_2d shp 0.05 2 0.5 ;;
          ret (amap2 (fun r v => r + v * 0.3) rift_map volcanic_noise)
     else ret rift_map) ;;
  lift (rescale rift_map).

(** What shear zone [zone] of [_generate_transform_boundary] adds to the
    cell [(y, x)]. *)
Definition zone_contribution (height width : nat) (num_zones : Z)
  (zone y x : nat) : Q :=
  let zone_center := Qtrunc (QN height * (QN zone + 1) / inject_Z (num_zones + 1)) in
  let zone_width := Qtrunc (QN height * 0.05) in
  let distance := Z.abs (Z.of_nat y - zone_center) in
  if (distance <? zone_width * 3)%Z then
    let zone_val := fexp (- inject_Z (distance ^ 2) / inject_Z (2 * zone_width ^ 2)) in
    let lateral_var :=
      if Nat.even zone
      then fsin (QN x / QN width * np_pi * 8) * 0.5 + 0.5
      else fcos (QN x / QN width * np_pi * 8) * 0.5 + 0.5 in
    zone_val * lateral_var
  else 0.

(** [_generate_transform_boundary] *)
Definition _generate_transform_boundary (shp : nat * nat) (p : params) : M arr :=
  let (height, width) := shp in
  let num_zones := (2 + Qtrunc (tectonic_uplift p * 3))%Z in
  let transform_map :=
    tabulate height width (fun y x =>
      fold_left (fun acc zone => acc + zone_contribution height width num_zones zone y x)
                (seq 0 (Z.to_nat num_zones)) 0) in
  detail_noise <- _perlin_noise_2d shp 0.08 4 0.5 ;;
  let transform_map := amap2 (fun t d => t * 0.6 + d * 0.4) transform_map detail_noise in
  lift (rescale transform_map).

(** [_generate_stable_craton] *)
Definition _generate_stable_craton (shp : nat * nat) (p : params) : M arr :=
  base_noise <- _perlin_noise_2d shp 0.3 1 0.5 ;;
  detail_noise <- _perlin_noise_2d shp 0.05 3 0.5 ;;
  let craton_map := amap2 (fun b d => b * 0.8 + d * 0.2) base_noise detail_noise in
  ret (if Qltb (terrain_age p) 0.5
       then gaussian_filter craton_map (2 + (1 - terrain_age p) * 5)
       else craton_map).

(** [hardness_noise * 0.5 + overall_hardness * 0.5] *)
Definition hardness_from (hardness_noise : arr) (overall_hardness : Q) : arr :=
  amap (fun v => v * 0.5 + overall_hardness * 0.5) hardness_noise.

(** [_generate_hardness_map] *)
Definition _generate_hardness_map (shp : nat * nat) (overall_hardness : Q) : M arr :=
  hardness_noise <- _perlin_noise_2d shp 0.2 2 0.5 ;;
  ret (hardness_from hardness_noise overall_hardness).

(** The two lines that close [generate_tectonic_base]:
    [base = base * (0.7 + hardness_map * 0.3)] and
    [base = base * (params.tectonic_uplift ** 0.8)], [uplift_pow] being the
    value of the power. *)
Definition scale_base (base hardness_map : arr) (uplift_pow : Q) : arr :=
  amap (fun v => v * uplift_pow)
       (amap2 (fun b h => b * (0.7 + h * 0.3)) base hardness_map).

(** The dispatch of [generate_tectonic_base] on the tectonic pattern. *)
Definition pattern_field (shp : nat * nat) (p : params) : M arr :=
  if String.eqb (tectonic_pattern p) "convergent" then _generate_mountain_belt shp p
  else if String.eqb (tectonic_pattern p) "divergent" then _generate_rift_valley shp p
  else if String.eqb (tectonic_pattern p) "transform" then _generate_transform_boundary shp p
  else _generate_stable_craton shp p.

(** [generate_tectonic_base] *)
Definition generate_tectonic_base (p : params) : M arr :=
  _ <- _init_random (seed p) ;;
  shp <- lift (shape_of p) ;;
  base <- pattern_field shp p ;;
  hardness_map <- _generate_hardness_map shp (rock_hardness p) ;;
  ret (scale_base base hardness_map (fpow (tectonic_uplift p) 0.8)).

(** *** Stage 2: regions *)

(** The check of one candidate against the centres placed so far. *)
Definition too_close (centers : list (Z * Z)) (cx cy : Z) (min_distance : Q) : bool :=
  existsb
    (fun o =>
       let (ox, oy) := o : Z * Z in
       Qltb (fsqrt (inject_Z ((cx - ox) ^ 2 + (cy - oy) ^ 2))) min_distance)
    centers.

(** The [while attempts < 100] loop: the accepted candidate, or [None] once
    the attempts are used up. *)
Fixpoint sample_center (attempts_left : nat) (width height : Z) (min_distance : Q)
  (centers : list (Z * Z)) : M (option (Z * Z)) :=
  match attempts_left with
  | O => ret None
  | S n =>
      cx <- np_randint (width / 4)%Z (3 * width / 4)%Z ;;
      cy <- np_randint (height / 4)%Z (3 * height / 4)%Z ;;
      if too_close centers cx cy min_distance
      then sample_center n width height min_distance centers
      else ret (Some (cx, cy))
  end.

(** The grid position used when no candidate was accepted. *)
Definition fallback_center (width height : Z) (i : nat) : Z * Z :=
  let row := (Z.of_nat i / 2)%Z in
  let col := (Z.of_nat i mod 2)%Z in
  (Qtrunc (inject_Z (width * (col + 1)) / 3),
   Qtrunc (inject_Z (height * (row + 1)) / 3)).

(** The placement of centre [i]: up to 100 candidates, then the grid. *)
Definition place_center (width height n : Z) (centers : list (Z * Z)) (i : nat)
  : M (list (Z * Z)) :=
  let min_distance := inject_Z (Z.min width height) / inject_Z (n * 2) in
  c <- sample_center 100 width height min_distance centers ;;
  match c with
  | Some c => ret (centers ++ [c])
  | None => ret (centers ++ [fallback_center width height i])
  end.

(** The loop that places the centres. *)
Definition place_centers (width height n : Z) : M (list (Z * Z)) :=
  foldM (place_center width height n) (seq 0 (Z.to_nat n)) [].

(** [distances < region_distance], [None] being [np.inf]. *)
Definition closer (d : Q) (best : option Q) : bool :=
  match best with
  | None => true
  | Some b => Qltb d b
  end.

(** One iteration of the Voronoi loop: the cells nearer to centre
    [region_id] than to every earlier centre take its identifier. *)
Definition claim_region (shp : nat * nat) (contrast : Q)
  (st : iarr * list (list (option Q))) (rc : nat * (Z * Z))
  : M (iarr * list (list (option Q))) :=
  let (height, width) := shp in
  let (region_map, region_distance) := st in
  let (region_id, c) := rc in
  let (cx, cy) := c in
  perturbation <-
    (if Qltb 0.3 contrast
     then n <- _perlin_noise_2d shp 0.1 1 0.5 ;;
          ret (Some (amap (fun v => v * contrast * 50) n))
     else ret None) ;;
  let distances (y x : nat) : Q :=
    let d := fsqrt (inject_Z ((Z.of_nat x - cx) ^ 2 + (Z.of_nat y - cy) ^ 2)) in
    match perturbation with
    | Some pm => d + get pm y x
    | None => d
    end in
  let best (y x : nat) : option Q := nth x (nth y region_distance []) None in
  ret (tabulate height width (fun y x =>
         if closer (distances y x) (best y x) then Z.of_nat region_id
         else iget region_map y x),
       tabulate height width (fun y x =>
         if closer (distances y x) (best y x) then Some (distances y x)
         else best y x)).

(** [generate_regions] *)
Definition generate_regions (p : params) : M iarr :=
  shp <- lift (shape_of p) ;;
  let (height, width) := shp in
  if (num_regions p =? 1)%Z then ret (tabulate height width (fun _ _ => 0%Z))
  else
    let (w, h) := size p in
    centers <- place_centers w h (num_regions p) ;;
    st <- foldM (claim_region shp (region_contrast p))
                (combine (seq 0 (List.length centers)) centers)
                (tabulate height width (fun _ _ => 0%Z),
                 tabulate height width (fun _ _ => None)) ;;
    ret (fst st).

(** Notions used in the statements about the partition. *)

(** The state of the Voronoi loop: the region map and the distance map. *)
Definition rstate : Type := (iarr * list (list (option Q)))%type.

Definition owner (st : rstate) (y x : nat) : Z := iget (fst st) y x.

Definition best (st : rstate) (y x : nat) : option Q :=
  nth x (nth y (snd st) []) None.

(** Squared distance from the cell [(y, x)] to the centre [c]. *)
Definition d2 (c : Z * Z) (y x : nat) : Z :=
  ((Z.of_nat x - fst c) ^ 2 + (Z.of_nat y - snd c) ^ 2)%Z.

(** One iteration of the Voronoi loop when no perturbation is drawn. *)
Definition voronoi_step (shp : nat * nat) (st : rstate) (rc : nat * (Z * Z)) : rstate :=
  (tabulate (fst shp) (snd shp) (fun y x =>
     if closer (fsqrt (inject_Z (d2 (snd rc) y x))) (best st y x)
     then Z.of_nat (fst rc) else owner st y x),
   tabulate (fst shp) (snd shp) (fun y x =>
     if closer (fsqrt (inject_Z (d2 (snd rc) y x))) (best st y x)
     then Some (fsqrt (inject_Z (d2 (snd rc) y x))) else best st y x)).

(** The cell a centre sits on. *)
Definition inside (shp : nat * nat) (c : Z * Z) : Prop :=
  (0 <= fst c < Z.of_nat (snd shp))%Z /\ (0 <= snd c < Z.of_nat (fst shp))%Z.

(** The distance map holds, at the cell [(y, x)], nothing yet or the
    distance to one of the centres of [S]. *)
Definition tracks (S : Z * Z -> Prop) (st : rstate) (y x : nat) : Prop :=
  best st y x = None
  \/ exists c, S c /\ best st y x = Some (fsqrt (inject_Z (d2 c y x))).

(** *** Stage 3: climate *)

(** [np.max(regions)] *)
Definition np_imax (a : iarr) : result Z :=
  match List.concat a with
  | [] => Raise ValueError
  | v :: vs => Ok (fold_left Z.max vs v)
  end.

(** One iteration of the loop over the regions. *)
Definition climate_region (shp : nat * nat) (precip : Q) (regions : iarr)
  (climate_map : arr) (region_id : nat) : M arr :=
  let (height, width) := shp in
  let mask (y x : nat) : bool := (iget regions y x =? Z.of_nat region_id)%Z in
  u <- draw (fun rs => rs_uniform rs 0.7 1.3) ;;
  let region_precip := clip01 (precip * u) in
  let climate_map :=
    tabulate height width (fun y x =>
      if mask y x then region_precip else get climate_map y x) in
  if existsb (existsb (fun v => (v =? Z.of_nat region_id)%Z)) regions then
    n <- _perlin_noise_2d shp 0.2 1 0.5 ;;
    let region_noise := amap (fun v => v * 0.2) n in
    ret (tabulate height width (fun y x =>
           clip01 (if mask y x then get climate_map y x + get region_noise y x
                   else get climate_map y x)))
  else ret climate_map.

(** [generate_climate] *)
Definition generate_climate (p : params) (regions : iarr) : M arr :=
  shp <- lift (shape_of p) ;;
  mx <- lift (np_imax regions) ;;
  foldM (climate_region shp (precipitation p) regions)
        (seq 0 (Z.to_nat (mx + 1)))
        (full shp (precipitation p)).

(** *** Stage 4: erosion *)

(** [sqrt(gradient_x ** 2 + gradient_y ** 2)] *)
Definition slope_of (gradient_y gradient_x : arr) : arr :=
  amap2 (fun gx gy => fsqrt (gx * gx + gy * gy)) gradient_x gradient_y.

(** The body of the loop of [_simulate_hydraulic_erosion] for the flat
    index [idx]: reads [heightmap], updates [eroded]. *)
Definition hydraulic_visit (heightmap slope climate_map : arr) (intensity : Q)
  (eroded : arr) (idx : nat) : arr :=
  let (height, width) := shape heightmap in
  let y := (idx / width)%nat in
  let x := (idx mod width)%nat in
  if Nat.eqb y 0 || Nat.eqb y (height - 1) || Nat.eqb x 0 || Nat.eqb x (width - 1)
  then eroded
  else
    let local_heights :=
      flat_map (fun dy => map (fun dx => get heightmap (y + dy - 1) (x + dx - 1))
                              (seq 0 3))
               (seq 0 3) in
    let min_height := fold_left Qmin local_heights (get heightmap (y - 1) (x - 1)) in
    if Qltb min_height (get heightmap y x) then
      let erosion_amount := get slope y x * get climate_map y x * intensity * 0.01 in
      let eroded := upd eroded y x (fun v => v - erosion_amount) in
      let min_pos := np_argmin local_heights in
      let target_y := (y + min_pos / 3 - 1)%nat in
      let target_x := (x + min_pos mod 3 - 1)%nat in
      upd eroded target_y target_x (fun v => v + erosion_amount * 0.5)
    else eroded.

(** [_simulate_hydraulic_erosion]: the cells are visited from the highest
    to the lowest. *)
Definition _simulate_hydraulic_erosion (heightmap climate_map : arr) (intensity : Q)
  : result arr :=
  rbind (np_gradient heightmap) (fun g =>
  let slope := slope_of (fst g) (snd g) in
  let sorted_indices := rev (argsort (List.concat heightmap)) in
  Ok (fold_left (hydraulic_visit heightmap slope climate_map intensity)
                sorted_indices heightmap)).

(** [_simulate_thermal_weathering] *)
Definition _simulate_thermal_weathering (heightmap : arr) (temp : Q) : result arr :=
  let weathering_rate :=
    if Qltb temp 0.3 || Qltb 0.7 temp then 0.005 else 0.001 in
  rbind (np_gradient heightmap) (fun g =>
  let slope := slope_of (fst g) (snd g) in
  Ok (amap2 (fun h s => h - s * weathering_rate) heightmap slope)).

(** [_simulate_wind_erosion]: a cell higher than its left neighbour loses
    [min(height_diff * 0.1 * wind_intensity, height * 0.05)]. *)
Definition _simulate_wind_erosion (heightmap : arr) (wind : Q) : arr :=
  let (height, width) := shape heightmap in
  tabulate height width (fun y x =>
    let h := get heightmap y x in
    let wind_erosion :=
      if (1 <=? x)%nat && Qltb (get heightmap y (x - 1)) h
      then 0 - Qmin ((h - get heightmap y (x - 1)) * 0.1 * wind) (h * 0.05)
      else 0 in
    h + wind_erosion).

(** The three conditional sub-stages of one pass. *)
Definition hydraulic_step (p : params) (climate_map eroded : arr) : result arr :=
  if Qltb 0.1 (precipitation p) && Qltb 0.1 (river_intensity p)
  then _simulate_hydraulic_erosion eroded climate_map (river_intensity p)
  else Ok eroded.

Definition thermal_step (p : params) (eroded : arr) : result arr :=
  if Qltb (temperature p) 0.8
  then _simulate_thermal_weathering eroded (temperature p)
  else Ok eroded.

Definition wind_step (p : params) (eroded : arr) : result arr :=
  if Qltb 0.3 (wind_intensity p) && Qltb (precipitation p) 0.4
  then Ok (_simulate_wind_erosion eroded (wind_intensity p))
  else Ok eroded.

(** One iteration of the erosion loop. *)
Definition erosion_pass (p : params) (climate_map eroded : arr) : result arr :=
  rbind (hydraulic_step p climate_map eroded) (fun eroded =>
  rbind (thermal_step p eroded) (fun eroded =>
  wind_step p eroded)).

Fixpoint erosion_loop (n : nat) (p : params) (climate_map eroded : arr) : result arr :=
  match n with
  | O => Ok eroded
  | S n' => rbind (erosion_pass p climate_map eroded) (erosion_loop n' p climate_map)
  end.

(** The field [simulate_erosion] holds before its final rescale: the
    passes, then the smoothing of old terrain. *)
Definition eroded_field (heightmap : arr) (p : params) (climate_map : arr) : result arr :=
  rbind (erosion_loop (Z.to_nat (erosion_iterations p)) p climate_map heightmap)
    (fun eroded =>
       Ok (if Qltb (terrain_age p) 0.5
           then gaussian_filter eroded (2 + (1 - terrain_age p) * 3)
           else eroded)).

(** [simulate_erosion] ([regions] is not read). *)
Definition simulate_erosion (heightmap : arr) (p : params) (climate_map : arr)
  (regions : iarr) : result arr :=
  rbind (eroded_field heightmap p climate_map) rescale.

(** *** Stage 5: post-processing *)

(** The mask value of the cell [(y, x)] in [_create_coastal_mask]; the mask
    starts as ones. *)
Definition coastal_cell (height width : nat) (distance_to_coast : Q) (y x : nat) : Q :=
  let dist_to_edge :=
    Z.min (Z.min (Z.of_nat x) (Z.of_nat width - 1 - Z.of_nat x))
          (Z.min (Z.of_nat y) (Z.of_nat height - 1 - Z.of_nat y)) in
  let norm_dist := inject_Z dist_to_edge / inject_Z (Z.min (Z.of_nat width) (Z.of_nat height)) * 2 in
  if Qltb distance_to_coast 0.3 then
    if Qltb norm_dist 0.1 then 0.1
    else if Qltb norm_dist 0.2 then 0.3
    else 1
  else if Qltb 0.7 distance_to_coast then 1.0
  else 1.

(** [_create_coastal_mask] *)
Definition _create_coastal_mask (shp : nat * nat) (distance_to_coast : Q) : arr :=
  tabulate (fst shp) (snd shp) (coastal_cell (fst shp) (snd shp) distance_to_coast).

(** Steps 1 and 2 of [post_process]: negative elevations are raised to 0,
    and near the coast the field is multiplied by
    [0.3 + coastal_mask * 0.7]. *)
Definition coast_adjust (heightmap : arr) (p : params) : arr :=
  let heightmap := amap (fun v => Qmax v 0) heightmap in
  if Qltb (distance_to_coast p) 0.3 then
    let coastal_mask := _create_coastal_mask (shape heightmap) (distance_to_coast p) in
    amap2 (fun h m => h * (0.3 + m * 0.7)) heightmap coastal_mask
  else heightmap.

(** The field [post_process] holds before its final rescale. *)
Definition detailed_field (heightmap : arr) (p : params) : M arr :=
  let heightmap := coast_adjust heightmap p in
  detail_noise <- _perlin_noise_2d (shape heightmap) 0.02 2 0.5 ;;
  ret (amap2 (fun h d => h * 0.95 + d * 0.05) heightmap detail_noise).

(** [post_process] *)
Definition post_process (heightmap : arr) (p : params) : M arr :=
  f <- detailed_field heightmap p ;;
  lift (rescale f).

(** *** The pipeline ([GenerationThread.run]) *)

Definition run (p : params) : M arr :=
  tectonic_layer <- generate_tectonic_base p ;;
  regions <- generate_regions p ;;
  climate <- generate_climate p regions ;;
  heightmap <- lift (simulate_erosion tectonic_layer p climate regions) ;;
  post_process heightmap p.

(** The heightmap a run delivers, or the exception it ends with. *)
Definition outcome {A : Type} (r : result (A * world)) : result A :=
  match r with
  | Ok (a, _) => Ok a
  | Raise e => Raise e
  end.

(** Two states of the program that hold the same generator. *)
Definition same_rng (w1 w2 : world) : Prop :=
  rng w1 = rng w2 /\ rng w1 <> None.

(** Two runs that end alike: the same exception, or the same value and the
    same generator. *)
Definition agree {A : Type} (r1 r2 : result (A * world)) : Prop :=
  match r1, r2 with
  | Ok (a1, w1), Ok (a2, w2) => a1 = a2 /\ same_rng w1 w2
  | Raise e1, Raise e2 => e1 = e2
  | _, _ => False
  end.

(** A computation that, once the generator is set, reads nothing else of
    the state: in particular not the [random] module. *)
Definition seeded_only {A : Type} (m : M A) : Prop :=
  forall w1 w2 : world, same_rng w1 w2 -> agree (m w1) (m w2).

End WithLib.

(** *** Small requests used as examples *)

(** The centres placed on a 2 x 2 map with five regions. *)
Definition tiny_centers : list (Z * Z) :=
  [(0, 0); (1, 0); (0, 1); (1, 1); (0, 2)]%Z.

(** A 2 x 2 request for five regions, without perturbation. *)
Definition tiny_params : params :=
  mkParams (2, 2)%Z (Some 42%Z) 0.7 "convergent" 0.5 0.7 0.6 0.4 0.3 0.5
           5%Z 0 10%Z 0.8 0.3.

(** An 8 x 8 request for three regions, without perturbation. *)
Definition small_params : params :=
  mkParams (8, 8)%Z (Some 42%Z) 0.7 "convergent" 0.5 0.7 0.6 0.4 0.3 0.5
           3%Z 0 10%Z 0.8 0.3.


End Engine.

(** ** [math_utils] ([src/utils/math_utils.py]) *)

Module MathUtils.
Import Engine.

(** [np.sum(a)] *)
Definition np_sum (a : arr) : Q := fold_left Qplus (List.concat a) 0.


Section WithLib.
Context {L : NumLib}.


(** The axis [np.arange(-size // 2 + 1., size // 2 + 1.)] of
    [gaussian_kernel], for an integer [size]. *)
Definition kernel_axis (size : Z) : list Q :=
  let lo := ((- size) / 2 + 1)%Z in
  let hi := (size / 2 + 1)%Z in
  map (fun i => inject_Z (lo + Z.of_nat i)) (seq 0 (Z.to_nat (hi - lo))).

(** [gaussian_kernel(size, sigma)], for [sigma <> 0] (a zero [sigma]
    makes numpy divide by zero into [inf] and [nan], which rationals do
    not have). *)
Definition gaussian_kernel (size : Z) (sigma : Q) : arr :=
  let ax := kernel_axis size in
  let kernel :=
    map (fun yy => map (fun xx => fexp (- (xx * xx + yy * yy) / (2 * (sigma * sigma))))
                       ax) ax in
  let total := np_sum kernel in
  amap (fun v => v / total) kernel.

(** [apply_gaussian_filter] *)
Definition apply_gaussian_filter (array : option arr) (sigma : Q) : option arr :=
  match array with
  | None => None
  | Some a => Some (gaussian_filter a sigma)
  end.

End WithLib.

End MathUtils.

(** ** [image_utils] ([src/utils/image_utils.py]): grey images and shading *)

Module ImageShading.
Import Engine ImageUtils.

(** [astype(np.uint8)] of a float: the fraction is dropped; a value outside
    [0, 256) wraps around. *)
Definition astype_uint8 (v : Q) : Z := (Qtrunc v mod 256)%Z.

(** The grey levels [((a - min) / (max - min + 1e-8) * 255).astype(np.uint8)]
    that [array_to_qimage] and [PreviewCanvas._create_heightmap_image] hand to
    [QImage]. *)
Definition gray_levels (a : arr) : result (list (list Z)) :=
  rbind (rescale a) (fun array_normalized =>
  Ok (map (map (fun v => astype_uint8 (v * 255))) array_normalized)).

(** [array_to_qimage] on a two-dimensional float array; the image is its
    pixel buffer. *)
Definition array_to_qimage (array : option arr) : result (option (list (list Z))) :=
  match array with
  | None => Ok None
  | Some a => rbind (gray_levels a) (fun array_uint8 => Ok (Some array_uint8))
  end.

(** [heightmap_to_colormap]: the texture as an array. *)
Definition heightmap_to_colormap (heightmap : option arr) (colormap : string)
  : option (list (list rgb)) :=
  generate_texture heightmap colormap.

Section WithLib.
Context {L : NumLib}.

(** [apply_lighting]: the clipped dot product of the unit surface normal
    with the unit light direction, plus ambient light. *)
Definition apply_lighting (heightmap : option arr) (light_direction : Q * Q * Q)
  : result (option arr) :=
  match heightmap with
  | None => Ok None
  | Some hm =>
      rbind (np_gradient hm) (fun g =>
      let (gradient_y, gradient_x) := g in
      let '(lx, ly, lz) := light_direction in
      let light_norm := fsqrt (lx * lx + ly * ly + lz * lz) in
      let (height, width) := shape hm in
      Ok (Some (tabulate height width (fun y x =>
        let nx := - get gradient_x y x in
        let ny := - get gradient_y y x in
        let nz := 1 in
        let normal_norm := fsqrt (nx * nx + ny * ny + nz * nz) in
        let d := normal_norm + 0.00000001 in
        let lighting :=
          nx / d * (lx / light_norm) + ny / d * (ly / light_norm)
          + nz / d * (lz / light_norm) in
        clip01 (lighting * 0.8 + 0.2)))))
  end.

(** One channel of [create_shaded_texture]:
    [(clip(c / 255 * lighting, 0, 1) * 255).astype(np.uint8)]. *)
Definition shade_channel (c : Z) (lighting : Q) : Z :=
  astype_uint8 (clip01 (inject_Z c / 255 * lighting) * 255).

Definition shade (px : rgb) (lighting : Q) : rgb :=
  let '(r, g, b) := px in
  (shade_channel r lighting, shade_channel g lighting, shade_channel b lighting).

(** [create_shaded_texture] *)
Definition create_shaded_texture (heightmap : option arr) (colormap : string)
  : result (option (list (list rgb))) :=
  match generate_texture heightmap colormap with
  | None => Ok None
  | Some texture =>
      rbind (apply_lighting heightmap (1, 1, 1)) (fun lighting =>
      match lighting with
      | None => Ok (Some texture)
      | Some l => Ok (Some (zip_with (zip_with shade) texture l))
      end)
  end.

End WithLib.

(** *** Notions used in the statements about colours *)

(** A colour with its three channels in [[0, 255]]. *)
Definition byte_colour (c : rgb) : Prop :=
  let '(r, g, b) := c in
  (0 <= r <= 255)%Z /\ (0 <= g <= 255)%Z /\ (0 <= b <= 255)%Z.

End ImageShading.

(** ** [PreviewCanvas]: the mouse, the preview image, the 2D view *)

Module CanvasMouse.
Import Engine PreviewCanvas.

Inductive button : Type := LeftButton | RightButton | OtherButton.

(** The view state together with the drag state of the widget. *)
Record widget : Type := mkWidget {
  view : canvas;
  last_mouse_pos : option (Z * Z);
  is_dragging : bool
}.

(** The state [__init__] builds. *)
Definition init_widget : widget := mkWidget init None false.

(** The truth value of a [QPoint]: false for the null point [(0, 0)]. *)
Definition QPoint_bool (p : Z * Z) : bool :=
  negb ((fst p =? 0)%Z && (snd p =? 0)%Z).

(** The coordinates of a [QPoint] are C [int]s: the sums and differences
    of [QPoint.__add__], [__iadd__] and [__sub__] wrap around at 32
    bits. *)
Definition int32 (z : Z) : Z :=
  ((z + 2147483648) mod 4294967296 - 2147483648)%Z.

Definition QPoint_add (p q : Z * Z) : Z * Z :=
  (int32 (fst p + fst q), int32 (snd p + snd q)).

Definition QPoint_sub (p q : Z * Z) : Z * Z :=
  (int32 (fst p - fst q), int32 (snd p - snd q)).

(** [mousePressEvent] *)
Definition mousePressEvent (b : button) (pos : Z * Z) (s : widget) : widget :=
  match b with
  | LeftButton => mkWidget (view s) (Some pos) true
  | RightButton =>
      let c := view s in
      mkWidget (mkCanvas (show_grid c) (show_axes c) (toggle (mode c))
                         (zoom_level c) (pan_offset c) (rotation_x c) (rotation_y c))
               (last_mouse_pos s) (is_dragging s)
  | OtherButton => s
  end.

(** [mouseMoveEvent]: while dragging from a position that is set (and not
    null), the 2D view pans by the movement and the 3D view turns by half
    a degree per pixel, the pitch being kept within [-90, 90]. *)
Definition mouseMoveEvent (pos : Z * Z) (s : widget) : widget :=
  match last_mouse_pos s with
  | Some last =>
      if is_dragging s && QPoint_bool last then
        let delta := QPoint_sub pos last in
        let c := view s in
        let c' :=
          match mode c with
          | Mode2D =>
              mkCanvas (show_grid c) (show_axes c) (mode c) (zoom_level c)
                       (QPoint_add (pan_offset c) delta)
                       (rotation_x c) (rotation_y c)
          | Mode3D =>
              mkCanvas (show_grid c) (show_axes c) (mode c) (zoom_level c)
                       (pan_offset c)
                       (Qmax (-90) (Qmin 90 (rotation_x c + inject_Z (snd delta) * 0.5)))
                       (rotation_y c + inject_Z (fst delta) * 0.5)
          end in
        mkWidget c' (Some pos) (is_dragging s)
      else s
  | None => s
  end.

(** [mouseReleaseEvent] *)
Definition mouseReleaseEvent (b : button) (s : widget) : widget :=
  match b with
  | LeftButton => mkWidget (view s) None false
  | _ => s
  end.

(** [set_view_mode]: only ["2D"] and ["3D"] are taken. *)
Definition set_view_mode (m : string) (s : widget) : widget :=
  let c := view s in
  let set v := mkWidget (mkCanvas (show_grid c) (show_axes c) v (zoom_level c)
                                  (pan_offset c) (rotation_x c) (rotation_y c))
                        (last_mouse_pos s) (is_dragging s) in
  if String.eqb m "2D" then set Mode2D
  else if String.eqb m "3D" then set Mode3D
  else s.

(** Everything the user can do to the widget. *)
Inductive action : Type :=
| Press (b : button) (pos : Z * Z)
| Move (pos : Z * Z)
| Release (b : button)
| Scroll (delta : Z)
| Type_key (k : key)
| Set_mode (m : string).

Definition act (s : widget) (a : action) : widget :=
  match a with
  | Press b pos => mousePressEvent b pos s
  | Move pos => mouseMoveEvent pos s
  | Release b => mouseReleaseEvent b s
  | Scroll delta => mkWidget (wheelEvent delta (view s)) (last_mouse_pos s) (is_dragging s)
  | Type_key k => mkWidget (keyPressEvent k (view s)) (last_mouse_pos s) (is_dragging s)
  | Set_mode m => set_view_mode m s
  end.

Definition run_actions (s : widget) (l : list action) : widget := fold_left act l s.

(** [_create_heightmap_image]: the grey levels of the preview image, or
    nothing without a heightmap. *)
Definition _create_heightmap_image (heightmap : option arr)
  : result (option (list (list Z))) :=
  match heightmap with
  | None => Ok None
  | Some hm =>
      rbind (ImageShading.gray_levels hm) (fun height_uint8 => Ok (Some height_uint8))
  end.

(** The rectangle [(draw_x, draw_y, draw_width, draw_height)] in which
    [_draw_2d_view] paints an image of [img_width] x [img_height] pixels
    on a widget of [width] x [height] pixels. *)
Definition draw_rect (width height img_width img_height : Z) (c : canvas)
  : result (Z * Z * Z * Z) :=
  let view_width := (width - 40)%Z in
  let view_height := (height - 40)%Z in
  if (img_width =? 0)%Z || (img_height =? 0)%Z then Raise ZeroDivisionError
  else
    let scale :=
      Qmin (inject_Z view_width / inject_Z img_width)
           (inject_Z view_height / inject_Z img_height) * zoom_level c in
    let draw_width := Qtrunc (inject_Z img_width * scale) in
    let draw_height := Qtrunc (inject_Z img_height * scale) in
    let draw_x := ((width - draw_width) / 2 + fst (pan_offset c))%Z in
    let draw_y := ((height - draw_height) / 2 + snd (pan_offset c))%Z in
    Ok (draw_x, draw_y, draw_width, draw_height).

(** *** Notions used in the statements about the mouse *)

(** The pitch of the 3D view is within its bounds. *)
Definition pitch_in_bounds (s : widget) : Prop :=
  -90 <= rotation_x (view s) /\ rotation_x (view s) <= 90.

(** The state of a drag in the 2D view that has reached [q]. *)
Definition dragging_at (s : widget) (q : Z * Z) : Prop :=
  last_mouse_pos s = Some q /\ is_dragging s = true /\ mode (view s) = Mode2D.

(** A point whose coordinates are C [int]s. *)
Definition is_QPoint (p : Z * Z) : Prop :=
  (-2147483648 <= fst p < 2147483648)%Z /\ (-2147483648 <= snd p < 2147483648)%Z.

(** The view [c] panned by [d], in the arithmetic of [QPoint]. *)
Definition panned (c : canvas) (d : Z * Z) : canvas :=
  mkCanvas (show_grid c) (show_axes c) (mode c) (zoom_level c)
           (QPoint_add (pan_offset c) d)
           (rotation_x c) (rotation_y c).

End CanvasMouse.

(** ** [PresetManager]: the presets directory *)

Module PresetStore.
Import Py.

(** The [*.json] files of the presets directory: the stem of each file
    with the document it holds.  A preset name is read as a file stem: it
    is not empty and holds no path separator, and the file system tells
    names apart exactly. *)
Definition presets_dir : Type := list (string * Json.doc).

(** The document of [name.json], when the file exists. *)
Fixpoint read (name : string) (d : presets_dir) : option Json.doc :=
  match d with
  | [] => None
  | (n, j) :: d' => if String.eqb n name then Some j else read name d'
  end.

(** [open(preset_path, 'w')] followed by the dump: the file is replaced,
    or created. *)
Fixpoint write (name : string) (j : Json.doc) (d : presets_dir) : presets_dir :=
  match d with
  | [] => [(name, j)]
  | (n, j') :: d' =>
      if String.eqb n name then (n, j) :: d' else (n, j') :: write name j d'
  end.


(** [sorted] on strings. *)
Fixpoint insert_sorted (s : string) (l : list string) : list string :=
  match l with
  | [] => [s]
  | x :: l' => if String.leb s x then s :: l else x :: insert_sorted s l'
  end.

Definition sorted (l : list string) : list string := fold_right insert_sorted [] l.

(** [list_presets] *)
Definition list_presets (d : presets_dir) : list string := sorted (map fst d).

(** [load_preset] *)
Definition load_preset (d : presets_dir) (preset_name : string) : result TerrainParams.t :=
  PresetManager.load_preset (read preset_name d).

(** [save_preset] *)
Definition save_preset (d : presets_dir) (preset_name : string) (params : TerrainParams.t)
  : presets_dir :=
  write preset_name (PresetManager.save_preset params) d.


(** The table of [create_default_presets]. *)
Definition default_presets : list (string * dict) :=
  [ ("喜马拉雅山脉",
     [ ("size", VTuple [VInt 1024; VInt 1024]);
       ("tectonic_pattern", VStr "convergent");
       ("tectonic_uplift", VFloat 0.9);
       ("rock_hardness", VFloat 0.7);
       ("precipitation", VFloat 0.8);
       ("temperature", VFloat 0.3);
       ("terrain_age", VFloat 0.9);
       ("num_regions", VInt 3);
       ("river_intensity", VFloat 0.9) ]);
    ("安第斯山脉",
     [ ("size", VTuple [VInt 1024; VInt 1024]);
       ("tectonic_pattern", VStr "convergent");
       ("tectonic_uplift", VFloat 0.8);
       ("rock_hardness", VFloat 0.6);
       ("precipitation", VFloat 0.6);
       ("temperature", VFloat 0.4);
       ("distance_to_coast", VFloat 0.2);
       ("terrain_age", VFloat 0.8);
       ("num_regions", VInt 2) ]);
    ("青藏高原",
     [ ("size", VTuple [VInt 1024; VInt 1024]);
       ("tectonic_pattern", VStr "convergent");
       ("tectonic_uplift", VFloat 0.7);
       ("rock_hardness", VFloat 0.8);
       ("precipitation", VFloat 0.3);
       ("temperature", VFloat 0.2);
       ("distance_to_coast", VFloat 0.8);
       ("terrain_age", VFloat 0.6);
       ("wind_intensity", VFloat 0.6);
       ("num_regions", VInt 4) ]) ]%string.

(** The loop [for key, value in params_dict.items(): if hasattr(params,
    key): setattr(params, key, value)]. *)
Definition store_entries (params_dict : dict) (params : TerrainParams.t)
  : TerrainParams.t :=
  fold_left
    (fun params kv =>
       match kv with
       | (key, v) =>
           if TerrainParams.is_field key
           then TerrainParams.setattr params key v
           else params
       end)
    params_dict params.

(** [create_default_presets]: the directory afterwards, and the returned
    names. *)
Definition create_default_presets (d : presets_dir) : presets_dir * list string :=
  (fold_left
     (fun d entry =>
        match entry with
        | (name, params_dict) =>
            save_preset d name (store_entries params_dict TerrainParams.default)
        end)
     default_presets d,
   map fst default_presets).

End PresetStore.

(** ** An executable numerical library

    A small interpretation of [Engine.NumLib] on which the model runs.  It
    is not numpy: the generators are linear congruential, the zoom takes
    the nearest sample, the filter is the identity, and the transcendental
    functions are low-order rational approximations. *)

Module TestLib.
Import Engine.

Definition lcg (st : Z) : Z := ((st * 1103515245 + 12345) mod 2147483648)%Z.

Definition randint (st low high : Z) : Z * Z :=
  ((low + lcg st mod (high - low))%Z, lcg st).

Definition uniform (st : Z) (low high : Q) : Q * Z :=
  (low + (high - low) * (inject_Z (lcg st mod 1000) / 1000), lcg st).

Fixpoint randn_row (st : Z) (n : nat) : list Q * Z :=
  match n with
  | O => ([], st)
  | S n' =>
      let v := inject_Z (lcg st mod 2001 - 1000) / 1000 in
      let (vs, st') := randn_row (lcg st) n' in
      (v :: vs, st')
  end.

Fixpoint randn (st : Z) (rows cols : nat) : arr * Z :=
  match rows with
  | O => ([], st)
  | S r =>
      let (row, st1) := randn_row st cols in
      let (rest, st2) := randn st1 r cols in
      (row :: rest, st2)
  end.

(** Nearest-sample zoom to the rounded target shape. *)
Definition zoom_nearest (a : arr) (factors : Q * Q) : arr :=
  let (h, w) := shape a in
  let th := Z.to_nat (Qround.Qfloor (QN h * fst factors + 0.5)) in
  let tw := Z.to_nat (Qround.Qfloor (QN w * snd factors + 0.5)) in
  tabulate th tw (fun y x => get a (y * h / th)%nat (x * w / tw)%nat).

(** Indices in increasing order of the values (insertion sort, stable). *)
Fixpoint insert_idx (l : list Q) (i : nat) (sorted : list nat) : list nat :=
  match sorted with
  | [] => [i]
  | j :: rest =>
      if Qltb (nth i l 0) (nth j l 0) then i :: j :: rest
      else j :: insert_idx l i rest
  end.

Definition argsort_stable (l : list Q) : list nat :=
  fold_left (fun sorted i => insert_idx l i sorted) (seq 0 (List.length l)) [].

(** Square root: the integer square root of the argument scaled by
    [10^12], scaled back. *)
Definition sqrt_approx (q : Q) : Q :=
  inject_Z (Z.sqrt (Qround.Qfloor (q * 1000000000000))) / 1000000.

(** [exp x] as [1 / (1 - x + x^2/2)] for [x <= 0], [1 + x + x^2/2] above. *)
Definition exp_approx (x : Q) : Q :=
  if Qle_bool x 0 then 1 / (1 - x + x * x / 2) else 1 + x + x * x / 2.

Definition sin_approx (x : Q) : Q := x - x * x * x / 6.
Definition cos_approx (x : Q) : Q := 1 - x * x / 2.

(** [x ** y] to first order around [x = 1]. *)
Definition pow_approx (x y : Q) : Q := 1 + y * (x - 1).

#[export] Instance lib : NumLib := {
  RandomState := Z;
  new_RandomState := fun s => s;
  rs_randn := randn;
  rs_randint := randint;
  rs_uniform := uniform;
  Entropy := Z;
  random_randint := fun e a b => ((a + lcg e mod (b - a + 1))%Z, lcg e);
  zoom := zoom_nearest;
  gaussian_filter := fun a _ => a;
  argsort := argsort_stable;
  fsqrt := sqrt_approx;
  fexp := exp_approx;
  fsin := sin_approx;
  fcos := cos_approx;
  fpow := pow_approx;
  np_pi := 3.14159265
}.

End TestLib.

(** * Properties *)

Unset Implicit Arguments.

(** ** Terrain parameters: construction, loading, serialization *)

Module ParamsSpec.
Import Py TerrainParams.

Lemma dict_get_set :
  forall (k : string) (v : value) (d : dict) (k' : string),
    dict_get k' (dict_set k v d)
    = if String.eqb k' k then Some v else dict_get k' d.
Proof.
  intros k v d k'. induction d as [|[k0 v0] d IH]; simpl.
  - destruct (String.eqb k' k); reflexivity.
  - destruct (String.eqb k k0) eqn:E0; simpl.
    + apply String.eqb_eq in E0. subst k0.
      destruct (String.eqb k' k); reflexivity.
    + destruct (String.eqb k' k0) eqn:E1.
      * apply String.eqb_eq in E1. subst k0.
        rewrite String.eqb_sym in E0. rewrite E0. reflexivity.
      * exact IH.
Qed.

Lemma keys_dict_set_present :
  forall (k : string) (v x : value) (d : dict),
    dict_get k d = Some x -> keys (dict_set k v d) = keys d.
Proof.
  intros k v x d. induction d as [|[k0 v0] d IH]; simpl; intros H.
  - discriminate.
  - destruct (String.eqb k k0) eqn:E; simpl.
    + reflexivity.
    + f_equal. apply IH. exact H.
Qed.

(** The keys [from_dict] hands to the constructor are the document's. *)
Lemma from_dict_unfold :
  forall data : dict,
    from_dict data
    = init (match dict_get "size" data with
            | Some (VList l) => dict_set "size" (VTuple l) data
            | _ => data
            end)
    /\ keys (match dict_get "size" data with
             | Some (VList l) => dict_set "size" (VTuple l) data
             | _ => data
             end) = keys data.
Proof.
  intros data. split; [reflexivity|].
  destruct (dict_get "size" data) as [[]|] eqn:E; try reflexivity.
  eapply keys_dict_set_present; eassumption.
Qed.

Lemma arg_after_coercion :
  forall (data : dict) (k : string),
    arg (match dict_get "size" data with
         | Some (VList l) => dict_set "size" (VTuple l) data
         | _ => data
         end) k
    = if String.eqb k "size" then coerce_size (arg data k) else arg data k.
Proof.
  intros data k. unfold arg.
  destruct (String.eqb k "size") eqn:Ek.
  - apply String.eqb_eq in Ek. subst k.
    destruct (dict_get "size" data) as [[]|] eqn:E; rewrite ?dict_get_set, ?E;
      try reflexivity.
  - destruct (dict_get "size" data) as [[]|] eqn:E; try reflexivity.
    rewrite dict_get_set, Ek. reflexivity.
Qed.

(** The failing input of C5: a dictionary whose only entry is unrecognized
    has no invalid recognized entry, yet [from_dict] raises [TypeError]
    instead of ignoring the key. *)
Lemma from_dict_rejects_unknown_key :
  from_dict [("foo", VInt 1)] = Raise TypeError.
Proof. reflexivity. Qed.

(** The sibling loader does what the data model asks for: on the same
    document [PresetManager.load_preset] skips the unrecognized entry and
    returns the defaults. *)
Lemma load_preset_ignores_unknown_key :
  PresetManager.load_preset (Some (Json.dumps (VDict [("foo", VInt 1)])))
  = Ok default.
Proof. reflexivity. Qed.

(** C5: [from_dict] does not ignore unknown keys.  On the dictionaries all
    of whose keys are field names it does what the claim says: it
    succeeds, and every field is the dictionary's entry or, when the key
    is missing, the field default, a list-typed size being turned into a
    tuple (and a seed equal to 0 into [None]).  But a dictionary with any
    other key makes the constructor raise [TypeError]: the key is not
    ignored. *)
Theorem from_dict_accepts_field_keys_only :
  forall data : dict,
    (forallb is_field (keys data) = true ->
     exists p, from_dict data = Ok p
               /\ forall k, In k field_names ->
                            getattr p k = Some (expected_field data k))
    /\ ((exists k, In k (keys data) /\ is_field k = false) ->
        from_dict data = Raise TypeError).
Proof.
  intros data. destruct (from_dict_unfold data) as [Hfd Hkeys]. split.
  - intros Hall. unfold init in Hfd. rewrite Hkeys, Hall in Hfd.
    eexists. split; [exact Hfd|].
    intros k Hk. unfold getattr, post_init; simpl.
    rewrite !arg_after_coercion. simpl.
    unfold field_names, keys, defaults in Hk. simpl in Hk.
    repeat (destruct Hk as [Hk|Hk]; [subst k|]); try contradiction;
      unfold expected_field, normal_seed, coerce_size; simpl;
      try reflexivity.
    destruct (arg data "size"); reflexivity.
  - intros [k [Hin Hk]]. unfold init in Hfd. rewrite Hkeys in Hfd.
    assert (Hf : forallb is_field (keys data) = false).
    { destruct (forallb is_field (keys data)) eqn:E; [|reflexivity].
      rewrite forallb_forall in E. rewrite (E k Hin) in Hk. discriminate. }
    rewrite Hf in Hfd. exact Hfd.
Qed.

Lemma from_dict_accepts_field_keys_only_witness :
  exists p,
    from_dict [("size", VList [VInt 512; VInt 256]); ("seed", VInt 0)] = Ok p
    /\ forall k, In k field_names ->
                 getattr p k
                 = Some (expected_field
                           [("size", VList [VInt 512; VInt 256]); ("seed", VInt 0)] k).
Proof.
  exact (proj1 (from_dict_accepts_field_keys_only
                  [("size", VList [VInt 512; VInt 256]); ("seed", VInt 0)])
               eq_refl).
Defined.

(** *** Round trip through JSON *)

Ltac range_facts :=
  repeat match goal with
         | |- _ /\ _ => split
         | |- unit_float _ => eexists; split; [reflexivity|split; lra]
         | |- int_between _ _ _ => eexists; split; [reflexivity|lia]
         | |- positive_pair _ => do 2 eexists; split; [reflexivity|lia]
         end.

Lemma default_in_range : in_range default.
Proof.
  unfold in_range, default; simpl. range_facts.
  - left; reflexivity.
  - exists "convergent". split; [reflexivity|]. left; reflexivity.
Qed.

(** The seed of a record is never 0: [__post_init__] turns a seed of 0
    into [None], so that no record that the constructor, [from_dict] or
    [from_json] returns holds one. *)
Lemma init_seed_normal :
  forall (kwargs : dict) (p : t), init kwargs = Ok p -> seed p <> VInt 0.
Proof.
  intros kwargs p H. unfold init in H.
  destruct (forallb is_field (keys kwargs)); [|discriminate].
  inversion H; subst p; clear H. unfold post_init; cbn [seed].
  destruct (eq_zero (arg kwargs "seed")) eqn:E; [discriminate|].
  intros Hz. rewrite Hz in E. discriminate.
Qed.

Lemma loaded_seed_normal :
  seed default <> VInt 0
  /\ (forall (data : dict) (p : t), from_dict data = Ok p -> seed p <> VInt 0)
  /\ (forall (j : Json.doc) (p : t), from_json j = Ok p -> seed p <> VInt 0).
Proof.
  split; [discriminate|]. split.
  - intros data p H. unfold from_dict in H. eapply init_seed_normal. exact H.
  - intros j p H. unfold from_json in H.
    destruct (Json.loads j); try discriminate.
    unfold from_dict in H. eapply init_seed_normal. exact H.
Qed.

(** C4: for every record holding in-range field values, with an absent
    seed or a seed as the record keeps it (never 0, see
    [loaded_seed_normal]) and a 2-tuple size, [from_json (to_json p)]
    succeeds and is equal to [p] in every field. *)
Theorem json_roundtrip :
  forall p : t,
    in_range p -> seed p <> VInt 0 -> from_json (to_json p) = Ok p.
Proof.
  intros [sz sd tu tp rh ta pr te wi dc nr rc ei ri gi]. unfold in_range; simpl.
  intros (Hsz & Hsd & Htu & Htp & Hrh & Hta & Hpr & Hte & Hwi & Hdc & Hnr & Hrc
          & Hei & Hri & Hgi) Hnz.
  destruct Hsz as (w & h & -> & _).
  destruct Htu as (? & -> & _), Htp as (? & -> & _), Hrh as (? & -> & _),
    Hta as (? & -> & _), Hpr as (? & -> & _), Hte as (? & -> & _),
    Hwi as (? & -> & _), Hdc as (? & -> & _), Hnr as (? & -> & _),
    Hrc as (? & -> & _), Hei as (? & -> & _), Hri as (? & -> & _),
    Hgi as (? & -> & _).
  destruct Hsd as [->|(s & -> & _)]; [reflexivity|].
  assert (Hseed : Z.eqb s 0 = false).
  { apply Z.eqb_neq. intros ->. apply Hnz. reflexivity. }
  unfold from_json, to_json, from_dict, init. simpl.
  unfold post_init; simpl. unfold arg; simpl. rewrite Hseed. reflexivity.
Qed.

Lemma json_roundtrip_witness : from_json (to_json default) = Ok default.
Proof.
  apply (json_roundtrip default).
  - exact default_in_range.
  - discriminate.
Defined.

(** *** The size invariant *)

(** C8, as stated, fails: [from_dict] validates nothing, and a document
    whose size holds non-positive integers gives a record with that
    size. *)
Lemma from_dict_keeps_nonpositive_size :
  exists p,
    from_dict [("size", VList [VInt 0; VInt (-5)])] = Ok p
    /\ size p = VTuple [VInt 0; VInt (-5)]
    /\ ~ positive_pair (size p).
Proof.
  eexists. split; [reflexivity|]. split; [reflexivity|].
  intros (w & h & E & Hw & _). simpl in E. inversion E. subst. lia.
Qed.

Lemma from_dict_size :
  forall (data : dict) (p : t),
    from_dict data = Ok p -> size p = coerce_size (arg data "size").
Proof.
  intros data p H. destruct (from_dict_unfold data) as [Hfd _].
  rewrite Hfd in H. unfold init in H.
  destruct (forallb is_field _); [|discriminate].
  inversion H; subst p; clear H. unfold post_init; simpl.
  rewrite arg_after_coercion. simpl.
  destruct (arg data "size"); reflexivity.
Qed.

(** C8, amended: construction with defaults gives the size
    [(1024, 1024)]; a record loaded by [from_dict] or [from_json] holds the
    document's size entry, a list being turned into the tuple of the same
    elements, or the default when the entry is missing.  Nothing checks
    the length, the sign or the type: the size is a 2-tuple of positive
    integers when the document's entry is missing or is a list or tuple of
    two positive integers. *)
Theorem size_of_constructed_records :
  size default = VTuple [VInt 1024; VInt 1024]
  /\ (forall data p, from_dict data = Ok p ->
        size p = coerce_size (arg data "size")
        /\ (dict_get "size" data = None
            \/ positive_pair (coerce_size (arg data "size")) ->
            positive_pair (size p)))
  /\ (forall j p, from_json j = Ok p ->
        exists data, Json.loads j = VDict data
                     /\ size p = coerce_size (arg data "size")).
Proof.
  split; [reflexivity|]. split.
  - intros data p H. pose proof (from_dict_size _ _ H) as Hs. split; [exact Hs|].
    rewrite Hs. intros [Hnone|Hpos]; [|exact Hpos].
    unfold arg. rewrite Hnone. simpl. exists 1024%Z, 1024%Z.
    split; [reflexivity|lia].
  - intros j p H. unfold from_json in H.
    destruct (Json.loads j) eqn:E; try discriminate.
    exists d. split; [reflexivity|]. apply from_dict_size. exact H.
Qed.

Lemma size_of_constructed_records_witness :
  exists p,
    from_dict [("size", VList [VInt 512; VInt 256])] = Ok p
    /\ positive_pair (size p).
Proof.
  eexists. split; [reflexivity|].
  apply (proj1 (proj2 size_of_constructed_records)
               [("size", VList [VInt 512; VInt 256])] _ eq_refl).
  right. exists 512%Z, 256%Z. split; [reflexivity|lia].
Defined.

(** [load_preset] stores the document's entries with [setattr]: the size of
    a preset that [save_preset] wrote comes back as a list. *)
Lemma load_preset_leaves_size_a_list :
  exists p,
    PresetManager.load_preset (Some (PresetManager.save_preset default)) = Ok p
    /\ size p = VList [VInt 1024; VInt 1024].
Proof. eexists. split; reflexivity. Qed.

(** A missing preset file gives the defaults. *)
Lemma load_preset_missing_file :
  PresetManager.load_preset None = Ok default.
Proof. reflexivity. Qed.

End ParamsSpec.

(** ** Preview canvas: the zoom level *)

Module CanvasSpec.
Import PreviewCanvas.

(** The scroll wheel keeps the zoom level within its bounds, whatever the
    level was. *)
Lemma wheelEvent_2d_in_bounds :
  forall (delta : Z) (c : canvas),
    mode c = Mode2D -> zoom_in_bounds (wheelEvent delta c).
Proof.
  intros delta c Hm. unfold zoom_in_bounds, wheelEvent. rewrite Hm. simpl. split.
  - apply Q.le_max_l.
  - apply Q.max_lub.
    + lra.
    + apply Q.le_min_l.
Qed.

Lemma wheelEvent_preserves_bounds :
  forall (delta : Z) (c : canvas),
    zoom_in_bounds c -> zoom_in_bounds (wheelEvent delta c).
Proof.
  intros delta c Hc. destruct (mode c) eqn:Hm.
  - apply wheelEvent_2d_in_bounds. exact Hm.
  - unfold wheelEvent. rewrite Hm. exact Hc.
Qed.

(** The keys other than [+] and [-] keep the bound too. *)
Lemma other_keys_preserve_bounds :
  forall (k : key) (c : canvas),
    k <> Key_Equal -> k <> Key_Plus -> k <> Key_Minus -> k <> Key_Underscore ->
    zoom_in_bounds c -> zoom_in_bounds (keyPressEvent k c).
Proof.
  intros k c H1 H2 H3 H4 Hc. destruct k; try contradiction; try exact Hc.
  unfold zoom_in_bounds; simpl. split; lra.
Qed.

(** C9: the [+] and [-] keys multiply the zoom level without clamping it.
    Twenty-five notches of the wheel bring the level from 1.0 to the upper
    bound 10.0; one press of [+] then gives 11.0.  From the initial state,
    twenty-five presses of [+] alone give [1.1^25 > 10], and twenty-two
    presses of [-] give [0.9^22 < 0.1]. *)
Theorem plus_minus_keys_leave_zoom_bounds :
  zoom_level (session (repeat (Wheel 120) 25)) == 10
  /\ zoom_level (session (repeat (Wheel 120) 25 ++ [KeyPress Key_Plus])) == 11
  /\ ~ zoom_in_bounds (session (repeat (Wheel 120) 25 ++ [KeyPress Key_Plus]))
  /\ 10 < zoom_level (session (repeat (KeyPress Key_Plus) 25))
  /\ zoom_level (session (repeat (KeyPress Key_Minus) 22)) < 0.1.
Proof.
  split; [vm_compute; reflexivity|].
  split; [vm_compute; reflexivity|].
  split; [|split; vm_compute; reflexivity].
  intros [_ H]. revert H. vm_compute. intros H. apply H. reflexivity.
Qed.

End CanvasSpec.

(** ** Texture generation *)

Module TextureSpec.
Import ImageUtils.

Lemma Qle_bool_false :
  forall a b : Q, b < a -> Qle_bool a b = false.
Proof.
  intros a b H. destruct (Qle_bool a b) eqn:E; [|reflexivity].
  apply Qle_bool_iff in E. lra.
Qed.

(** No pair of stops brackets an elevation below every stop. *)
Lemma color_of_below :
  forall (cmap : ramp) (h : Q) (current : rgb),
    Forall (fun s => h < fst s) cmap -> color_of cmap h current = current.
Proof.
  induction cmap as [|[s0 [[r0 g0] b0]] rest IH]; intros h current Hall;
    [reflexivity|].
  destruct rest as [|[s1 [[r1 g1] b1]] rest']; [reflexivity|].
  inversion Hall as [|? ? H0 Hrest]; subst. simpl in H0.
  cbn [color_of]. rewrite (Qle_bool_false _ _ H0). simpl andb. cbv iota.
  apply IH. exact Hrest.
Qed.

(** No pair of stops brackets an elevation above every stop. *)
Lemma color_of_above :
  forall (cmap : ramp) (h : Q) (current : rgb),
    Forall (fun s => fst s < h) cmap -> color_of cmap h current = current.
Proof.
  induction cmap as [|[s0 [[r0 g0] b0]] rest IH]; intros h current Hall;
    [reflexivity|].
  destruct rest as [|[s1 [[r1 g1] b1]] rest']; [reflexivity|].
  inversion Hall as [|? ? H0 Hrest]; subst.
  inversion Hrest as [|? ? H1 _]; subst. simpl in H1.
  cbn [color_of]. rewrite (Qle_bool_false _ _ H1), andb_false_r.
  apply IH. exact Hrest.
Qed.

(** The stops of every built-in ramp lie in [[0, 1]]. *)
Lemma ramp_stops_in_unit :
  forall colormap : string,
    Forall (fun s => 0 <= fst s /\ fst s <= 1) (select_ramp colormap).
Proof.
  intros colormap. unfold select_ramp.
  destruct (String.eqb colormap "desert");
    [|destruct (String.eqb colormap "grayscale")];
    repeat constructor; simpl; lra.
Qed.

Lemma color_of_out_of_range :
  forall (colormap : string) (h : Q),
    h < 0 \/ 1 < h -> color_of (select_ramp colormap) h (0, 0, 0)%Z = (0, 0, 0)%Z.
Proof.
  intros colormap h [Hlo|Hhi].
  - apply color_of_below.
    eapply Forall_impl; [|apply ramp_stops_in_unit]. simpl. intros s [H0 H1]. lra.
  - apply color_of_above.
    eapply Forall_impl; [|apply ramp_stops_in_unit]. simpl. intros s [H0 H1]. lra.
Qed.

(** C10: for every heightmap, every colormap name and every cell whose
    elevation lies strictly outside [[0, 1]], [generate_texture] returns a
    texture and its pixel at that cell is [(0, 0, 0)]: the elevation is
    neither rejected nor clamped. *)
Theorem generate_texture_out_of_range_black :
  forall (heightmap : list (list Q)) (colormap : string) (y x : nat) (h : Q),
    pixel heightmap y x = Some h ->
    h < 0 \/ 1 < h ->
    exists texture,
      generate_texture (Some heightmap) colormap = Some texture
      /\ pixel texture y x = Some (0, 0, 0)%Z.
Proof.
  intros heightmap colormap y x h Hpix Hout.
  eexists. split; [reflexivity|].
  unfold pixel in *. rewrite nth_error_map.
  destruct (nth_error heightmap y) as [row|]; [|discriminate]. simpl.
  rewrite nth_error_map, Hpix. simpl. f_equal.
  apply color_of_out_of_range. exact Hout.
Qed.

Lemma generate_texture_out_of_range_black_witness :
  exists texture,
    generate_texture (Some [[-0.5; 0.5]; [1.5; 0.2]]) "terrain" = Some texture
    /\ pixel texture 1 0 = Some (0, 0, 0)%Z.
Proof.
  apply (generate_texture_out_of_range_black
           [[-0.5; 0.5]; [1.5; 0.2]] "terrain" 1 0 1.5).
  - reflexivity.
  - right. reflexivity.
Defined.

(** An elevation inside the range is interpolated: 0.1 lies between the
    first two stops of the terrain ramp. *)
Example generate_texture_in_range :
  generate_texture (Some [[0.1]]) "terrain" = Some [[(19, 19, 139)%Z]].
Proof. vm_compute. reflexivity. Qed.

End TextureSpec.

(** ** The generator *)

Module EngineSpec.
Import Engine.

(** *** Comparisons and indexing *)

Lemma Qltb_true : forall a b : Q, Qltb a b = true <-> a < b.
Proof.
  intros a b. unfold Qltb. rewrite negb_true_iff. split; intros H.
  - destruct (Qlt_le_dec a b) as [Hlt|Hle]; [exact Hlt|].
    apply Qle_bool_iff in Hle. congruence.
  - destruct (Qle_bool b a) eqn:E; [|reflexivity].
    apply Qle_bool_iff in E. lra.
Qed.

Lemma Qltb_false : forall a b : Q, Qltb a b = false <-> b <= a.
Proof.
  intros a b. unfold Qltb. rewrite negb_false_iff. apply Qle_bool_iff.
Qed.

Lemma nth_map_seq :
  forall (A : Type) (w : nat) (g : nat -> A) (x : nat) (d : A),
    (x < w)%nat -> nth x (map g (seq 0 w)) d = g x.
Proof.
  intros A w g x d Hx.
  rewrite (nth_indep _ d (g 0%nat)) by (rewrite length_map, length_seq; exact Hx).
  rewrite (map_nth g (seq 0 w) 0%nat x). rewrite seq_nth by exact Hx. reflexivity.
Qed.

Lemma nth_tabulate :
  forall (A : Type) (h w : nat) (f : nat -> nat -> A) (y : nat),
    (y < h)%nat -> nth y (tabulate h w f) [] = map (f y) (seq 0 w).
Proof.
  intros A h w f y Hy. unfold tabulate.
  rewrite nth_map_seq by exact Hy. reflexivity.
Qed.

Lemma get_tabulate :
  forall (h w : nat) (f : nat -> nat -> Q) (y x : nat),
    (y < h)%nat -> (x < w)%nat -> get (tabulate h w f) y x = f y x.
Proof.
  intros h w f y x Hy Hx. unfold get.
  rewrite nth_tabulate by exact Hy. apply nth_map_seq. exact Hx.
Qed.

Lemma iget_tabulate :
  forall (h w : nat) (f : nat -> nat -> Z) (y x : nat),
    (y < h)%nat -> (x < w)%nat -> iget (tabulate h w f) y x = f y x.
Proof.
  intros h w f y x Hy Hx. unfold iget.
  rewrite nth_tabulate by exact Hy. apply nth_map_seq. exact Hx.
Qed.

Lemma tabulate_has_shape :
  forall (A : Type) (h w : nat) (f : nat -> nat -> A),
    has_shape h w (tabulate h w f).
Proof.
  intros A h w f. unfold has_shape, tabulate. split.
  - rewrite length_map, length_seq. reflexivity.
  - apply Forall_forall. intros row Hrow. apply in_map_iff in Hrow.
    destruct Hrow as (y & <- & _). rewrite length_map, length_seq. reflexivity.
Qed.

Lemma nth_zip_with :
  forall (A B C : Type) (f : A -> B -> C) (l : list A) (m : list B)
         (n : nat) (da : A) (db : B) (dc : C),
    (n < List.length l)%nat -> (n < List.length m)%nat ->
    nth n (zip_with f l m) dc = f (nth n l da) (nth n m db).
Proof.
  intros A B C f l. induction l as [|a l IH]; intros m n da db dc Hl Hm.
  - simpl in Hl. lia.
  - destruct m as [|b m]; [simpl in Hm; lia|].
    destruct n as [|n]; [reflexivity|].
    simpl. apply IH; simpl in *; lia.
Qed.

Lemma length_zip_with :
  forall (A B C : Type) (f : A -> B -> C) (l : list A) (m : list B),
    List.length (zip_with f l m) = Nat.min (List.length l) (List.length m).
Proof.
  intros A B C f l. induction l as [|a l IH]; intros [|b m]; simpl; auto.
Qed.

Lemma row_length :
  forall (A : Type) (h w : nat) (a : list (list A)) (y : nat),
    has_shape h w a -> (y < h)%nat -> List.length (nth y a []) = w.
Proof.
  intros A h w a y [Hlen Hrows] Hy.
  rewrite Forall_forall in Hrows. apply Hrows. apply nth_In. lia.
Qed.

Lemma get_amap2 :
  forall (f : Q -> Q -> Q) (a b : arr) (h w y x : nat),
    has_shape h w a -> has_shape h w b -> (y < h)%nat -> (x < w)%nat ->
    get (amap2 f a b) y x = f (get a y x) (get b y x).
Proof.
  intros f a b h w y x Ha Hb Hy Hx. unfold get, amap2.
  rewrite (nth_zip_with _ _ _ (zip_with f) a b y [] [] [])
    by (destruct Ha, Hb; lia).
  apply nth_zip_with.
  - rewrite (row_length _ h w a y Ha Hy). exact Hx.
  - rewrite (row_length _ h w b y Hb Hy). exact Hx.
Qed.

Lemma get_amap :
  forall (f : Q -> Q) (a : arr) (h w y x : nat),
    has_shape h w a -> (y < h)%nat -> (x < w)%nat ->
    get (amap f a) y x = f (get a y x).
Proof.
  intros f a h w y x Ha Hy Hx. unfold get, amap.
  rewrite (nth_indep _ [] (map f [])) by (rewrite length_map; destruct Ha; lia).
  rewrite (map_nth (map f) a [] y).
  rewrite (nth_indep _ 0 (f 0))
    by (rewrite length_map, (row_length _ h w a y Ha Hy); exact Hx).
  apply map_nth.
Qed.

Lemma amap_has_shape :
  forall (f : Q -> Q) (a : arr) (h w : nat),
    has_shape h w a -> has_shape h w (amap f a).
Proof.
  intros f a h w [Hlen Hrows]. unfold has_shape, amap. split.
  - rewrite length_map. exact Hlen.
  - apply Forall_forall. intros row Hrow. apply in_map_iff in Hrow.
    destruct Hrow as (r & <- & Hr). rewrite length_map.
    rewrite Forall_forall in Hrows. apply Hrows. exact Hr.
Qed.

Lemma amap2_has_shape :
  forall (f : Q -> Q -> Q) (a b : arr) (h w : nat),
    has_shape h w a -> has_shape h w b -> has_shape h w (amap2 f a b).
Proof.
  intros f a. unfold has_shape, amap2.
  induction a as [|ra a IH]; intros b h w [Ha Hra] [Hb Hrb].
  - simpl in *. split; [exact Ha|constructor].
  - destruct b as [|rb b]; [simpl in *; lia|].
    inversion Hra as [|? ? Hr1 Hra']; subst.
    inversion Hrb as [|? ? Hr2 Hrb']; subst.
    assert (Hb' : List.length b = List.length a) by (simpl in *; lia).
    destruct (IH b (List.length a) (List.length ra) (conj eq_refl Hra')
                (conj Hb' Hrb')) as [Hlen Hrows].
    simpl. split; [rewrite Hlen; reflexivity|].
    constructor; [|exact Hrows].
    rewrite length_zip_with. lia.
Qed.

Lemma shape_of_has_shape :
  forall (A : Type) (h w : nat) (a : list (list A)),
    has_shape h w a -> (0 < h)%nat -> shape a = (h, w).
Proof.
  intros A h w a [Hlen Hrows] Hh. unfold shape. rewrite Hlen. f_equal.
  destruct a as [|row a]; [simpl in Hlen; lia|].
  simpl. inversion Hrows as [|? ? Hrow _]. exact Hrow.
Qed.

Lemma full_has_shape :
  forall (h w : nat) (v : Q), has_shape h w (full (h, w) v).
Proof.
  intros h w v. unfold has_shape, full; simpl. split.
  - apply repeat_length.
  - apply Forall_forall. intros row Hrow. apply repeat_spec in Hrow. subst row.
    apply repeat_length.
Qed.

(** *** Post-processing: the coastal mask *)

(** On a 100 x 100 map in the coastal regime the mask is 0.1 within 5
    cells of the border, 0.3 from 5 to 9 cells, and 1 from 10 cells on. *)
Lemma coastal_cell_100 :
  forall (d : Q) (y x : nat),
    d < 0.3 -> (y < 100)%nat -> (x < 100)%nat ->
    let dist := Nat.min (Nat.min x (99 - x)) (Nat.min y (99 - y)) in
    coastal_cell 100 100 d y x
    = if (dist <? 5)%nat then 0.1 else if (dist <? 10)%nat then 0.3 else 1.
Proof.
  intros d y x Hd Hy Hx dist. unfold coastal_cell.
  apply Qltb_true in Hd. rewrite Hd.
  set (dz := Z.min (Z.min (Z.of_nat x) (Z.of_nat 100 - 1 - Z.of_nat x))
                   (Z.min (Z.of_nat y) (Z.of_nat 100 - 1 - Z.of_nat y))).
  assert (Hdz : dz = Z.of_nat dist) by (unfold dz, dist; lia).
  rewrite Hdz. clear dz Hdz.
  assert (H1 : Qltb (inject_Z (Z.of_nat dist)
                     / inject_Z (Z.min (Z.of_nat 100) (Z.of_nat 100)) * 2) 0.1
               = (dist <? 5)%nat).
  { destruct (Nat.ltb_spec dist 5) as [H|H].
    - apply Qltb_true. unfold Qlt; simpl. lia.
    - apply Qltb_false. unfold Qle; simpl. lia. }
  assert (H2 : Qltb (inject_Z (Z.of_nat dist)
                     / inject_Z (Z.min (Z.of_nat 100) (Z.of_nat 100)) * 2) 0.2
               = (dist <? 10)%nat).
  { destruct (Nat.ltb_spec dist 10) as [H|H].
    - apply Qltb_true. unfold Qlt; simpl. lia.
    - apply Qltb_false. unfold Qle; simpl. lia. }
  rewrite H1, H2. reflexivity.
Qed.

Lemma coast_adjust_coastal :
  forall (heightmap : arr) (p : params) (h w y x : nat),
    has_shape h w heightmap -> (0 < h)%nat ->
    distance_to_coast p < 0.3 -> (y < h)%nat -> (x < w)%nat ->
    get (coast_adjust heightmap p) y x
    = Qmax (get heightmap y x) 0
      * (0.3 + coastal_cell h w (distance_to_coast p) y x * 0.7).
Proof.
  intros heightmap p h w y x Hs Hh Hd Hy Hx. unfold coast_adjust.
  apply Qltb_true in Hd. rewrite Hd.
  pose proof (amap_has_shape (fun v => Qmax v 0) heightmap h w Hs) as Hs'.
  rewrite (shape_of_has_shape _ h w _ Hs' Hh). unfold _create_coastal_mask. simpl.
  rewrite (get_amap2 _ _ _ h w y x Hs' (tabulate_has_shape _ h w _) Hy Hx).
  rewrite (get_amap _ _ h w y x Hs Hy Hx).
  rewrite get_tabulate by assumption. reflexivity.
Qed.

Lemma coast_adjust_has_shape :
  forall (heightmap : arr) (p : params) (h w : nat),
    has_shape h w heightmap -> (0 < h)%nat ->
    has_shape h w (coast_adjust heightmap p).
Proof.
  intros heightmap p h w Hs Hh. unfold coast_adjust.
  pose proof (amap_has_shape (fun v => Qmax v 0) heightmap h w Hs) as Hs'.
  destruct (Qltb (distance_to_coast p) 0.3); [|exact Hs'].
  rewrite (shape_of_has_shape _ h w _ Hs' Hh). unfold _create_coastal_mask.
  apply amap2_has_shape; [exact Hs'|apply tabulate_has_shape].
Qed.

Section Coast.
Context {L : NumLib}.

(** C7: on a 100 x 100 heightmap, [post_process] is the detail noise and
    the final rescale applied to the heightmap as its steps 1 and 2 leave
    it.  With [distance_to_coast = 0.1], in that field every cell on the
    border of the map has mask value 0.1 and is the (non-negative part of
    the) elevation multiplied by [0.3 + 0.1 * 0.7 = 0.37], and every cell
    at least 10 cells from the border has mask value 1 and keeps its
    elevation.  With [distance_to_coast = 0.9] the elevations are not
    attenuated, and the mask of any shape is 1 in every cell. *)
Theorem coastal_masking_boundary :
  forall (heightmap : arr) (p : params),
    has_shape 100 100 heightmap ->
    (forall w : world,
       post_process heightmap p w
       = bind (_perlin_noise_2d (100, 100)%nat 0.02 2 0.5)
              (fun detail_noise =>
                 lift (rescale (amap2 (fun h d => h * 0.95 + d * 0.05)
                                      (coast_adjust heightmap p) detail_noise)))
              w)
    /\ (distance_to_coast p == 0.1 ->
        forall y x : nat, (y < 100)%nat -> (x < 100)%nat ->
          get (coast_adjust heightmap p) y x
          == Qmax (get heightmap y x) 0
             * (0.3 + get (_create_coastal_mask (100, 100)%nat (distance_to_coast p))
                          y x * 0.7)
          /\ ((x = 0 \/ x = 99 \/ y = 0 \/ y = 99)%nat ->
              get (_create_coastal_mask (100, 100)%nat (distance_to_coast p)) y x = 0.1
              /\ get (coast_adjust heightmap p) y x == 0.37 * Qmax (get heightmap y x) 0)
          /\ ((10 <= x <= 89)%nat /\ (10 <= y <= 89)%nat ->
              get (_create_coastal_mask (100, 100)%nat (distance_to_coast p)) y x = 1
              /\ get (coast_adjust heightmap p) y x == Qmax (get heightmap y x) 0))
    /\ (distance_to_coast p == 0.9 ->
        coast_adjust heightmap p = amap (fun v => Qmax v 0) heightmap
        /\ forall h w y x : nat, (y < h)%nat -> (x < w)%nat ->
             get (_create_coastal_mask (h, w) (distance_to_coast p)) y x == 1).
Proof.
  intros heightmap p Hs. split; [|split].
  - intros w. unfold post_process, detailed_field.
    rewrite (shape_of_has_shape _ 100 100 _
               (coast_adjust_has_shape heightmap p 100 100 Hs ltac:(lia))
               ltac:(lia)).
    unfold bind, ret.
    destruct (_perlin_noise_2d (100, 100)%nat 0.02 2 0.5 w) as [[dn w1]|e];
      reflexivity.
  - intros Hd y x Hy Hx.
    assert (Hlt : distance_to_coast p < 0.3) by (rewrite Hd; reflexivity).
    pose proof (coastal_cell_100 (distance_to_coast p) y x Hlt Hy Hx) as Hc.
    cbv zeta in Hc.
    pose proof (coast_adjust_coastal heightmap p 100 100 y x Hs
                  ltac:(lia) Hlt Hy Hx) as Ha.
    unfold _create_coastal_mask; simpl. rewrite get_tabulate by assumption.
    split; [rewrite Ha; reflexivity|]. split.
    + intros Hedge.
      assert (Hdist : (Nat.min (Nat.min x (99 - x)) (Nat.min y (99 - y)) <? 5)%nat
                      = true) by (apply Nat.ltb_lt; lia).
      rewrite Hdist in Hc. split; [exact Hc|]. rewrite Ha, Hc. ring.
    + intros [Hxi Hyi].
      assert (H5 : (Nat.min (Nat.min x (99 - x)) (Nat.min y (99 - y)) <? 5)%nat
                   = false) by (apply Nat.ltb_ge; lia).
      assert (H10 : (Nat.min (Nat.min x (99 - x)) (Nat.min y (99 - y)) <? 10)%nat
                    = false) by (apply Nat.ltb_ge; lia).
      rewrite H5, H10 in Hc. split; [exact Hc|]. rewrite Ha, Hc. ring.
  - intros Hd.
    assert (Hge : Qltb (distance_to_coast p) 0.3 = false).
    { apply Qltb_false. rewrite Hd. discriminate. }
    split.
    + unfold coast_adjust. rewrite Hge. reflexivity.
    + intros h w y x Hy Hx. unfold _create_coastal_mask; simpl.
      rewrite get_tabulate by assumption. unfold coastal_cell. rewrite Hge.
      destruct (Qltb 0.7 (distance_to_coast p)); reflexivity.
Qed.

End Coast.

Lemma coastal_masking_boundary_witness :
  get (_create_coastal_mask (100, 100)%nat 0.1) 0 0 = 0.1
  /\ get (_create_coastal_mask (100, 100)%nat 0.1) 50 50 = 1.
Proof.
  pose (p := mkParams (100, 100)%Z None 0.7 "convergent" 0.5 0.7 0.6 0.4 0.3
                      0.1 4%Z 0.6 10%Z 0.8 0.3).
  pose proof (@coastal_masking_boundary TestLib.lib (full (100, 100)%nat 0.5) p
                (full_has_shape 100 100 0.5)) as (_ & H & _).
  split.
  - apply (H (Qeq_refl _) 0%nat 0%nat); [lia|lia|lia].
  - apply (H (Qeq_refl _) 50%nat 50%nat); [lia|lia|lia].
Defined.

(** *** Erosion: the guards of the sub-stages *)

(** C6: in a pass, with [precipitation = 0] or [river_intensity = 0] the
    hydraulic sub-stage returns the heightmap it was given, and with
    [wind_intensity = 0] or [precipitation >= 0.4] so does the wind
    sub-stage; the pass is then the composition of the other sub-stages. *)
Theorem erosion_guards :
  forall (L : NumLib) (p : params) (climate_map eroded : arr),
    (precipitation p == 0 \/ river_intensity p == 0 ->
     hydraulic_step p climate_map eroded = Ok eroded
     /\ erosion_pass p climate_map eroded
        = rbind (thermal_step p eroded) (wind_step p))
    /\ (wind_intensity p == 0 \/ 0.4 <= precipitation p ->
        wind_step p eroded = Ok eroded
        /\ erosion_pass p climate_map eroded
           = rbind (hydraulic_step p climate_map eroded) (thermal_step p)).
Proof.
  intros L p climate_map eroded. split.
  - intros H.
    assert (Hg : Qltb 0.1 (precipitation p) && Qltb 0.1 (river_intensity p) = false).
    { apply andb_false_iff.
      destruct H as [H|H]; [left|right]; apply Qltb_false; rewrite H; discriminate. }
    assert (Hs : hydraulic_step p climate_map eroded = Ok eroded)
      by (unfold hydraulic_step; rewrite Hg; reflexivity).
    split; [exact Hs|]. unfold erosion_pass. rewrite Hs. reflexivity.
  - intros H.
    assert (Hg : forall e, wind_step p e = Ok e).
    { intros e. unfold wind_step.
      replace (Qltb 0.3 (wind_intensity p) && Qltb (precipitation p) 0.4)
        with false; [reflexivity|].
      symmetry. apply andb_false_iff. destruct H as [H|H]; [left|right].
      - apply Qltb_false. rewrite H. discriminate.
      - apply Qltb_false. exact H. }
    split; [apply Hg|]. unfold erosion_pass.
    destruct (hydraulic_step p climate_map eroded) as [e1|]; [|reflexivity]. simpl.
    destruct (thermal_step p e1) as [e2|]; [|reflexivity]. simpl. apply Hg.
Qed.

(** *** Rescaling to the unit interval *)

Lemma concat_amap :
  forall (f : Q -> Q) (a : arr), List.concat (amap f a) = map f (List.concat a).
Proof.
  intros f a. unfold amap. symmetry. apply concat_map.
Qed.

Lemma fold_min_le :
  forall (vs : list Q) (acc : Q), fold_left Qmin vs acc <= acc.
Proof.
  induction vs as [|v vs IH]; intros acc; simpl.
  - apply Qle_refl.
  - eapply Qle_trans; [apply IH|]. apply Q.le_min_l.
Qed.

Lemma fold_max_ge :
  forall (vs : list Q) (acc : Q), acc <= fold_left Qmax vs acc.
Proof.
  induction vs as [|v vs IH]; intros acc; simpl.
  - apply Qle_refl.
  - eapply Qle_trans; [|apply IH]. apply Q.le_max_l.
Qed.

Lemma fold_min_mono :
  forall f : Q -> Q,
    Proper (Qeq ==> Qeq) f -> Proper (Qle ==> Qle) f ->
    forall (vs : list Q) (v acc : Q),
      acc == f v -> fold_left Qmin (map f vs) acc == f (fold_left Qmin vs v).
Proof.
  intros f Heq Hle. induction vs as [|a vs IH]; intros v acc Hacc; simpl.
  - exact Hacc.
  - apply IH. rewrite Hacc. apply Q.min_mono; assumption.
Qed.

Lemma fold_max_mono :
  forall f : Q -> Q,
    Proper (Qeq ==> Qeq) f -> Proper (Qle ==> Qle) f ->
    forall (vs : list Q) (v acc : Q),
      acc == f v -> fold_left Qmax (map f vs) acc == f (fold_left Qmax vs v).
Proof.
  intros f Heq Hle. induction vs as [|a vs IH]; intros v acc Hacc; simpl.
  - exact Hacc.
  - apply IH. rewrite Hacc. apply Q.max_mono; assumption.
Qed.

Lemma np_min_le_np_max :
  forall (a : arr) (mn mx : Q), np_min a = Ok mn -> np_max a = Ok mx -> mn <= mx.
Proof.
  intros a mn mx. unfold np_min, np_max.
  destruct (List.concat a) as [|v vs]; [discriminate|].
  intros Hmn Hmx. inversion Hmn; inversion Hmx; subst.
  eapply Qle_trans; [apply fold_min_le|apply fold_max_ge].
Qed.

(** The rescaling map is monotone. *)
Lemma rescale_map_proper :
  forall mn d : Q, Proper (Qeq ==> Qeq) (fun v => (v - mn) / d).
Proof.
  intros mn d v v' H. rewrite H. reflexivity.
Qed.

Lemma rescale_map_monotone :
  forall mn d : Q, 0 < d -> Proper (Qle ==> Qle) (fun v => (v - mn) / d).
Proof.
  intros mn d Hd v v' H. unfold Qdiv. apply Qmult_le_compat_r.
  - lra.
  - apply Qinv_le_0_compat. lra.
Qed.

Lemma np_min_amap :
  forall g : Q -> Q,
    Proper (Qeq ==> Qeq) g -> Proper (Qle ==> Qle) g ->
    forall (a : arr) (mn : Q),
      np_min a = Ok mn -> exists r, np_min (amap g a) = Ok r /\ r == g mn.
Proof.
  intros g Heq Hle a mn. unfold np_min. rewrite concat_amap.
  destruct (List.concat a) as [|v vs]; [discriminate|].
  intros H. inversion H as [Hmn]. simpl map. eexists. split; [reflexivity|].
  apply fold_min_mono; try assumption. reflexivity.
Qed.

Lemma np_max_amap :
  forall g : Q -> Q,
    Proper (Qeq ==> Qeq) g -> Proper (Qle ==> Qle) g ->
    forall (a : arr) (mx : Q),
      np_max a = Ok mx -> exists r, np_max (amap g a) = Ok r /\ r == g mx.
Proof.
  intros g Heq Hle a mx. unfold np_max. rewrite concat_amap.
  destruct (List.concat a) as [|v vs]; [discriminate|].
  intros H. inversion H as [Hmx]. simpl map. eexists. split; [reflexivity|].
  apply fold_max_mono; try assumption. reflexivity.
Qed.

(** Every cell lies between the minimum and the maximum. *)
Lemma fold_min_lower_bound :
  forall (vs : list Q) (v u : Q),
    In u (v :: vs) -> fold_left Qmin vs v <= u.
Proof.
  induction vs as [|a vs IH]; intros v u Hin; simpl.
  - destruct Hin as [<-|[]]. apply Qle_refl.
  - destruct Hin as [<-|[<-|Hin]].
    + eapply Qle_trans; [apply fold_min_le|apply Q.le_min_l].
    + eapply Qle_trans; [apply fold_min_le|apply Q.le_min_r].
    + apply IH. right. exact Hin.
Qed.

Lemma fold_max_upper_bound :
  forall (vs : list Q) (v u : Q),
    In u (v :: vs) -> u <= fold_left Qmax vs v.
Proof.
  induction vs as [|a vs IH]; intros v u Hin; simpl.
  - destruct Hin as [<-|[]]. apply Qle_refl.
  - destruct Hin as [<-|[<-|Hin]].
    + eapply Qle_trans; [apply Q.le_max_l|apply fold_max_ge].
    + eapply Qle_trans; [apply Q.le_max_r|apply fold_max_ge].
    + apply IH. right. exact Hin.
Qed.

Lemma np_min_lower_bound :
  forall (a : arr) (mn u : Q),
    np_min a = Ok mn -> In u (List.concat a) -> mn <= u.
Proof.
  intros a mn u H Hin. unfold np_min in H.
  destruct (List.concat a) as [|v vs]; [discriminate|].
  inversion H; subst. apply fold_min_lower_bound. exact Hin.
Qed.

Lemma np_max_upper_bound :
  forall (a : arr) (mx u : Q),
    np_max a = Ok mx -> In u (List.concat a) -> u <= mx.
Proof.
  intros a mx u H Hin. unfold np_max in H.
  destruct (List.concat a) as [|v vs]; [discriminate|].
  inversion H; subst. apply fold_max_upper_bound. exact Hin.
Qed.



(** *** The tectonic base is scaled, not rescaled *)






Section Stages.
Context {L : NumLib}.






End Stages.

(** *** Regions: the Voronoi partition *)

Section Regions.
Context {L : NumLib}.

Lemma foldM_pure :
  forall (A B : Type) (f : B -> A -> M B) (g : B -> A -> B),
    (forall b a w, f b a w = Ok (g b a, w)) ->
    forall (l : list A) (b : B) (w : world),
      foldM f l b w = Ok (fold_left g l b, w).
Proof.
  intros A B f g H. induction l as [|a l IH]; intros b w; simpl.
  - reflexivity.
  - unfold bind. rewrite H. apply IH.
Qed.

Lemma foldM_invariant :
  forall (A B : Type) (f : B -> A -> M B) (P : B -> Prop) (l : list A),
    (forall b a w b' w', In a l -> P b -> f b a w = Ok (b', w') -> P b') ->
    forall (b b' : B) (w w' : world),
      P b -> foldM f l b w = Ok (b', w') -> P b'.
Proof.
  intros A B f P. induction l as [|a l IH]; intros Hstep b b' w w' Hb H; simpl in H.
  - unfold ret in H. inversion H; subst. exact Hb.
  - unfold bind in H. destruct (f b a w) as [[b1 w1]|] eqn:E; [|discriminate].
    eapply IH; [|eapply Hstep; [left; reflexivity|exact Hb|exact E]|exact H].
    intros b0 a0 w0 b0' w0' Hin. apply Hstep. right. exact Hin.
Qed.

Lemma claim_region_unperturbed :
  forall (shp : nat * nat) (contrast : Q) (st : rstate) (rc : nat * (Z * Z))
         (w : world),
    contrast <= 0.3 ->
    claim_region shp contrast st rc w = Ok (voronoi_step shp st rc, w).
Proof.
  intros [height width] contrast [rm rd] [region_id [cx cy]] w Hc.
  apply Qltb_false in Hc. unfold claim_region. rewrite Hc. reflexivity.
Qed.

(** Whatever the perturbation, an iteration writes the identifier of its
    region or keeps the cell. *)
Lemma claim_region_cells :
  forall (height width : nat) (contrast : Q) (st st' : rstate)
         (region_id : nat) (c : Z * Z) (w w' : world),
    claim_region (height, width) contrast st (region_id, c) w = Ok (st', w') ->
    has_shape height width (fst st')
    /\ forall y x, (y < height)%nat -> (x < width)%nat ->
         owner st' y x = Z.of_nat region_id \/ owner st' y x = owner st y x.
Proof.
  intros height width contrast [rm rd] st' region_id [cx cy] w w' H.
  unfold claim_region, bind in H.
  match type of H with
  | match ?m w with _ => _ end = _ => destruct (m w) as [[pert w1]|]; [|discriminate]
  end.
  unfold ret in H. inversion H; subst; clear H. simpl. split.
  - apply tabulate_has_shape.
  - intros y x Hy Hx. unfold owner; simpl. rewrite iget_tabulate by assumption.
    match goal with |- context [if ?b then _ else _] => destruct b end; auto.
Qed.

Lemma best_voronoi_step :
  forall (shp : nat * nat) (st : rstate) (rc : nat * (Z * Z)) (y x : nat),
    (y < fst shp)%nat -> (x < snd shp)%nat ->
    best (voronoi_step shp st rc) y x
    = if closer (fsqrt (inject_Z (d2 (snd rc) y x))) (best st y x)
      then Some (fsqrt (inject_Z (d2 (snd rc) y x))) else best st y x.
Proof.
  intros shp st rc y x Hy Hx. unfold best at 1, voronoi_step; simpl.
  rewrite nth_tabulate by exact Hy. apply nth_map_seq. exact Hx.
Qed.

Lemma owner_voronoi_step :
  forall (shp : nat * nat) (st : rstate) (rc : nat * (Z * Z)) (y x : nat),
    (y < fst shp)%nat -> (x < snd shp)%nat ->
    owner (voronoi_step shp st rc) y x
    = if closer (fsqrt (inject_Z (d2 (snd rc) y x))) (best st y x)
      then Z.of_nat (fst rc) else owner st y x.
Proof.
  intros shp st rc y x Hy Hx. unfold owner at 1, voronoi_step; simpl.
  apply iget_tabulate; assumption.
Qed.

Lemma tracks_step :
  forall (shp : nat * nat) (S : Z * Z -> Prop) (st : rstate)
         (rc : nat * (Z * Z)) (y x : nat),
    (y < fst shp)%nat -> (x < snd shp)%nat ->
    tracks S st y x ->
    tracks (fun c => S c \/ c = snd rc) (voronoi_step shp st rc) y x.
Proof.
  intros shp S st rc y x Hy Hx Ht. unfold tracks.
  rewrite best_voronoi_step by assumption.
  destruct (closer _ (best st y x)).
  - right. exists (snd rc). split; [right; reflexivity|reflexivity].
  - destruct Ht as [Hn|(c & Hc & Hb)]; [left; exact Hn|].
    right. exists c. split; [left; exact Hc|exact Hb].
Qed.

Hypothesis fsqrt_zero_least :
  forall n : Z, (0 < n)%Z -> fsqrt (inject_Z 0) < fsqrt (inject_Z n).

Lemma d2_own_cell :
  forall (shp : nat * nat) (c : Z * Z),
    inside shp c -> d2 c (Z.to_nat (snd c)) (Z.to_nat (fst c)) = 0%Z.
Proof.
  intros shp [cx cy] [[Hx _] [Hy _]]. unfold d2; simpl in *.
  rewrite !Z2Nat.id by assumption. lia.
Qed.

Lemma d2_other_cell :
  forall (shp : nat * nat) (c c' : Z * Z),
    inside shp c -> c' <> c ->
    (0 < d2 c' (Z.to_nat (snd c)) (Z.to_nat (fst c)))%Z.
Proof.
  intros shp [cx cy] [cx' cy'] [[Hx _] [Hy _]] Hne. unfold d2; simpl in *.
  rewrite !Z2Nat.id by assumption.
  assert (Hd : cx' <> cx \/ cy' <> cy).
  { destruct (Z.eq_dec cx' cx) as [->|]; [|left; assumption].
    destruct (Z.eq_dec cy' cy) as [->|]; [|right; assumption].
    exfalso. apply Hne. reflexivity. }
  nia.
Qed.

(** A centre that sits on a cell no earlier centre sits on takes its own
    cell, at distance [sqrt 0]. *)
Lemma own_cell_claimed :
  forall (shp : nat * nat) (S : Z * Z -> Prop) (st : rstate) (i : nat) (c : Z * Z),
    inside shp c -> (forall c', S c' -> c' <> c) ->
    tracks S st (Z.to_nat (snd c)) (Z.to_nat (fst c)) ->
    owner (voronoi_step shp st (i, c)) (Z.to_nat (snd c)) (Z.to_nat (fst c))
    = Z.of_nat i
    /\ best (voronoi_step shp st (i, c)) (Z.to_nat (snd c)) (Z.to_nat (fst c))
       = Some (fsqrt (inject_Z 0)).
Proof.
  intros shp S st i c Hin Hne Ht.
  assert (Hy : (Z.to_nat (snd c) < fst shp)%nat) by (destruct Hin; lia).
  assert (Hx : (Z.to_nat (fst c) < snd shp)%nat) by (destruct Hin; lia).
  rewrite owner_voronoi_step, best_voronoi_step by assumption. simpl snd.
  rewrite (d2_own_cell shp c Hin).
  assert (Hcl : closer (fsqrt (inject_Z 0))
                       (best st (Z.to_nat (snd c)) (Z.to_nat (fst c))) = true).
  { destruct Ht as [-> | (c' & Hc' & ->)]; [reflexivity |]. simpl.
    apply Qltb_true. apply fsqrt_zero_least.
    apply (d2_other_cell shp c c' Hin). apply Hne. exact Hc'. }
  rewrite Hcl. split; reflexivity.
Qed.

(** No later centre takes the cell away. *)
Lemma own_cell_kept :
  forall (shp : nat * nat) (c : Z * Z) (v : Z) (l : list (nat * (Z * Z)))
         (st : rstate),
    inside shp c ->
    (forall rc, In rc l -> snd rc <> c) ->
    owner st (Z.to_nat (snd c)) (Z.to_nat (fst c)) = v ->
    best st (Z.to_nat (snd c)) (Z.to_nat (fst c)) = Some (fsqrt (inject_Z 0)) ->
    owner (fold_left (voronoi_step shp) l st) (Z.to_nat (snd c)) (Z.to_nat (fst c))
    = v.
Proof.
  intros shp c v l. induction l as [|rc l IH]; intros st Hin Hne Ho Hb; simpl.
  - exact Ho.
  - assert (Hy : (Z.to_nat (snd c) < fst shp)%nat) by (destruct Hin; lia).
    assert (Hx : (Z.to_nat (fst c) < snd shp)%nat) by (destruct Hin; lia).
    assert (Hcl : closer (fsqrt (inject_Z (d2 (snd rc) (Z.to_nat (snd c))
                                               (Z.to_nat (fst c)))))
                         (best st (Z.to_nat (snd c)) (Z.to_nat (fst c))) = false).
    { rewrite Hb. simpl. apply Qltb_false. apply Qlt_le_weak.
      apply fsqrt_zero_least. apply (d2_other_cell shp c (snd rc) Hin).
      apply Hne. left. reflexivity. }
    apply IH.
    + exact Hin.
    + intros rc' H'. apply Hne. right. exact H'.
    + rewrite owner_voronoi_step by assumption. rewrite Hcl. exact Ho.
    + rewrite best_voronoi_step by assumption. rewrite Hcl. exact Hb.
Qed.

(** With pairwise distinct centres, the centre of index [i] that sits on a
    cell of the map owns that cell at the end of the loop. *)
Lemma voronoi_own_cell :
  forall (shp : nat * nat) (centers : list (Z * Z)) (k i : nat) (c : Z * Z)
         (S : Z * Z -> Prop) (st : rstate),
    NoDup centers -> nth_error centers i = Some c -> inside shp c ->
    (forall c', S c' -> c' <> c) ->
    tracks S st (Z.to_nat (snd c)) (Z.to_nat (fst c)) ->
    owner (fold_left (voronoi_step shp)
                     (combine (seq k (List.length centers)) centers) st)
          (Z.to_nat (snd c)) (Z.to_nat (fst c))
    = Z.of_nat (k + i).
Proof.
  intros shp centers. induction centers as [|a centers IH];
    intros k i c S st Hnd Hnth Hin HS Ht.
  - destruct i; discriminate.
  - inversion Hnd as [|? ? Hnotin Hnd']; subst. simpl.
    destruct i as [|i]; simpl in Hnth.
    + inversion Hnth; subst a.
      destruct (own_cell_claimed shp S st k c Hin HS Ht) as [Ho Hb].
      rewrite Nat.add_0_r. apply own_cell_kept; try assumption.
      intros rc Hrc Heq. apply Hnotin.
      destruct rc as [j c']. simpl in Heq. subst c'.
      eapply in_combine_r. exact Hrc.
    + replace (k + Datatypes.S i)%nat with (Datatypes.S k + i)%nat by lia.
      apply (IH (Datatypes.S k) i c (fun c' => S c' \/ c' = a)).
      * exact Hnd'.
      * exact Hnth.
      * exact Hin.
      * intros c' [Hc' | ->]; [apply HS; exact Hc' |].
        intros ->. apply Hnotin. eapply nth_error_In. exact Hnth.
      * assert (Hy : (Z.to_nat (snd c) < fst shp)%nat) by (destruct Hin; lia).
        assert (Hx : (Z.to_nat (fst c) < snd shp)%nat) by (destruct Hin; lia).
        apply (tracks_step shp S st (k, a) _ _ Hy Hx Ht).
Qed.

End Regions.

Section RegionValues.
Context {L : NumLib}.

Lemma foldM_length :
  forall (A C : Type) (f : list C -> A -> M (list C)),
    (forall b a w b' w', f b a w = Ok (b', w') ->
                         List.length b' = Datatypes.S (List.length b)) ->
    forall (l : list A) (b b' : list C) (w w' : world),
      foldM f l b w = Ok (b', w') ->
      List.length b' = (List.length l + List.length b)%nat.
Proof.
  intros A C f Hstep. induction l as [|a l IH]; intros b b' w w' H.
  - cbn [foldM] in H. unfold ret in H. inversion H; subst. reflexivity.
  - cbn [foldM] in H. unfold bind in H.
    destruct (f b a w) as [[b1 w1]|] eqn:E; [|discriminate].
    apply IH in H. apply Hstep in E. rewrite H, E. simpl. lia.
Qed.

Lemma place_centers_length :
  forall (width height n : Z) (w w' : world) (centers : list (Z * Z)),
    place_centers width height n w = Ok (centers, w') ->
    List.length centers = Z.to_nat n.
Proof.
  intros width height n w w' centers H. unfold place_centers in H.
  apply foldM_length in H.
  - rewrite H, length_seq. simpl. lia.
  - intros b a w0 b' w0' Hstep. unfold place_center, bind in Hstep.
    destruct (sample_center 100 width height _ b w0) as [[[c|] w1]|];
      try discriminate; unfold ret in Hstep; inversion Hstep; subst;
      rewrite length_app; simpl; lia.
Qed.

Lemma best_initial :
  forall (height width y x : nat),
    best (tabulate height width (fun _ _ => 0%Z),
          tabulate height width (fun _ _ => None)) y x = None.
Proof.
  intros height width y x. unfold best; simpl.
  destruct (Nat.lt_ge_cases y height) as [Hy|Hy].
  - rewrite nth_tabulate by exact Hy.
    destruct (Nat.lt_ge_cases x width) as [Hx|Hx].
    + apply nth_map_seq. exact Hx.
    + apply nth_overflow. rewrite length_map, length_seq. exact Hx.
  - rewrite (nth_overflow (tabulate height width (fun _ _ => None)))
      by (unfold tabulate; rewrite length_map, length_seq; exact Hy).
    destruct x; reflexivity.
Qed.

(** C3, amended: for [num_regions = N > 1], whenever [generate_regions]
    returns, the region map has the shape [(height, width)] and every
    value lies in [{0, ..., N-1}].  When moreover no perturbation is drawn
    ([region_contrast <= 0.3]) and the [N] centres are pairwise distinct
    cells of the map, every region owns the cell of its centre, so that the
    distinct values are exactly [{0, ..., N-1}]. *)
Theorem generate_regions_values :
  forall (p : params) (w w' : world) (region_map : iarr),
    (1 < num_regions p)%Z ->
    generate_regions p w = Ok (region_map, w') ->
    exists height width : nat,
      shape_of p = Ok (height, width)
      /\ has_shape height width region_map
      /\ (forall y x, (y < height)%nat -> (x < width)%nat ->
            (0 <= iget region_map y x < num_regions p)%Z)
      /\ (region_contrast p <= 0.3 ->
          (forall n : Z, (0 < n)%Z -> fsqrt (inject_Z 0) < fsqrt (inject_Z n)) ->
          forall (centers : list (Z * Z)) (w1 : world),
            place_centers (fst (size p)) (snd (size p)) (num_regions p) w
            = Ok (centers, w1) ->
            NoDup centers ->
            Forall (inside (height, width)) centers ->
            forall v : Z, (0 <= v < num_regions p)%Z ->
              exists y x, (y < height)%nat /\ (x < width)%nat
                          /\ iget region_map y x = v).
Proof.
  intros p w w' region_map Hn H. unfold generate_regions in H.
  unfold bind at 1 in H. unfold lift in H.
  destruct (shape_of p) as [[height width]|] eqn:Eshp; [|discriminate].
  assert (Hn1 : (num_regions p =? 1)%Z = false) by (apply Z.eqb_neq; lia).
  rewrite Hn1 in H. destruct (size p) as [sw sh] eqn:Esz.
  unfold bind at 1 in H.
  destruct (place_centers sw sh (num_regions p) w) as [[centers w1]|] eqn:Epc;
    [|discriminate].
  pose proof (place_centers_length _ _ _ _ _ _ Epc) as Hlen.
  unfold bind at 1 in H.
  match type of H with
  | match ?m with _ => _ end = _ => destruct m as [[st w2]|] eqn:Efold; [|discriminate]
  end.
  unfold ret in H. inversion H; subst region_map w2; clear H.
  exists height, width. split; [reflexivity|].
  assert (Hinv : has_shape height width (fst st)
                 /\ forall y x, (y < height)%nat -> (x < width)%nat ->
                      (0 <= owner st y x < num_regions p)%Z).
  { refine (foldM_invariant _ _ _
              (fun st => has_shape height width (fst st)
                         /\ forall y x, (y < height)%nat -> (x < width)%nat ->
                              (0 <= owner st y x < num_regions p)%Z)
              _ _ _ _ _ _ _ Efold).
    - intros [rm rd] [region_id c] w0 [rm' rd'] w0' Hin [_ Hrange] Hstep.
      pose proof (claim_region_cells _ _ _ _ _ _ _ _ _ Hstep) as [Hs Hcells].
      split; [exact Hs|]. intros y x Hy Hx.
      destruct (Hcells y x Hy Hx) as [-> | ->].
      + apply in_combine_l in Hin. apply in_seq in Hin. lia.
      + apply Hrange; assumption.
    - split; [apply tabulate_has_shape|].
      intros y x Hy Hx. unfold owner; simpl.
      rewrite iget_tabulate by assumption. lia. }
  destruct Hinv as [Hshape Hrange].
  split; [exact Hshape|]. split; [exact Hrange|].
  intros Hc Hsqrt centers' w1' Hpc Hnd Hins v Hv. simpl in Hpc.
  rewrite Epc in Hpc. inversion Hpc; subst centers' w1'; clear Hpc.
  rewrite (foldM_pure _ _ (claim_region (height, width) (region_contrast p))
             (voronoi_step (height, width))) in Efold
    by (intros; apply claim_region_unperturbed; exact Hc).
  inversion Efold; subst st; clear Efold.
  destruct (nth_error centers (Z.to_nat v)) as [c|] eqn:Ec.
  2:{ apply nth_error_None in Ec. lia. }
  assert (Hin : inside (height, width) c).
  { rewrite Forall_forall in Hins. apply Hins. eapply nth_error_In. exact Ec. }
  exists (Z.to_nat (snd c)), (Z.to_nat (fst c)).
  split; [destruct Hin; simpl in *; lia|].
  split; [destruct Hin; simpl in *; lia|].
  pose proof (voronoi_own_cell Hsqrt (height, width) centers 0 (Z.to_nat v) c
                (fun _ => False)
                (tabulate height width (fun _ _ => 0%Z),
                 tabulate height width (fun _ _ => None))
                Hnd Ec Hin (fun c' F => False_ind _ F)
                (or_introl (best_initial height width _ _))) as Hown.
  transitivity (Z.of_nat (0 + Z.to_nat v)); [exact Hown|simpl; lia].
Qed.

End RegionValues.

(** *** Regions on a 2 x 2 map

    On a 2 x 2 map the sampling window is [[0, 1)] on both axes: every
    candidate is the cell [(0, 0)].  The first centre takes it, every
    later one exhausts its 100 attempts and falls back to the grid, and
    the grid position of the fifth centre, [(0, 2)], lies outside the
    map.  This holds for every generator whose [randint] respects its
    bounds. *)

Section TinyMap.
Context {L : NumLib}.

Hypothesis randint_in_range :
  forall (rs : RandomState) (low high : Z),
    (low < high)%Z -> (low <= fst (rs_randint rs low high) < high)%Z.
Hypothesis fsqrt_zero : fsqrt (inject_Z 0) == 0.
Hypothesis fsqrt_zero_least :
  forall n : Z, (0 < n)%Z -> fsqrt (inject_Z 0) < fsqrt (inject_Z n).

Lemma np_randint_unit :
  forall (w : world) (rs : RandomState),
    rng w = Some rs ->
    exists rs', np_randint 0 1 w = Ok (0%Z, mkWorld (Some rs') (entropy w)).
Proof.
  intros w rs H. unfold np_randint. rewrite H. simpl.
  pose proof (randint_in_range rs 0 1 ltac:(lia)) as Hr.
  destruct (rs_randint rs 0 1) as [v rs']. simpl in Hr.
  exists rs'. replace v with 0%Z by lia. reflexivity.
Qed.

Lemma sample_center_first :
  forall (n : nat) (md : Q) (w : world) (rs : RandomState),
    rng w = Some rs ->
    exists rs',
      sample_center (Datatypes.S n) 2 2 md [] w
      = Ok (Some (0, 0)%Z, mkWorld (Some rs') (entropy w)).
Proof.
  intros n md w rs H. cbn [sample_center].
  change (2 / 4)%Z with 0%Z. change (3 * 2 / 4)%Z with 1%Z.
  destruct (np_randint_unit w rs H) as [rs1 E1].
  destruct (np_randint_unit (mkWorld (Some rs1) (entropy w)) rs1 eq_refl)
    as [rs2 E2].
  unfold bind. rewrite E1, E2. simpl. exists rs2. reflexivity.
Qed.

Lemma sample_center_exhausted :
  forall (n : nat) (md : Q) (centers : list (Z * Z)) (w : world) (rs : RandomState),
    rng w = Some rs -> In (0, 0)%Z centers -> fsqrt (inject_Z 0) < md ->
    exists rs',
      sample_center n 2 2 md centers w = Ok (None, mkWorld (Some rs') (entropy w)).
Proof.
  induction n as [|n IH]; intros md centers w rs H Hin Hmd.
  - exists rs. destruct w as [r e]. simpl in H. subst r. reflexivity.
  - cbn [sample_center].
    change (2 / 4)%Z with 0%Z. change (3 * 2 / 4)%Z with 1%Z.
    destruct (np_randint_unit w rs H) as [rs1 E1].
    destruct (np_randint_unit (mkWorld (Some rs1) (entropy w)) rs1 eq_refl)
      as [rs2 E2].
    unfold bind. rewrite E1, E2. simpl entropy.
    assert (Htc : too_close centers 0 0 md = true).
    { unfold too_close. apply existsb_exists. exists (0, 0)%Z.
      split; [exact Hin|]. apply Qltb_true. exact Hmd. }
    rewrite Htc.
    destruct (IH md centers (mkWorld (Some rs2) (entropy w)) rs2 eq_refl Hin Hmd)
      as [rs3 E3].
    exists rs3. exact E3.
Qed.

Lemma place_center_first :
  forall (i : nat) (w : world) (rs : RandomState),
    rng w = Some rs ->
    exists rs',
      place_center 2 2 5 [] i w
      = Ok ([(0, 0)%Z], mkWorld (Some rs') (entropy w)).
Proof.
  intros i w rs H. unfold place_center.
  change 100%nat with (Datatypes.S 99).
  destruct (sample_center_first 99
              (inject_Z (Z.min 2 2) / inject_Z (5 * 2)) w rs H) as [rs' E].
  unfold bind. rewrite E. exists rs'. reflexivity.
Qed.

Lemma place_center_fallback :
  forall (centers : list (Z * Z)) (i : nat) (w : world) (rs : RandomState),
    rng w = Some rs -> In (0, 0)%Z centers ->
    exists rs',
      place_center 2 2 5 centers i w
      = Ok (centers ++ [fallback_center 2 2 i],
            mkWorld (Some rs') (entropy w)).
Proof.
  intros centers i w rs H Hin. unfold place_center.
  assert (Hmd : fsqrt (inject_Z 0) < inject_Z (Z.min 2 2) / inject_Z (5 * 2))
    by (rewrite fsqrt_zero; reflexivity).
  destruct (sample_center_exhausted 100 _ centers w rs H Hin Hmd) as [rs' E].
  unfold bind. rewrite E. exists rs'. reflexivity.
Qed.

(** Before [generate_tectonic_base] has run there is no generator to
    draw from. *)
Lemma place_centers_without_generator :
  forall (width height n : Z) (w : world),
    rng w = None -> (0 < n)%Z ->
    place_centers width height n w = Raise AttributeError.
Proof.
  intros width height n w H Hn. unfold place_centers.
  destruct (Z.to_nat n) as [|k] eqn:Ek; [lia|].
  cbn [seq foldM]. unfold bind at 1. unfold place_center.
  change 100%nat with (Datatypes.S 99). unfold bind at 1.
  assert (E : forall m md cs,
             sample_center (Datatypes.S m) width height md cs w
             = Raise AttributeError).
  { intros m md cs. cbn [sample_center]. unfold bind at 1. unfold np_randint.
    rewrite H. reflexivity. }
  rewrite E. reflexivity.
Qed.

(** The five centres of a 2 x 2 map. *)
Lemma place_centers_2x2 :
  forall (w : world) (rs : RandomState),
    rng w = Some rs ->
    exists rs',
      place_centers 2 2 5 w
      = Ok (tiny_centers, mkWorld (Some rs') (entropy w)).
Proof.
  intros w rs H. unfold place_centers.
  change (seq 0 (Z.to_nat 5)) with [0; 1; 2; 3; 4]%nat. cbn [foldM].
  destruct (place_center_first 0 w rs H) as [rs0 E0].
  unfold bind at 1. rewrite E0.
  destruct (place_center_fallback [(0, 0)%Z] 1 (mkWorld (Some rs0) (entropy w))
              rs0 eq_refl ltac:(left; reflexivity)) as [rs1 E1].
  unfold bind at 1. rewrite E1. simpl entropy.
  destruct (place_center_fallback ([(0, 0)%Z] ++ [fallback_center 2 2 1]) 2
              (mkWorld (Some rs1) (entropy w))
              rs1 eq_refl ltac:(left; reflexivity)) as [rs2 E2].
  unfold bind at 1. rewrite E2. simpl entropy.
  destruct (place_center_fallback
              (([(0, 0)%Z] ++ [fallback_center 2 2 1]) ++ [fallback_center 2 2 2]) 3
              (mkWorld (Some rs2) (entropy w))
              rs2 eq_refl ltac:(left; reflexivity)) as [rs3 E3].
  unfold bind at 1. rewrite E3. simpl entropy.
  destruct (place_center_fallback
              ((([(0, 0)%Z] ++ [fallback_center 2 2 1]) ++ [fallback_center 2 2 2])
               ++ [fallback_center 2 2 3]) 4
              (mkWorld (Some rs3) (entropy w))
              rs3 eq_refl ltac:(left; reflexivity)) as [rs4 E4].
  unfold bind at 1. rewrite E4. simpl entropy.
  exists rs4. reflexivity.
Qed.

Lemma voronoi_fold_shape :
  forall (height width : nat) (l : list (nat * (Z * Z))) (st : rstate),
    has_shape height width (fst st) ->
    has_shape height width (fst (fold_left (voronoi_step (height, width)) l st)).
Proof.
  intros height width. induction l as [|rc l IH]; intros st Hs; simpl.
  - exact Hs.
  - apply IH. unfold voronoi_step; simpl. apply tabulate_has_shape.
Qed.

(** The Voronoi fold over these centres: each of the four cells is the
    cell of one of the first four centres. *)
Lemma voronoi_2x2 :
  fst (fold_left (voronoi_step (2, 2)%nat)
                 (combine (seq 0 (List.length tiny_centers)) tiny_centers)
                 (tabulate 2 2 (fun _ _ => 0%Z),
                  tabulate 2 2 (fun _ _ => None)))
  = [[0; 1]; [2; 3]]%Z.
Proof.
  assert (Hnd : NoDup tiny_centers).
  { unfold tiny_centers. repeat constructor; simpl; intuition discriminate. }
  assert (Hown : forall (i : nat) (c : Z * Z),
             nth_error tiny_centers i = Some c -> inside (2, 2)%nat c ->
             iget (fst (fold_left (voronoi_step (2, 2)%nat)
                          (combine (seq 0 (List.length tiny_centers)) tiny_centers)
                          (tabulate 2 2 (fun _ _ => 0%Z),
                           tabulate 2 2 (fun _ _ => None))))
                  (Z.to_nat (snd c)) (Z.to_nat (fst c)) = Z.of_nat (0 + i)).
  { intros i c Hi Hin.
    apply (voronoi_own_cell fsqrt_zero_least (2, 2)%nat tiny_centers 0 i c
             (fun _ => False) _ Hnd Hi Hin (fun c' F => False_ind _ F)).
    left. apply best_initial. }
  pose proof (Hown 0%nat (0, 0)%Z eq_refl ltac:(unfold inside; simpl; lia)) as H00.
  pose proof (Hown 1%nat (1, 0)%Z eq_refl ltac:(unfold inside; simpl; lia)) as H01.
  pose proof (Hown 2%nat (0, 1)%Z eq_refl ltac:(unfold inside; simpl; lia)) as H10.
  pose proof (Hown 3%nat (1, 1)%Z eq_refl ltac:(unfold inside; simpl; lia)) as H11.
  pose proof (voronoi_fold_shape 2 2
                (combine (seq 0 (List.length tiny_centers)) tiny_centers)
                (tabulate 2 2 (fun _ _ => 0%Z), tabulate 2 2 (fun _ _ => None))
                (tabulate_has_shape _ 2 2 _)) as Hshape.
  clear Hown. revert H00 H01 H10 H11 Hshape.
  generalize (fst (fold_left (voronoi_step (2, 2)%nat)
                     (combine (seq 0 (List.length tiny_centers)) tiny_centers)
                     (tabulate 2 2 (fun _ _ => 0%Z),
                      tabulate 2 2 (fun _ _ => None)))).
  intros rm H00 H01 H10 H11 [Hlen Hrows].
  destruct rm as [|r0 [|r1 [|r2 rest]]]; simpl in Hlen; try lia.
  inversion Hrows as [|? ? Hr0 Hrows']; subst.
  inversion Hrows' as [|? ? Hr1 _]; subst.
  destruct r0 as [|a [|b [|? ?]]]; simpl in Hr0; try lia.
  destruct r1 as [|c [|d [|? ?]]]; simpl in Hr1; try lia.
  unfold iget in *. simpl in H00, H01, H10, H11. subst. reflexivity.
Qed.

(** Without perturbation the region map is the pure Voronoi fold over the
    placed centres. *)
Lemma generate_regions_unperturbed :
  forall (p : params) (w w1 : world) (height width : nat) (centers : list (Z * Z)),
    (1 < num_regions p)%Z -> region_contrast p <= 0.3 ->
    shape_of p = Ok (height, width) ->
    place_centers (fst (size p)) (snd (size p)) (num_regions p) w
    = Ok (centers, w1) ->
    generate_regions p w
    = Ok (fst (fold_left (voronoi_step (height, width))
                         (combine (seq 0 (List.length centers)) centers)
                         (tabulate height width (fun _ _ => 0%Z),
                          tabulate height width (fun _ _ => None))),
          w1).
Proof.
  intros p w w1 height width centers Hn Hc Hshp Hpc.
  unfold generate_regions. unfold bind at 1. unfold lift. rewrite Hshp.
  assert (Hn1 : (num_regions p =? 1)%Z = false) by (apply Z.eqb_neq; lia).
  rewrite Hn1. destruct (size p) as [sw sh]. simpl in Hpc.
  unfold bind at 1. rewrite Hpc. unfold bind at 1.
  rewrite (foldM_pure _ _ (claim_region (height, width) (region_contrast p))
             (voronoi_step (height, width)))
    by (intros; apply claim_region_unperturbed; exact Hc).
  reflexivity.
Qed.

(** On a 2 x 2 map with five regions and no perturbation, the region map
    is the same for every library and every state of the generator: the
    fifth region owns no cell. *)
Lemma regions_2x2_five_any_library :
  forall (p : params) (w w' : world) (region_map : iarr),
    size p = (2, 2)%Z -> num_regions p = 5%Z -> region_contrast p <= 0.3 ->
    generate_regions p w = Ok (region_map, w') ->
    region_map = [[0; 1]; [2; 3]]%Z.
Proof.
  intros p w w' region_map Hsz Hn Hc H.
  assert (Hshp : shape_of p = Ok (2, 2)%nat)
    by (unfold shape_of; rewrite Hsz; reflexivity).
  destruct (rng w) as [rs|] eqn:Erng.
  2:{ exfalso. revert H. unfold generate_regions. unfold bind at 1.
      unfold lift. rewrite Hshp, Hn. change (5 =? 1)%Z with false. cbv iota.
      destruct (size p) as [sw sh]. unfold bind at 1.
      rewrite (place_centers_without_generator sw sh 5 w Erng) by lia.
      discriminate. }
  destruct (place_centers_2x2 w rs Erng) as [rs' Epc].
  rewrite (generate_regions_unperturbed p w (mkWorld (Some rs') (entropy w)) 2 2
             tiny_centers) in H;
    [|lia|exact Hc|exact Hshp|rewrite Hsz, Hn; exact Epc].
  injection H as Hrm _. rewrite <- Hrm. apply voronoi_2x2.
Qed.

End TinyMap.

(** *** Regions on the executable library *)

Lemma testlib_fsqrt_zero_least :
  forall n : Z,
    (0 < n)%Z ->
    @fsqrt TestLib.lib (inject_Z 0) < @fsqrt TestLib.lib (inject_Z n).
Proof.
  intros n Hn. simpl. unfold TestLib.sqrt_approx.
  assert (Hf : Qfloor (inject_Z n * 1000000000000) = (n * 1000000000000)%Z).
  { unfold Qfloor, Qmult, inject_Z; simpl. rewrite Z.div_1_r. reflexivity. }
  rewrite Hf.
  assert (Hs : (0 < Z.sqrt (n * 1000000000000))%Z) by (apply Z.sqrt_pos; lia).
  unfold Qlt; simpl. lia.
Qed.

(** C3, as stated, fails: with [num_regions = 5] on a 2 x 2 map the region
    map is [[[0, 1], [2, 3]]]; region 4 owns no cell. *)
Lemma five_regions_on_2x2_leave_one_empty :
  (1 < num_regions tiny_params)%Z
  /\ outcome (@generate_regions TestLib.lib tiny_params
                (@mkWorld TestLib.lib (Some 42%Z) 7%Z))
     = Ok [[0; 1]; [2; 3]]%Z
  /\ ~ In 4%Z (List.concat [[0; 1]; [2; 3]]%Z).
Proof.
  split; [reflexivity|]. split; [vm_compute; reflexivity|].
  simpl. intuition discriminate.
Qed.

Lemma generate_regions_values_witness :
  exists region_map : iarr,
    outcome (@generate_regions TestLib.lib small_params
               (@mkWorld TestLib.lib (Some 42%Z) 7%Z)) = Ok region_map
    /\ forall v : Z, (0 <= v < 3)%Z ->
         exists y x, (y < 8)%nat /\ (x < 8)%nat /\ iget region_map y x = v.
Proof.
  assert (Hrun : exists rm,
             outcome (@generate_regions TestLib.lib small_params
                        (@mkWorld TestLib.lib (Some 42%Z) 7%Z)) = Ok rm)
    by (eexists; vm_compute; reflexivity).
  assert (Hcs : outcome (@place_centers TestLib.lib
                           (fst (size small_params)) (snd (size small_params))
                           (num_regions small_params)
                           (@mkWorld TestLib.lib (Some 42%Z) 7%Z))
                = Ok [(5, 2); (3, 4); (2, 5)]%Z)
    by (vm_compute; reflexivity).
  destruct (@generate_regions TestLib.lib small_params
              (@mkWorld TestLib.lib (Some 42%Z) 7%Z))
    as [[region_map w']|e] eqn:E;
    [|destruct Hrun as [rm Hrm]; discriminate Hrm].
  destruct (@place_centers TestLib.lib
              (fst (size small_params)) (snd (size small_params))
              (num_regions small_params)
              (@mkWorld TestLib.lib (Some 42%Z) 7%Z))
    as [[centers w1]|e] eqn:Epc; [|discriminate Hcs].
  simpl in Hcs. injection Hcs as Hcs.
  exists region_map. split; [reflexivity|].
  destruct (@generate_regions_values TestLib.lib small_params _ _ region_map
              ltac:(reflexivity) E)
    as (height & width & Hshp & _ & _ & Hcover).
  vm_compute in Hshp. injection Hshp as <- <-.
  apply (Hcover ltac:(discriminate) testlib_fsqrt_zero_least centers w1 Epc).
  - rewrite Hcs. repeat constructor; simpl; intuition discriminate.
  - rewrite Hcs. repeat constructor; simpl; lia.
Defined.

(** *** Determinism of a seeded run *)

Section Determinism.
Context {L : NumLib}.

Lemma agree_outcome :
  forall (A : Type) (r1 r2 : result (A * world)),
    agree r1 r2 -> outcome r1 = outcome r2.
Proof.
  intros A [[a1 w1]|e1] [[a2 w2]|e2] H; simpl in *;
    try contradiction; [destruct H|]; congruence.
Qed.

Lemma agree_bind :
  forall (A B : Type) (m : M A) (k : A -> M B) (w1 w2 : world),
    agree (m w1) (m w2) -> (forall a, seeded_only (k a)) ->
    agree (bind m k w1) (bind m k w2).
Proof.
  intros A B m k w1 w2 Hm Hk. unfold bind.
  destruct (m w1) as [[a1 w1']|e1], (m w2) as [[a2 w2']|e2]; simpl in Hm;
    try contradiction.
  - destruct Hm as [<- Hw]. apply Hk. exact Hw.
  - exact Hm.
Qed.

Lemma seeded_ret :
  forall (A : Type) (a : A), seeded_only (ret a).
Proof.
  intros A a w1 w2 H. simpl. split; [reflexivity|exact H].
Qed.

Lemma seeded_bind :
  forall (A B : Type) (m : M A) (k : A -> M B),
    seeded_only m -> (forall a, seeded_only (k a)) -> seeded_only (bind m k).
Proof.
  intros A B m k Hm Hk w1 w2 H. apply agree_bind; [apply Hm; exact H|exact Hk].
Qed.

Lemma seeded_lift :
  forall (A : Type) (r : result A), seeded_only (lift r).
Proof.
  intros A [a|e] w1 w2 H; simpl; [split; [reflexivity|exact H]|reflexivity].
Qed.

Lemma seeded_draw :
  forall (A : Type) (f : RandomState -> A * RandomState), seeded_only (draw f).
Proof.
  intros A f w1 w2 [Heq Hsome]. unfold draw. rewrite <- Heq.
  destruct (rng w1) as [rs|]; [|contradiction].
  destruct (f rs) as [a rs']. simpl. split; [reflexivity|].
  split; simpl; [reflexivity|discriminate].
Qed.

Lemma seeded_np_randint :
  forall low high : Z, seeded_only (np_randint low high).
Proof.
  intros low high w1 w2 [Heq Hsome]. unfold np_randint. rewrite <- Heq.
  destruct (rng w1) as [rs|]; [|contradiction].
  destruct (low <? high)%Z; [|reflexivity].
  destruct (rs_randint rs low high) as [v rs']. simpl. split; [reflexivity|].
  split; simpl; [reflexivity|discriminate].
Qed.

Lemma seeded_foldM :
  forall (A B : Type) (f : B -> A -> M B),
    (forall b a, seeded_only (f b a)) ->
    forall (l : list A) (b : B), seeded_only (foldM f l b).
Proof.
  intros A B f Hf. induction l as [|a l IH]; intros b; cbn [foldM].
  - apply seeded_ret.
  - apply seeded_bind; [apply Hf|exact IH].
Qed.

(** Structural steps of a proof that a computation is [seeded_only]. *)
Ltac seeded_step :=
  first
    [ apply seeded_ret
    | apply seeded_lift
    | apply seeded_draw
    | apply seeded_np_randint
    | apply seeded_bind; [|intros]
    | apply seeded_foldM; intros
    | match goal with
      | |- seeded_only (if ?b then _ else _) => destruct b
      | |- seeded_only (match ?x with _ => _ end) => destruct x
      end ].

Lemma seeded_perlin :
  forall (shp : nat * nat) (scale : Q) (octaves : nat) (persistence : Q),
    seeded_only (_perlin_noise_2d shp scale octaves persistence).
Proof.
  intros shp scale octaves persistence. unfold _perlin_noise_2d.
  apply seeded_bind.
  - intros w1 w2 H. pose proof H as [Heq Hsome]. rewrite <- Heq.
    destruct (rng w1) as [rs|] eqn:E; [|contradiction].
    simpl. split; [reflexivity|exact H].
  - intros _. apply seeded_bind.
    + apply seeded_foldM. intros noise octave. unfold octave_pass.
      destruct shp as [height width]. repeat seeded_step.
    + intros noise. repeat seeded_step.
Qed.

Lemma seeded_tectonic_patterns :
  forall (shp : nat * nat) (p : params),
    seeded_only (_generate_mountain_belt shp p)
    /\ seeded_only (_generate_rift_valley shp p)
    /\ seeded_only (_generate_transform_boundary shp p)
    /\ seeded_only (_generate_stable_craton shp p).
Proof.
  intros [height width] p. repeat split.
  - unfold _generate_mountain_belt.
    repeat first [apply seeded_perlin | seeded_step].
  - unfold _generate_rift_valley.
    repeat first [apply seeded_perlin | seeded_step].
  - unfold _generate_transform_boundary.
    repeat first [apply seeded_perlin | seeded_step].
  - unfold _generate_stable_craton.
    repeat first [apply seeded_perlin | seeded_step].
Qed.

Lemma seeded_generate_regions :
  forall p : params, seeded_only (generate_regions p).
Proof.
  intros p. unfold generate_regions. apply seeded_bind; [apply seeded_lift|].
  intros [height width]. destruct (num_regions p =? 1)%Z; [apply seeded_ret|].
  destruct (size p) as [sw sh]. apply seeded_bind.
  - unfold place_centers. apply seeded_foldM. intros centers i.
    unfold place_center. apply seeded_bind.
    + generalize 100%nat. intros n. induction n as [|n IH]; cbn [sample_center].
      * apply seeded_ret.
      * apply seeded_bind; [apply seeded_np_randint|]. intros cx.
        apply seeded_bind; [apply seeded_np_randint|]. intros cy.
        destruct (too_close centers cx cy _); [exact IH|apply seeded_ret].
    + intros [c|]; apply seeded_ret.
  - intros centers. apply seeded_bind; [|intros; apply seeded_ret].
    apply seeded_foldM. intros [rm rd] [region_id [cx cy]].
    unfold claim_region. repeat first [apply seeded_perlin | seeded_step].
Qed.

Lemma seeded_generate_climate :
  forall (p : params) (regions : iarr), seeded_only (generate_climate p regions).
Proof.
  intros p regions. unfold generate_climate.
  apply seeded_bind; [apply seeded_lift|]. intros [height width].
  apply seeded_bind; [apply seeded_lift|]. intros mx.
  apply seeded_foldM. intros climate_map region_id. unfold climate_region.
  repeat first [apply seeded_perlin | seeded_step].
Qed.

Lemma seeded_post_process :
  forall (heightmap : arr) (p : params), seeded_only (post_process heightmap p).
Proof.
  intros heightmap p. unfold post_process, detailed_field.
  repeat first [apply seeded_perlin | seeded_step].
Qed.

(** The seeding step itself ends alike from any two states. *)
Lemma init_random_seeded :
  forall (s : Z) (w1 w2 : world),
    agree (_init_random (Some s) w1) (_init_random (Some s) w2).
Proof.
  intros s w1 w2. unfold _init_random.
  destruct ((0 <=? s)%Z && (s <? 2 ^ 32)%Z); simpl; [|reflexivity].
  split; [reflexivity|]. split; simpl; [reflexivity|discriminate].
Qed.

(** A seeded run ends alike from any two states. *)
Lemma seeded_run_agrees :
  forall (p : params) (s : Z),
    seed p = Some s ->
    forall w1 w2 : world, agree (run p w1) (run p w2).
Proof.
  intros p s Hs w1 w2. unfold run.
  apply agree_bind.
  - unfold generate_tectonic_base. rewrite Hs. apply agree_bind.
    + apply init_random_seeded.
    + intros _. apply seeded_bind; [apply seeded_lift|]. intros shp.
      destruct (seeded_tectonic_patterns shp p) as (H1 & H2 & H3 & H4).
      apply seeded_bind.
      * unfold pattern_field.
        repeat match goal with
               | |- seeded_only (if ?b then _ else _) => destruct b
               end; assumption.
      * intros base. unfold _generate_hardness_map.
        repeat first [apply seeded_perlin | seeded_step].
  - intros tectonic_layer.
    apply seeded_bind; [apply seeded_generate_regions|]. intros regions.
    apply seeded_bind; [apply seeded_generate_climate|]. intros climate.
    apply seeded_bind; [apply seeded_lift|]. intros heightmap.
    apply seeded_post_process.
Qed.

Lemma of_record_seed :
  forall (r : TerrainParams.t) (p : params) (s : Z),
    of_record r = Some p -> TerrainParams.seed r = Py.VInt s -> seed p = Some s.
Proof.
  intros r p s H Hs. unfold of_record in H. rewrite Hs in H.
  cbn [as_seed] in H.
  repeat match type of H with
         | obind ?o _ = _ => destruct o; cbn [obind] in H; [|discriminate H]
         end.
  inversion H. reflexivity.
Qed.

(** C1: for every Terrain Parameters record with an explicit seed, the
    outcome of the pipeline (the heightmap, or the exception that ends the
    run) is the same from every state of the generator object and of the
    [random] module: two runs with the record produce identical
    heightmaps. *)
Theorem seeded_run_deterministic :
  forall (r : TerrainParams.t) (p : params) (s : Z),
    of_record r = Some p ->
    TerrainParams.seed r = Py.VInt s ->
    forall w1 w2 : world, outcome (run p w1) = outcome (run p w2).
Proof.
  intros r p s Hp Hs w1 w2. apply agree_outcome.
  apply (seeded_run_agrees p s (of_record_seed r p s Hp Hs)).
Qed.

End Determinism.

Lemma seeded_run_deterministic_witness :
  exists p : params,
    of_record (TerrainParams.setattr TerrainParams.default "seed" (Py.VInt 42))
    = Some p
    /\ outcome (@run TestLib.lib p (@mkWorld TestLib.lib None 7%Z))
       = outcome (@run TestLib.lib p (@mkWorld TestLib.lib (Some 5%Z) 99%Z)).
Proof.
  eexists. split; [reflexivity|].
  exact (@seeded_run_deterministic TestLib.lib
           (TerrainParams.setattr TerrainParams.default "seed" (Py.VInt 42))
           _ 42%Z eq_refl eq_refl
           (@mkWorld TestLib.lib None 7%Z) (@mkWorld TestLib.lib (Some 5%Z) 99%Z)).
Defined.

(** *** Runs of the model on the executable library *)

(** Without a seed, the seed that [_init_random] reports comes from the
    [random] module. *)
Example unseeded_seed_depends_on_entropy :
  outcome (@_init_random TestLib.lib None (@mkWorld TestLib.lib None 7%Z))
  <> outcome (@_init_random TestLib.lib None (@mkWorld TestLib.lib None 8%Z)).
Proof. vm_compute. discriminate. Qed.

(** With a seed, it is the seed. *)
Example seeded_seed_is_reported :
  outcome (@_init_random TestLib.lib (Some 42%Z) (@mkWorld TestLib.lib None 7%Z))
  = Ok 42%Z.
Proof. reflexivity. Qed.

(** The closing rescale on a small field: minimum 0, maximum just below
    1. *)
Example rescale_small_field :
  exists out : arr,
    rescale [[1; 3]; [2; 5]] = Ok out
    /\ get out 0 0 == 0
    /\ get out 1 1 == 4 / 4.00000001.
Proof.
  eexists. split; [reflexivity|]. split; vm_compute; reflexivity.
Qed.

(** One pass with no rain: only the thermal sub-stage acts. *)
Example dry_pass :
  forall eroded climate_map : arr,
    @erosion_pass TestLib.lib
      (mkParams (4, 4)%Z None 0.7 "stable" 0.5 0.7 0 0.4 0 0.5 2%Z 0 2%Z 0.8 0.3)
      climate_map eroded
    = @_simulate_thermal_weathering TestLib.lib eroded 0.4.
Proof.
  intros eroded climate_map. unfold erosion_pass, hydraulic_step, thermal_step,
    wind_step. simpl.
  destruct (_simulate_thermal_weathering eroded 0.4); reflexivity.
Qed.

End EngineSpec.

(** ** The generator: further properties *)

Module EngineMore.
Import Engine EngineSpec.

(** *** Cells of arrays *)

Lemma in_concat_tabulate :
  forall (A : Type) (h w : nat) (f : nat -> nat -> A) (v : A),
    In v (List.concat (tabulate h w f)) ->
    exists y x, (y < h)%nat /\ (x < w)%nat /\ v = f y x.
Proof.
  intros A h w f v H. unfold tabulate in H. apply in_concat in H.
  destruct H as (row & Hrow & Hv). apply in_map_iff in Hrow.
  destruct Hrow as (y & <- & Hy). apply in_map_iff in Hv.
  destruct Hv as (x & <- & Hx). apply in_seq in Hy. apply in_seq in Hx.
  exists y, x. repeat split; lia.
Qed.

Lemma clip01_bounds : forall v : Q, 0 <= clip01 v /\ clip01 v <= 1.
Proof.
  intros v. unfold clip01. split.
  - apply Q.min_glb; [apply Q.le_max_r|discriminate].
  - apply Q.le_min_r.
Qed.

(** *** The stages that rescale stay within the unit interval *)

Section UnitInterval.
Context {L : NumLib}.

Lemma outcome_ok :
  forall (A : Type) (r : result (A * world)) (a : A),
    outcome r = Ok a -> exists w' : world, r = Ok (a, w').
Proof.
  intros A r a H. destruct r as [[a' w']|e]; simpl in H; [|discriminate].
  inversion H; subst. exists w'. reflexivity.
Qed.


(** The map of the noise normalisation is monotone. *)
Lemma noise_map_monotone :
  forall mn mx : Q, mn < mx -> Proper (Qle ==> Qle) (fun v => (v - mn) / (mx - mn)).
Proof.
  intros mn mx H. apply rescale_map_monotone. lra.
Qed.

(** X2: the fractal noise is normalised.  Whenever [_perlin_noise_2d]
    returns, either the accumulated octaves are constant and returned as
    they are, or the result has minimum 0, maximum 1 and every cell in
    [[0, 1]]. *)
Theorem perlin_noise_normalised :
  forall (shp : nat * nat) (scale : Q) (octaves : nat) (persistence : Q)
         (w : world) (noise : arr),
    outcome (_perlin_noise_2d shp scale octaves persistence w) = Ok noise ->
    exists mn mx : Q,
      np_min noise = Ok mn /\ np_max noise = Ok mx
      /\ (mn == mx
          \/ (mn == 0 /\ mx == 1
              /\ forall v, In v (List.concat noise) -> 0 <= v /\ v <= 1)).
Proof.
  intros shp scale octaves persistence w noise H.
  apply outcome_ok in H. destruct H as [w' H].
  unfold _perlin_noise_2d in H. unfold bind at 1 in H.
  match type of H with
  | match ?m with _ => _ end = _ => destruct m as [[u w0]|]; [|discriminate]
  end.
  unfold bind at 1 in H.
  match type of H with
  | match ?m with _ => _ end = _ => destruct m as [[raw w1]|]; [|discriminate]
  end.
  unfold bind, lift, ret in H.
  destruct (np_max raw) as [mx|] eqn:Emx; [|discriminate].
  destruct (np_min raw) as [mn|] eqn:Emn; [|discriminate].
  inversion H; subst noise w'; clear H.
  pose proof (np_min_le_np_max raw mn mx Emn Emx) as Hle.
  destruct (Qltb mn mx) eqn:Elt.
  - apply Qltb_true in Elt.
    assert (Hd : 0 < mx - mn) by lra.
    destruct (np_min_amap _ (rescale_map_proper mn _)
                (noise_map_monotone mn mx Elt) raw mn Emn) as (rmin & Ermin & Hrmin).
    destruct (np_max_amap _ (rescale_map_proper mn _)
                (noise_map_monotone mn mx Elt) raw mx Emx) as (rmax & Ermax & Hrmax).
    cbv beta in Hrmin, Hrmax.
    exists rmin, rmax. split; [exact Ermin|]. split; [exact Ermax|]. right.
    split; [rewrite Hrmin; unfold Qdiv; ring|].
    split; [rewrite Hrmax; field; lra|].
    intros v Hv. rewrite concat_amap in Hv. apply in_map_iff in Hv.
    destruct Hv as (x & <- & Hx).
    pose proof (np_min_lower_bound raw mn x Emn Hx) as Hlo.
    pose proof (np_max_upper_bound raw mx x Emx Hx) as Hhi.
    split.
    + apply Qle_shift_div_l; lra.
    + apply Qle_shift_div_r; lra.
  - apply Qltb_false in Elt.
    exists mn, mx. split; [exact Emn|]. split; [exact Emx|]. left. lra.
Qed.

End UnitInterval.


Lemma perlin_noise_normalised_witness :
  exists noise : arr,
    outcome (@_perlin_noise_2d TestLib.lib (2, 2)%nat 0.2 1 0.5
               (@mkWorld TestLib.lib (Some 42%Z) 7%Z)) = Ok noise
    /\ exists mn mx : Q,
         np_min noise = Ok mn /\ np_max noise = Ok mx
         /\ (mn == mx
             \/ (mn == 0 /\ mx == 1
                 /\ forall v, In v (List.concat noise) -> 0 <= v /\ v <= 1)).
Proof.
  eexists. split; [vm_compute; reflexivity|].
  apply (@perlin_noise_normalised TestLib.lib (2, 2)%nat 0.2 1 0.5
           (@mkWorld TestLib.lib (Some 42%Z) 7%Z)).
  vm_compute; reflexivity.
Defined.

(** *** Erosion by wind and the coast never raise a cell *)

Section Bounds.

(** X3: wind erosion lowers a non-negative cell by at most 5 % and never
    raises it; a cell of the first column, or one that is not higher than
    its left neighbour, is left as it is. *)
Theorem wind_erosion_bounds :
  forall (heightmap : arr) (wind : Q) (h w y x : nat),
    has_shape h w heightmap -> (y < h)%nat -> (x < w)%nat ->
    0 <= wind -> 0 <= get heightmap y x ->
    get heightmap y x * 0.95 <= get (_simulate_wind_erosion heightmap wind) y x
    /\ get (_simulate_wind_erosion heightmap wind) y x <= get heightmap y x
    /\ ((x = 0%nat \/ get heightmap y x <= get heightmap y (x - 1)) ->
        get (_simulate_wind_erosion heightmap wind) y x == get heightmap y x).
Proof.
  intros heightmap wind h w y x Hs Hy Hx Hw Hh.
  unfold _simulate_wind_erosion.
  rewrite (shape_of_has_shape _ h w _ Hs) by lia.
  rewrite get_tabulate by assumption.
  set (c := get heightmap y x) in *. set (l := get heightmap y (x - 1)).
  destruct ((1 <=? x)%nat && Qltb l c) eqn:E.
  - apply andb_true_iff in E. destruct E as [E1 E2].
    apply Nat.leb_le in E1. apply Qltb_true in E2.
    pose proof (Q.le_min_r ((c - l) * 0.1 * wind) (c * 0.05)) as Hr.
    assert (Hm : 0 <= Qmin ((c - l) * 0.1 * wind) (c * 0.05)).
    { apply Q.min_glb; [|lra].
      apply Qmult_le_0_compat; [lra|exact Hw]. }
    split; [lra|]. split; [lra|].
    intros [Hx0|Hle]; [lia|lra].
  - split; [lra|]. split; [lra|]. intros _. ring.
Qed.

Lemma coastal_cell_values :
  forall (h w : nat) (d : Q) (y x : nat),
    coastal_cell h w d y x == 0.1 \/ coastal_cell h w d y x == 0.3
    \/ coastal_cell h w d y x == 1.
Proof.
  intros h w d y x. unfold coastal_cell.
  repeat match goal with
         | |- context [if ?b then _ else _] => destruct b
         end;
    first [left; reflexivity | right; left; reflexivity | right; right; reflexivity].
Qed.

(** X4: the first two steps of post-processing (negative elevations raised
    to 0, coastal lowering) leave every cell between 37 % of its clipped
    elevation and that elevation; away from the coast
    ([distance_to_coast >= 0.3]) the cell is exactly the clipped
    elevation. *)
Theorem coast_adjust_bounds :
  forall (heightmap : arr) (p : params) (h w y x : nat),
    has_shape h w heightmap -> (y < h)%nat -> (x < w)%nat ->
    Qmax (get heightmap y x) 0 * 0.37 <= get (coast_adjust heightmap p) y x
    /\ get (coast_adjust heightmap p) y x <= Qmax (get heightmap y x) 0
    /\ (0.3 <= distance_to_coast p ->
        get (coast_adjust heightmap p) y x = Qmax (get heightmap y x) 0).
Proof.
  intros heightmap p h w y x Hs Hy Hx.
  pose proof (Q.le_max_r (get heightmap y x) 0) as H0.
  destruct (Qltb (distance_to_coast p) 0.3) eqn:E.
  - pose proof E as E'. apply Qltb_true in E'.
    rewrite (coast_adjust_coastal heightmap p h w y x Hs ltac:(lia) E' Hy Hx).
    set (m := Qmax (get heightmap y x) 0) in *.
    set (c := coastal_cell h w (distance_to_coast p) y x).
    assert (Hc : 0.1 <= c /\ c <= 1).
    { destruct (coastal_cell_values h w (distance_to_coast p) y x) as [Hc|[Hc|Hc]];
        fold c in Hc; lra. }
    assert (H1 : 0 <= m * (0.3 + c * 0.7 - 0.37))
      by (apply Qmult_le_0_compat; lra).
    assert (H2 : 0 <= m * (1 - (0.3 + c * 0.7)))
      by (apply Qmult_le_0_compat; lra).
    split; [lra|]. split; [lra|]. intros Hd. lra.
  - unfold coast_adjust. rewrite E.
    rewrite (get_amap _ _ h w y x Hs Hy Hx).
    split; [lra|]. split; [lra|]. reflexivity.
Qed.

End Bounds.

Lemma wind_erosion_bounds_witness :
  1 * 0.95 <= get (_simulate_wind_erosion [[0.5; 1]] 0.5) 0 1
  /\ get (_simulate_wind_erosion [[0.5; 1]] 0.5) 0 1 <= 1.
Proof.
  pose proof (wind_erosion_bounds [[0.5; 1]] 0.5 1 2 0 1) as H.
  destruct H as (H1 & H2 & _).
  - split; [reflexivity|]. repeat constructor.
  - lia.
  - lia.
  - discriminate.
  - discriminate.
  - split; [exact H1|exact H2].
Defined.

Lemma coast_adjust_bounds_witness :
  Qmax 0.8 0 * 0.37 <= get (coast_adjust [[0.8; 0.2]; [0.4; 0.6]] small_params) 0 0
  /\ get (coast_adjust [[0.8; 0.2]; [0.4; 0.6]] small_params) 0 0 <= Qmax 0.8 0.
Proof.
  pose proof (coast_adjust_bounds [[0.8; 0.2]; [0.4; 0.6]] small_params 2 2 0 0) as H.
  destruct H as (H1 & H2 & _).
  - split; [reflexivity|]. repeat constructor.
  - lia.
  - lia.
  - split; [exact H1|exact H2].
Defined.

(** *** Climate *)

Lemma fold_left_Zmax_in :
  forall (vs : list Z) (v : Z), In (fold_left Z.max vs v) (v :: vs).
Proof.
  induction vs as [|a vs IH]; intros v; simpl.
  - left. reflexivity.
  - destruct (IH (Z.max v a)) as [H|H].
    + destruct (Z.max_spec v a) as [[_ E]|[_ E]].
      * right. left. congruence.
      * left. congruence.
    + right. right. exact H.
Qed.

Lemma np_imax_in :
  forall (a : iarr) (mx : Z), np_imax a = Ok mx -> In mx (List.concat a).
Proof.
  intros a mx H. unfold np_imax in H.
  destruct (List.concat a) as [|v vs]; [discriminate|].
  inversion H; subst. apply fold_left_Zmax_in.
Qed.

Lemma existsb_region :
  forall (regions : iarr) (v : Z),
    In v (List.concat regions) ->
    existsb (existsb (fun u => (u =? v)%Z)) regions = true.
Proof.
  intros regions v H. apply in_concat in H. destruct H as (row & Hrow & Hv).
  apply existsb_exists. exists row. split; [exact Hrow|].
  apply existsb_exists. exists v. split; [exact Hv|apply Z.eqb_refl].
Qed.

Section Climate.
Context {L : NumLib}.

Lemma foldM_app :
  forall (A B : Type) (f : B -> A -> M B) (l1 l2 : list A) (b : B) (w : world),
    foldM f (l1 ++ l2) b w = bind (foldM f l1 b) (foldM f l2) w.
Proof.
  intros A B f l1. induction l1 as [|a l1 IH]; intros l2 b w.
  - reflexivity.
  - cbn [app foldM]. unfold bind.
    destruct (f b a w) as [[b' w']|e]; [|reflexivity].
    rewrite IH. reflexivity.
Qed.

(** The pass for a region that owns a cell ends with the clip of the
    whole map. *)
Lemma climate_region_clipped :
  forall (shp : nat * nat) (precip : Q) (regions : iarr) (cm out : arr)
         (region_id : nat) (w w' : world) (v : Q),
    In (Z.of_nat region_id) (List.concat regions) ->
    climate_region shp precip regions cm region_id w = Ok (out, w') ->
    has_shape (fst shp) (snd shp) out
    /\ (In v (List.concat out) -> 0 <= v /\ v <= 1).
Proof.
  intros [height width] precip regions cm out region_id w w' v Hin H.
  unfold climate_region in H. unfold bind at 1 in H.
  destruct (draw (fun rs => rs_uniform rs 0.7 1.3) w) as [[u w1]|]; [|discriminate].
  rewrite (existsb_region regions _ Hin) in H.
  unfold bind in H.
  destruct (_perlin_noise_2d (height, width) 0.2 1 0.5 w1) as [[n w2]|];
    [|discriminate].
  unfold ret in H. inversion H; subst out w'; clear H.
  split; [apply tabulate_has_shape|].
  intros Hv. apply in_concat_tabulate in Hv.
  destruct Hv as (y & x & _ & _ & ->). apply clip01_bounds.
Qed.

(** X5: on a region map without negative identifiers (as
    [generate_regions] returns them), whenever [generate_climate] returns,
    the climate map has the requested shape and every cell lies in
    [[0, 1]], whatever the precipitation parameter. *)
Theorem generate_climate_in_unit_interval :
  forall (p : params) (regions : iarr) (w : world) (climate : arr),
    (forall r : Z, In r (List.concat regions) -> (0 <= r)%Z) ->
    outcome (generate_climate p regions w) = Ok climate ->
    has_shape (Z.to_nat (snd (size p))) (Z.to_nat (fst (size p))) climate
    /\ forall v : Q, In v (List.concat climate) -> 0 <= v /\ v <= 1.
Proof.
  intros p regions w climate Hpos H.
  apply outcome_ok in H. destruct H as [w' H].
  unfold generate_climate in H. unfold bind at 1 in H. unfold lift at 1 in H.
  destruct (shape_of p) as [shp|] eqn:Eshp; [|discriminate].
  assert (Hshp : shp = (Z.to_nat (snd (size p)), Z.to_nat (fst (size p)))).
  { unfold shape_of in Eshp. destruct (size p) as [sw sh].
    destruct ((sh <? 0)%Z || (sw <? 0)%Z); [discriminate|].
    inversion Eshp. reflexivity. }
  unfold bind at 1 in H. unfold lift at 1 in H.
  destruct (np_imax regions) as [mx|] eqn:Emx; [|discriminate].
  pose proof (np_imax_in regions mx Emx) as Hin.
  pose proof (Hpos mx Hin) as Hmx.
  replace (Z.to_nat (mx + 1)) with (Datatypes.S (Z.to_nat mx)) in H by lia.
  rewrite seq_S in H. rewrite foldM_app in H. unfold bind at 1 in H.
  destruct (foldM (climate_region shp (precipitation p) regions)
              (seq 0 (Z.to_nat mx)) (full shp (precipitation p)) w)
    as [[cm w1]|]; [|discriminate].
  cbn [foldM Nat.add] in H. unfold bind at 1 in H.
  destruct (climate_region shp (precipitation p) regions cm (Z.to_nat mx) w1)
    as [[out w2]|] eqn:Elast; [|discriminate].
  unfold ret in H. inversion H; subst climate w'; clear H.
  assert (Hin' : In (Z.of_nat (Z.to_nat mx)) (List.concat regions))
    by (rewrite Z2Nat.id by exact Hmx; exact Hin).
  split.
  - pose proof (climate_region_clipped shp _ regions cm out _ w1 w2 0 Hin' Elast)
      as [Hs _].
    rewrite Hshp in Hs. exact Hs.
  - intros v Hv.
    apply (climate_region_clipped shp _ regions cm out _ w1 w2 v Hin' Elast).
    exact Hv.
Qed.

End Climate.

Lemma generate_climate_in_unit_interval_witness :
  exists climate : arr,
    outcome (@generate_climate TestLib.lib
               (mkParams (2, 2)%Z None 0.7 "stable" 0.5 0.7 5 0.4 0.3 0.5 2%Z 0 0%Z
                         0.8 0.3)
               [[0; 1]; [1; 0]]%Z (@mkWorld TestLib.lib (Some 42%Z) 7%Z))
    = Ok climate
    /\ has_shape 2 2 climate
    /\ forall v : Q, In v (List.concat climate) -> 0 <= v /\ v <= 1.
Proof.
  eexists. split; [vm_compute; reflexivity|].
  apply (@generate_climate_in_unit_interval TestLib.lib
           (mkParams (2, 2)%Z None 0.7 "stable" 0.5 0.7 5 0.4 0.3 0.5 2%Z 0 0%Z
                     0.8 0.3)
           [[0; 1]; [1; 0]]%Z (@mkWorld TestLib.lib (Some 42%Z) 7%Z)).
  - intros r Hr. simpl in Hr. lia.
  - vm_compute; reflexivity.
Defined.

(** *** Requests the generator rejects *)

Section Rejections.
Context {L : NumLib}.

Lemma rift_width_narrow :
  forall width : Z, (1 <= width <= 9)%Z -> Qtrunc (QN (Z.to_nat width) * 0.1) = 0%Z.
Proof.
  intros width H.
  assert (E : (width = 1 \/ width = 2 \/ width = 3 \/ width = 4 \/ width = 5
               \/ width = 6 \/ width = 7 \/ width = 8 \/ width = 9)%Z) by lia.
  repeat (destruct E as [-> | E]; [reflexivity|]). subst. reflexivity.
Qed.

(** X6: a [divergent] request for a map 1 to 9 cells wide fails with
    [ZeroDivisionError], whatever its other parameters: the rift is
    [int(width * 0.1) = 0] cells wide and the flank formula divides by
    [(rift_width * 2) ** 2]. *)
Theorem narrow_rift_valley_divides_by_zero :
  forall (p : params) (s : Z) (w : world),
    tectonic_pattern p = "divergent" ->
    (1 <= fst (size p) <= 9)%Z -> (0 <= snd (size p))%Z ->
    seed p = Some s -> (0 <= s < 2 ^ 32)%Z ->
    outcome (generate_tectonic_base p w) = Raise ZeroDivisionError.
Proof.
  intros p s w Hpat Hw Hh Hseed Hs.
  unfold generate_tectonic_base. unfold bind at 1. unfold _init_random.
  rewrite Hseed.
  replace ((0 <=? s)%Z && (s <? 2 ^ 32)%Z) with true
    by (symmetry; apply andb_true_iff; split; [apply Z.leb_le|apply Z.ltb_lt]; lia).
  unfold bind at 1. unfold lift at 1. unfold shape_of.
  destruct (size p) as [sw sh]. cbn [fst snd] in Hw, Hh.
  replace ((sh <? 0)%Z || (sw <? 0)%Z) with false
    by (symmetry; apply orb_false_iff; split; apply Z.ltb_ge; lia).
  unfold pattern_field. rewrite Hpat. cbn [String.eqb Ascii.eqb Bool.eqb].
  unfold bind at 1. unfold _generate_rift_valley. unfold bind at 1.
  rewrite (rift_width_narrow sw Hw).
  destruct (Z.to_nat sw) as [|k] eqn:Ek; [lia|].
  cbn [seq mapR]. unfold rift_val at 1.
  replace (Z.abs (Z.of_nat 0 - Z.of_nat (Datatypes.S k) / 2) <? 0)%Z with false
    by (symmetry; apply Z.ltb_ge; lia).
  reflexivity.
Qed.

(** X7: [generate_regions] called while no generator exists (before
    [generate_tectonic_base] has run): a request for two or more regions
    fails with [AttributeError]; a request for one region, or for none,
    returns the all-zero map without touching the generator. *)
Theorem generate_regions_without_generator :
  forall (p : params) (h wd : nat) (w : world),
    shape_of p = Ok (h, wd) -> rng w = None ->
    generate_regions p w
    = if (2 <=? num_regions p)%Z then Raise AttributeError
      else Ok (tabulate h wd (fun _ _ => 0%Z), w).
Proof.
  intros p h wd w Hshp Hrng.
  unfold generate_regions. unfold bind at 1. unfold lift at 1. rewrite Hshp.
  destruct (num_regions p =? 1)%Z eqn:E1.
  - apply Z.eqb_eq in E1. rewrite E1. reflexivity.
  - apply Z.eqb_neq in E1. destruct (size p) as [sw sh].
    unfold bind at 1.
    destruct (2 <=? num_regions p)%Z eqn:E2.
    + apply Z.leb_le in E2.
      rewrite (place_centers_without_generator sw sh _ w Hrng) by lia.
      reflexivity.
    + apply Z.leb_gt in E2. unfold place_centers.
      replace (Z.to_nat (num_regions p)) with 0%nat by lia.
      reflexivity.
Qed.

(** X8: with a generator, a request for two or more regions on a map at
    most one cell wide or high fails with [ValueError]: the window
    [randint(n // 4, 3 * n // 4)] of the centre coordinates is empty. *)
Theorem generate_regions_rejects_thin_maps :
  forall (p : params) (w : world) (rs : RandomState),
    (0 <= fst (size p))%Z -> (0 <= snd (size p))%Z ->
    (fst (size p) <= 1 \/ snd (size p) <= 1)%Z ->
    (2 <= num_regions p)%Z -> rng w = Some rs ->
    outcome (generate_regions p w) = Raise ValueError.
Proof.
  intros p w rs Hw Hh Hthin Hn Hrng.
  unfold generate_regions. unfold bind at 1. unfold lift at 1. unfold shape_of.
  destruct (size p) as [sw sh]. cbn [fst snd] in Hw, Hh, Hthin.
  replace ((sh <? 0)%Z || (sw <? 0)%Z) with false
    by (symmetry; apply orb_false_iff; split; apply Z.ltb_ge; lia).
  replace (num_regions p =? 1)%Z with false by (symmetry; apply Z.eqb_neq; lia).
  unfold bind at 1. unfold place_centers.
  destruct (Z.to_nat (num_regions p)) as [|k] eqn:Ek; [lia|].
  cbn [seq foldM]. unfold bind at 1. unfold place_center.
  change 100%nat with (Datatypes.S 99). unfold bind at 1.
  cbn [sample_center]. unfold bind at 1. unfold np_randint at 1. rewrite Hrng.
  destruct (sw / 4 <? 3 * sw / 4)%Z eqn:Ex.
  - destruct (rs_randint rs (sw / 4) (3 * sw / 4)) as [cx rs1].
    unfold bind at 1. unfold np_randint at 1. cbn [rng].
    assert (Esh : (sh / 4 <? 3 * sh / 4)%Z = false).
    { apply Z.ltb_ge. apply Z.ltb_lt in Ex.
      destruct Hthin as [Hthin|Hthin].
      - assert (sw = 0 \/ sw = 1)%Z as [-> | ->] by lia; vm_compute in Ex; discriminate Ex.
      - assert (sh = 0 \/ sh = 1)%Z as [-> | ->] by lia; vm_compute; discriminate. }
    rewrite Esh. reflexivity.
  - reflexivity.
Qed.

End Rejections.

Lemma narrow_rift_valley_divides_by_zero_witness :
  outcome (@generate_tectonic_base TestLib.lib
             (mkParams (8, 8)%Z (Some 42%Z) 0.7 "divergent" 0.5 0.7 0.6 0.4 0.3 0.5
                       3%Z 0 10%Z 0.8 0.3)
             (@mkWorld TestLib.lib None 7%Z))
  = Raise ZeroDivisionError.
Proof.
  apply (@narrow_rift_valley_divides_by_zero TestLib.lib
           (mkParams (8, 8)%Z (Some 42%Z) 0.7 "divergent" 0.5 0.7 0.6 0.4 0.3 0.5
                     3%Z 0 10%Z 0.8 0.3)
           42%Z (@mkWorld TestLib.lib None 7%Z));
    first [reflexivity | simpl; lia].
Defined.

Lemma generate_regions_without_generator_witness :
  outcome (@generate_regions TestLib.lib small_params (@mkWorld TestLib.lib None 7%Z))
  = Raise AttributeError.
Proof.
  rewrite (@generate_regions_without_generator TestLib.lib small_params 8 8
             (@mkWorld TestLib.lib None 7%Z) eq_refl eq_refl).
  reflexivity.
Defined.

Lemma generate_regions_rejects_thin_maps_witness :
  outcome (@generate_regions TestLib.lib
             (mkParams (8, 1)%Z (Some 42%Z) 0.7 "stable" 0.5 0.7 0.6 0.4 0.3 0.5
                       3%Z 0 10%Z 0.8 0.3)
             (@mkWorld TestLib.lib (Some 42%Z) 7%Z))
  = Raise ValueError.
Proof.
  apply (@generate_regions_rejects_thin_maps TestLib.lib
           (mkParams (8, 1)%Z (Some 42%Z) 0.7 "stable" 0.5 0.7 0.6 0.4 0.3 0.5
                     3%Z 0 10%Z 0.8 0.3)
           (@mkWorld TestLib.lib (Some 42%Z) 7%Z) 42%Z);
    first [reflexivity | simpl; lia].
Defined.

End EngineMore.

(** ** [math_utils]: normalisation, slope, Gaussian kernel *)

Module MathSpec.
Import Engine EngineSpec EngineMore MathUtils.












Section Slope.
Context {L : NumLib}.


End Slope.

(** *** The Gaussian kernel *)

Lemma fold_left_Qplus_proper :
  forall (l : list Q) (a b : Q),
    a == b -> fold_left Qplus l a == fold_left Qplus l b.
Proof.
  induction l as [|v l IH]; intros a b H; simpl.
  - exact H.
  - apply IH. rewrite H. reflexivity.
Qed.

Lemma fold_left_Qplus_div :
  forall (t : Q) (l : list Q) (a : Q),
    fold_left Qplus (map (fun v => v / t) l) (a / t)
    == fold_left Qplus l a / t.
Proof.
  intros t l. induction l as [|v l IH]; intros a; simpl.
  - reflexivity.
  - rewrite <- IH. apply fold_left_Qplus_proper. unfold Qdiv. ring.
Qed.

Lemma fold_left_Qplus_pos :
  forall (l : list Q) (a : Q),
    (forall v, In v l -> 0 < v) -> 0 < a -> 0 < fold_left Qplus l a.
Proof.
  induction l as [|v l IH]; intros a H Ha; simpl.
  - exact Ha.
  - apply IH.
    + intros u Hu. apply H. right. exact Hu.
    + pose proof (H v (or_introl eq_refl)). lra.
Qed.

Lemma np_sum_pos :
  forall a : arr,
    (forall v, In v (List.concat a) -> 0 < v) -> List.concat a <> [] ->
    0 < np_sum a.
Proof.
  intros a H Hne. unfold np_sum.
  destruct (List.concat a) as [|v l]; [congruence|]. simpl.
  apply fold_left_Qplus_pos.
  - intros u Hu. apply H. right. exact Hu.
  - pose proof (H v (or_introl eq_refl)). lra.
Qed.

Lemma kernel_axis_length :
  forall size : Z, (0 <= size)%Z -> List.length (kernel_axis size) = Z.to_nat size.
Proof.
  intros size H. unfold kernel_axis. rewrite length_map, length_seq.
  f_equal. Z.div_mod_to_equations. lia.
Qed.

Section Kernel.
Context {L : NumLib}.

(** X12: for a size of at least 1 and a non-zero [sigma], given that [exp]
    is positive, [gaussian_kernel] is a [size] x [size] array whose cells
    are positive and sum to 1. *)
Theorem gaussian_kernel_normalised :
  forall (size : Z) (sigma : Q),
    (forall x : Q, 0 < fexp x) -> (1 <= size)%Z -> ~ sigma == 0 ->
    has_shape (Z.to_nat size) (Z.to_nat size) (gaussian_kernel size sigma)
    /\ (forall v : Q, In v (List.concat (gaussian_kernel size sigma)) -> 0 < v)
    /\ np_sum (gaussian_kernel size sigma) == 1.
Proof.
  intros size sigma Hexp Hsize Hsigma. unfold gaussian_kernel.
  set (ax := kernel_axis size).
  set (kernel := map (fun yy => map (fun xx => fexp _) ax) ax).
  assert (Hlen : List.length ax = Z.to_nat size)
    by (apply kernel_axis_length; lia).
  assert (Hcells : forall v, In v (List.concat kernel) -> 0 < v).
  { intros v Hv. apply in_concat in Hv. destruct Hv as (row & Hrow & Hv).
    apply in_map_iff in Hrow. destruct Hrow as (yy & <- & _).
    apply in_map_iff in Hv. destruct Hv as (xx & <- & _). apply Hexp. }
  assert (Hne : List.concat kernel <> []).
  { subst kernel. destruct ax as [|a0 ax']; [simpl in Hlen; lia|]. discriminate. }
  pose proof (np_sum_pos kernel Hcells Hne) as Hpos.
  split; [|split].
  - apply amap_has_shape. split.
    + subst kernel. rewrite length_map. exact Hlen.
    + subst kernel. apply Forall_forall. intros row Hrow.
      apply in_map_iff in Hrow. destruct Hrow as (yy & <- & _).
      rewrite length_map. exact Hlen.
  - intros v Hv. rewrite concat_amap in Hv. apply in_map_iff in Hv.
    destruct Hv as (u & <- & Hu). pose proof (Hcells u Hu).
    apply Qlt_shift_div_l; lra.
  - unfold np_sum at 1. rewrite concat_amap.
    rewrite (fold_left_Qplus_proper _ 0 (0 / np_sum kernel))
      by (unfold Qdiv; ring).
    rewrite fold_left_Qplus_div. fold (np_sum kernel). field. lra.
Qed.

End Kernel.

Lemma testlib_exp_positive : forall x : Q, 0 < TestLib.exp_approx x.
Proof.
  intros x. unfold TestLib.exp_approx.
  assert (Hsq : 0 <= x * x).
  { destruct (Qlt_le_dec x 0) as [Hn|Hp].
    - setoid_replace (x * x) with ((- x) * (- x)) by ring.
      apply Qmult_le_0_compat; lra.
    - apply Qmult_le_0_compat; lra. }
  assert (Hh : 0 <= x * x / 2).
  { unfold Qdiv. apply Qmult_le_0_compat; [exact Hsq|discriminate]. }
  destruct (Qle_bool x 0) eqn:E.
  - apply Qle_bool_iff in E. apply Qlt_shift_div_l; lra.
  - assert (0 < x).
    { destruct (Qlt_le_dec 0 x) as [Hp|Hn]; [exact Hp|].
      apply Qle_bool_iff in Hn. congruence. }
    lra.
Qed.

Lemma gaussian_kernel_normalised_witness :
  has_shape 3 3 (@gaussian_kernel TestLib.lib 3 1)
  /\ (forall v : Q, In v (List.concat (@gaussian_kernel TestLib.lib 3 1)) -> 0 < v)
  /\ np_sum (@gaussian_kernel TestLib.lib 3 1) == 1.
Proof.
  apply (@gaussian_kernel_normalised TestLib.lib 3 1).
  - exact testlib_exp_positive.
  - lia.
  - discriminate.
Defined.

End MathSpec.

(** ** [image_utils]: colours, grey images, shading *)

Module ImageSpec.
Import Engine EngineSpec EngineMore ImageUtils ImageShading.

(** *** Truncation *)

Lemma Qtrunc_nonneg_bounds :
  forall (q : Q) (n : Z),
    0 <= q -> q <= inject_Z n -> (0 <= Qtrunc q <= n)%Z.
Proof.
  intros [a b] n H0 Hn. unfold Qtrunc, Qle in *. simpl in *.
  assert (Ha : (0 <= a)%Z) by lia.
  rewrite Z.quot_div_nonneg by lia. split.
  - apply Z.div_pos; lia.
  - apply Z.div_le_upper_bound; lia.
Qed.

Lemma Qtrunc_below :
  forall (q : Q) (n : Z),
    0 <= q -> q < inject_Z n -> (0 <= Qtrunc q < n)%Z.
Proof.
  intros [a b] n H0 Hn. unfold Qtrunc, Qle, Qlt in *. simpl in *.
  assert (Ha : (0 <= a)%Z) by lia.
  rewrite Z.quot_div_nonneg by lia. split.
  - apply Z.div_pos; lia.
  - apply Z.div_lt_upper_bound; lia.
Qed.

Lemma Qtrunc_zero : forall q : Q, q == 0 -> Qtrunc q = 0%Z.
Proof.
  intros [a b] H. unfold Qtrunc, Qeq in *. simpl in *.
  assert (a = 0%Z) by lia. subst. reflexivity.
Qed.

(** *** The colours of a texture *)

Lemma lerp_byte :
  forall (c0 c1 : Z) (t : Q),
    (0 <= c0 <= 255)%Z -> (0 <= c1 <= 255)%Z -> 0 <= t -> t <= 1 ->
    (0 <= lerp c0 c1 t <= 255)%Z.
Proof.
  intros c0 c1 t H0 H1 Ht0 Ht1. unfold lerp.
  assert (Q0 : 0 <= inject_Z c0 /\ inject_Z c0 <= 255).
  { split; [change 0 with (inject_Z 0)|change 255 with (inject_Z 255)];
      rewrite <- Zle_Qle; lia. }
  assert (Q1 : 0 <= inject_Z c1 /\ inject_Z c1 <= 255).
  { split; [change 0 with (inject_Z 0)|change 255 with (inject_Z 255)];
      rewrite <- Zle_Qle; lia. }
  set (a := inject_Z c0) in *. set (b := inject_Z c1) in *.
  assert (A1 : 0 <= a * (1 - t)) by (apply Qmult_le_0_compat; lra).
  assert (A2 : 0 <= (255 - a) * (1 - t)) by (apply Qmult_le_0_compat; lra).
  assert (B1 : 0 <= b * t) by (apply Qmult_le_0_compat; lra).
  assert (B2 : 0 <= (255 - b) * t) by (apply Qmult_le_0_compat; lra).
  apply Qtrunc_nonneg_bounds; [lra|].
  change (inject_Z 255) with 255. lra.
Qed.

Lemma color_of_byte :
  forall (cmap : ramp) (height_val : Q) (current : rgb),
    Forall (fun s => byte_colour (snd s)) cmap -> byte_colour current ->
    byte_colour (color_of cmap height_val current).
Proof.
  induction cmap as [|[s0 [[r0 g0] b0]] rest IH]; intros v current Hall Hcur;
    [exact Hcur|].
  destruct rest as [|[s1 [[r1 g1] b1]] rest']; [exact Hcur|].
  inversion Hall as [|? ? H0 Hrest]; subst.
  inversion Hrest as [|? ? H1 _]; subst.
  cbn [color_of].
  destruct (Qle_bool s0 v && Qle_bool v s1) eqn:E.
  - apply andb_true_iff in E. destruct E as [E0 E1].
    apply Qle_bool_iff in E0. apply Qle_bool_iff in E1.
    set (t := (v - s0) / (s1 - s0 + 0.00000001)).
    assert (Ht : 0 <= t /\ t <= 1).
    { subst t. split.
      - apply Qle_shift_div_l; lra.
      - apply Qle_shift_div_r; lra. }
    simpl in H0, H1. destruct H0 as (Hr0 & Hg0 & Hb0).
    destruct H1 as (Hr1 & Hg1 & Hb1).
    repeat split; apply lerp_byte; tauto || lia.
  - apply IH; assumption.
Qed.

Lemma ramp_colours_byte :
  forall colormap : string,
    Forall (fun s => byte_colour (snd s)) (select_ramp colormap).
Proof.
  intros colormap. unfold select_ramp.
  destruct (String.eqb colormap "desert");
    [|destruct (String.eqb colormap "grayscale")];
    repeat constructor; simpl; lia.
Qed.

Lemma pixel_map_map :
  forall (A B : Type) (f : A -> B) (a : list (list A)) (y x : nat) (b : B),
    pixel (map (map f) a) y x = Some b ->
    exists v, pixel a y x = Some v /\ b = f v.
Proof.
  intros A B f a y x b H. unfold pixel in *.
  rewrite nth_error_map in H.
  destruct (nth_error a y) as [row|]; [|discriminate]. simpl in H.
  rewrite nth_error_map in H.
  destruct (nth_error row x) as [v|]; [|discriminate]. simpl in H.
  inversion H. exists v. split; reflexivity.
Qed.

(** X13: every pixel of a texture has its three channels in [[0, 255]],
    for every heightmap (whatever its elevations) and every colormap name,
    so that storing the colour in the [uint8] texture never wraps
    around. *)
Theorem generate_texture_channels_are_bytes :
  forall (heightmap : list (list Q)) (colormap : string),
    exists texture : list (list rgb),
      generate_texture (Some heightmap) colormap = Some texture
      /\ heightmap_to_colormap (Some heightmap) colormap = Some texture
      /\ forall (y x : nat) (r g b : Z),
           pixel texture y x = Some (r, g, b) ->
           (0 <= r <= 255)%Z /\ (0 <= g <= 255)%Z /\ (0 <= b <= 255)%Z.
Proof.
  intros heightmap colormap. eexists. split; [reflexivity|].
  split; [reflexivity|].
  intros y x r g b H. apply pixel_map_map in H. destruct H as (v & _ & Hv).
  pose proof (color_of_byte (select_ramp colormap) v (0, 0, 0)%Z
                (ramp_colours_byte colormap)) as Hb.
  rewrite <- Hv in Hb. apply Hb. simpl. lia.
Qed.

(** X14: an elevation in [[0, 1]] always falls between two stops of the
    ramp: its pixel is painted, whatever the pixel held before. *)
Theorem in_range_elevation_is_painted :
  forall (colormap : string) (height_val : Q) (c1 c2 : rgb),
    0 <= height_val -> height_val <= 1 ->
    color_of (select_ramp colormap) height_val c1
    = color_of (select_ramp colormap) height_val c2.
Proof.
  intros colormap v c1 c2 H0 H1. unfold select_ramp.
  destruct (String.eqb colormap "desert");
    [|destruct (String.eqb colormap "grayscale")];
    cbn [desert_ramp grayscale_ramp terrain_ramp color_of];
    repeat match goal with
           | |- context [Qle_bool ?a ?b] =>
               let E := fresh "E" in
               destruct (Qle_bool a b) eqn:E; cbn [andb];
               [apply Qle_bool_iff in E
               |assert (b < a)
                  by (destruct (Qlt_le_dec b a) as [Hlt|Hle];
                      [exact Hlt|apply Qle_bool_iff in Hle; congruence]);
                clear E]
           end;
    first [reflexivity | exfalso; lra].
Qed.

Lemma in_range_elevation_is_painted_witness :
  color_of (select_ramp "terrain") 0.6 (0, 0, 0)%Z
  = color_of (select_ramp "terrain") 0.6 (1, 2, 3)%Z.
Proof.
  apply (in_range_elevation_is_painted "terrain" 0.6 (0, 0, 0)%Z (1, 2, 3)%Z);
    discriminate.
Defined.

(** *** Grey images *)

Lemma fold_left_Qmin_in :
  forall (vs : list Q) (v : Q), In (fold_left Qmin vs v) (v :: vs).
Proof.
  induction vs as [|a vs IH]; intros v; simpl.
  - left. reflexivity.
  - destruct (IH (Qmin v a)) as [H|H].
    + assert (Hm : Qmin v a = v \/ Qmin v a = a)
        by (unfold Qmin, GenericMinMax.gmin; destruct (v ?= a); auto).
      destruct Hm as [Hm|Hm]; [left|right; left]; congruence.
    + right. right. exact H.
Qed.

Lemma np_min_in :
  forall (a : arr) (mn : Q), np_min a = Ok mn -> In mn (List.concat a).
Proof.
  intros a mn H. unfold np_min in H.
  destruct (List.concat a) as [|v vs]; [discriminate|].
  inversion H; subst. apply fold_left_Qmin_in.
Qed.

Lemma Qtrunc_monotone :
  forall p q : Q, 0 <= p -> p <= q -> (Qtrunc p <= Qtrunc q)%Z.
Proof.
  intros [a b] [c d] H0 Hle. unfold Qtrunc, Qle in *. simpl in *.
  assert (Ha : (0 <= a)%Z) by lia.
  assert (Hc : (0 <= c)%Z) by nia.
  rewrite !Z.quot_div_nonneg by lia.
  apply Z.div_le_lower_bound; [lia|].
  pose proof (Z.mul_div_le a (Z.pos b) ltac:(lia)) as Hq.
  assert (Hq0 : (0 <= a / Z.pos b)%Z) by (apply Z.div_pos; lia).
  nia.
Qed.

(** The grey levels follow the elevations. *)
Lemma gray_levels_spec :
  forall (a : arr) (img : list (list Z)),
    gray_levels a = Ok img ->
    List.length img = List.length a
    /\ (exists level : Q -> Z,
          List.concat img = map level (List.concat a)
          /\ (forall v : Q, In v (List.concat a) -> (0 <= level v <= 255)%Z)
          /\ (forall u v : Q,
                In u (List.concat a) -> In v (List.concat a) -> u <= v ->
                (level u <= level v)%Z))
    /\ In 0%Z (List.concat img).
Proof.
  intros a img H. unfold gray_levels in H.
  destruct (rescale a) as [n|] eqn:En; [|discriminate].
  simpl in H. inversion H; subst img; clear H.
  unfold rescale in En.
  destruct (np_min a) as [mn|] eqn:Emn; [|discriminate].
  destruct (np_max a) as [mx|] eqn:Emx; [|discriminate].
  simpl in En. inversion En; subst n; clear En.
  pose proof (np_min_le_np_max a mn mx Emn Emx) as Hle.
  set (d := mx - mn + 0.00000001).
  assert (Hd : 0 < d) by (subst d; lra).
  assert (Hcell : forall v : Q,
             In v (List.concat a) ->
             0 <= (v - mn) / d * 255 /\ (v - mn) / d * 255 <= 255).
  { intros v Hv.
    pose proof (np_min_lower_bound a mn v Emn Hv) as Hlo.
    pose proof (np_max_upper_bound a mx v Emx Hv) as Hhi.
    assert (H0 : 0 <= (v - mn) / d) by (apply Qle_shift_div_l; lra).
    assert (H1 : (v - mn) / d <= 1) by (apply Qle_shift_div_r; subst d; lra).
    lra. }
  assert (Hlevel : forall v : Q,
             In v (List.concat a) ->
             astype_uint8 ((v - mn) / d * 255) = Qtrunc ((v - mn) / d * 255)
             /\ (0 <= Qtrunc ((v - mn) / d * 255) <= 255)%Z).
  { intros v Hv. destruct (Hcell v Hv) as [H0 H1].
    assert (Hb : (0 <= Qtrunc ((v - mn) / d * 255) <= 255)%Z)
      by (apply Qtrunc_nonneg_bounds; [exact H0|exact H1]).
    split; [|exact Hb]. unfold astype_uint8. apply Z.mod_small. lia. }
  split; [|split].
  - unfold amap. rewrite !length_map. reflexivity.
  - exists (fun v => astype_uint8 ((v - mn) / d * 255)). split; [|split].
    + rewrite <- concat_map. rewrite concat_amap. rewrite map_map. reflexivity.
    + intros v Hv. destruct (Hlevel v Hv) as [-> Hb]. exact Hb.
    + intros u v Hu Hv Huv.
      destruct (Hlevel u Hu) as [-> _]. destruct (Hlevel v Hv) as [-> _].
      apply Qtrunc_monotone; [apply (Hcell u Hu)|].
      apply Qmult_le_compat_r; [|discriminate].
      apply (rescale_map_monotone mn d Hd). exact Huv.
  - rewrite <- concat_map. rewrite concat_amap.
    apply in_map_iff.
    exists ((mn - mn) / d). split.
    + unfold astype_uint8. rewrite Qtrunc_zero; [reflexivity|].
      unfold Qdiv. ring.
    + apply in_map_iff. exists mn. split; [reflexivity|].
      apply np_min_in. exact Emn.
Qed.

(** X15: the grey image that [array_to_qimage] and the preview canvas
    build from a float array has as many rows as the array; its levels lie
    in [[0, 255]] and follow the elevations (a cell that is not lower is
    not darker, so that the conversion to [uint8] never wraps around), and
    the lowest cell is black.  An empty array is rejected with
    [ValueError]. *)
Theorem grey_image_levels :
  forall a : arr,
    CanvasMouse._create_heightmap_image (Some a) = array_to_qimage (Some a)
    /\ match array_to_qimage (Some a) with
       | Ok (Some img) =>
           List.length img = List.length a
           /\ (exists level : Q -> Z,
                 List.concat img = map level (List.concat a)
                 /\ (forall v : Q,
                       In v (List.concat a) -> (0 <= level v <= 255)%Z)
                 /\ (forall u v : Q,
                       In u (List.concat a) -> In v (List.concat a) -> u <= v ->
                       (level u <= level v)%Z))
           /\ In 0%Z (List.concat img)
       | Ok None => False
       | Raise e => e = ValueError /\ List.concat a = []
       end.
Proof.
  intros a. split; [reflexivity|]. unfold array_to_qimage.
  destruct (gray_levels a) as [img|e] eqn:E; simpl.
  - apply gray_levels_spec. exact E.
  - unfold gray_levels, rescale, np_min, np_max in E.
    destruct (List.concat a) as [|v vs]; simpl in E; [|discriminate].
    inversion E. split; reflexivity.
Qed.

(** *** Shading *)

Lemma nth_error_zip_with :
  forall (A B C : Type) (f : A -> B -> C) (l : list A) (m : list B) (n : nat) (c : C),
    nth_error (zip_with f l m) n = Some c ->
    exists a b, nth_error l n = Some a /\ nth_error m n = Some b /\ c = f a b.
Proof.
  intros A B C f l. induction l as [|a l IH]; intros m n c H.
  - destruct n; discriminate.
  - destruct m as [|b m]; [destruct n; discriminate|].
    destruct n as [|n]; simpl in H.
    + inversion H. exists a, b. repeat split; reflexivity.
    + simpl. apply IH. exact H.
Qed.

Lemma pixel_zip_with :
  forall (A B C : Type) (f : A -> B -> C) (a : list (list A)) (b : list (list B))
         (y x : nat) (c : C),
    pixel (zip_with (zip_with f) a b) y x = Some c ->
    exists u v, pixel a y x = Some u /\ pixel b y x = Some v /\ c = f u v.
Proof.
  intros A B C f a b y x c H. unfold pixel in *.
  destruct (nth_error (zip_with (zip_with f) a b) y) as [row|] eqn:E;
    [|discriminate].
  apply nth_error_zip_with in E. destruct E as (ra & rb & Ea & Eb & ->).
  apply nth_error_zip_with in H. destruct H as (u & v & Eu & Ev & ->).
  rewrite Ea, Eb. exists u, v. repeat split; assumption.
Qed.

Lemma pixel_in_concat :
  forall (A : Type) (a : list (list A)) (y x : nat) (v : A),
    pixel a y x = Some v -> In v (List.concat a).
Proof.
  intros A a y x v H. unfold pixel in H.
  destruct (nth_error a y) as [row|] eqn:E; [|discriminate].
  apply in_concat. exists row. split; eapply nth_error_In; eassumption.
Qed.

Lemma shade_channel_bounds :
  forall (c : Z) (l : Q),
    (0 <= c <= 255)%Z -> 0 <= l -> l <= 1 -> (0 <= shade_channel c l <= c)%Z.
Proof.
  intros c l Hc Hl0 Hl1. unfold shade_channel, astype_uint8.
  assert (Qc : 0 <= inject_Z c).
  { change 0 with (inject_Z 0). rewrite <- Zle_Qle. lia. }
  set (cq := inject_Z c / 255).
  assert (Ecq : cq * 255 == inject_Z c) by (subst cq; field).
  assert (Hcq : 0 <= cq) by lra.
  assert (X0 : 0 <= cq * l) by (apply Qmult_le_0_compat; lra).
  assert (X1 : 0 <= cq * (1 - l)) by (apply Qmult_le_0_compat; lra).
  pose proof (clip01_bounds (cq * l)) as [C0 _].
  assert (C1 : clip01 (cq * l) <= cq * l).
  { unfold clip01. eapply Qle_trans; [apply Q.le_min_l|].
    apply Q.max_lub; lra. }
  assert (Hb : (0 <= Qtrunc (clip01 (cq * l) * 255) <= c)%Z).
  { apply Qtrunc_nonneg_bounds; lra. }
  rewrite Z.mod_small; lia.
Qed.

Section Shading.
Context {L : NumLib}.

(** X16: [create_shaded_texture] rejects a heightmap with fewer than two
    rows or two columns with [ValueError] (raised by [np.gradient] after
    the plain texture was built); on every other heightmap each channel
    of each shaded pixel lies between 0 and the channel of the plain
    texture: shading never brightens a colour. *)
Theorem shading_never_brightens :
  forall (hm : arr) (colormap : string),
    exists plain : list (list rgb),
      generate_texture (Some hm) colormap = Some plain
      /\ match create_shaded_texture (Some hm) colormap with
         | Ok (Some shaded) =>
             (2 <= List.length hm)%nat /\ (2 <= List.length (hd [] hm))%nat
             /\ forall (y x : nat) (r' g' b' : Z),
                  pixel shaded y x = Some (r', g', b') ->
                  exists r g b : Z,
                    pixel plain y x = Some (r, g, b)
                    /\ (0 <= r' <= r)%Z /\ (0 <= g' <= g)%Z /\ (0 <= b' <= b)%Z
         | Ok None => False
         | Raise e =>
             e = ValueError
             /\ ((List.length hm < 2)%nat \/ (List.length (hd [] hm) < 2)%nat)
         end.
Proof.
  intros hm colormap. eexists. split; [reflexivity|].
  unfold create_shaded_texture. cbn [generate_texture].
  unfold apply_lighting, np_gradient, shape.
  destruct ((List.length hm <? 2)%nat || (List.length (hd [] hm) <? 2)%nat) eqn:E.
  - simpl. split; [reflexivity|]. apply orb_true_iff in E.
    destruct E as [E|E]; apply Nat.ltb_lt in E; [left|right]; exact E.
  - apply orb_false_iff in E. destruct E as [E1 E2].
    apply Nat.ltb_ge in E1. apply Nat.ltb_ge in E2. cbn [rbind].
    split; [exact E1|]. split; [exact E2|].
    intros y x r' g' b' H.
    apply pixel_zip_with in H. destruct H as ([[r g] b] & l & Hp & Hl & Hs).
    exists r, g, b. split; [exact Hp|].
    apply pixel_in_concat in Hl. apply in_concat_tabulate in Hl.
    destruct Hl as (y' & x' & _ & _ & ->).
    match type of Hs with
    | _ = shade _ (clip01 ?e) => pose proof (clip01_bounds e) as [L0 L1];
                                  set (l := clip01 e) in *
    end.
    apply pixel_map_map in Hp. destruct Hp as (v & _ & Hv).
    pose proof (color_of_byte (select_ramp colormap) v (0, 0, 0)%Z
                  (ramp_colours_byte colormap)) as Hb.
    rewrite <- Hv in Hb. simpl in Hb.
    destruct Hb as (Hr & Hg & Hbb); [lia|].
    unfold shade in Hs. inversion Hs; subst r' g' b'.
    repeat split; apply shade_channel_bounds; assumption.
Qed.

End Shading.

End ImageSpec.

(** ** Preview canvas: the mouse and the 2D view *)

Module CanvasMouseSpec.
Import PreviewCanvas CanvasMouse.

Lemma act_keeps_pitch :
  forall (s : widget) (a : action), pitch_in_bounds s -> pitch_in_bounds (act s a).
Proof.
  intros [c last drag] a. unfold pitch_in_bounds. simpl. intros H.
  destruct a as [b pos|pos|b|delta|k|m]; simpl.
  - destruct b; exact H.
  - unfold mouseMoveEvent. simpl.
    destruct last as [last|]; [|exact H].
    destruct (drag && QPoint_bool last); [|exact H]. simpl.
    destruct (mode c); simpl; [exact H|]. split.
    + apply Q.le_max_l.
    + apply Q.max_lub; [lra|apply Q.le_min_l].
  - destruct b; exact H.
  - unfold wheelEvent. destruct (mode c); exact H.
  - destruct k; simpl; try exact H. lra.
  - unfold set_view_mode. simpl.
    destruct (String.eqb m "2D"); [exact H|].
    destruct (String.eqb m "3D"); exact H.
Qed.

(** X17: the pitch of the 3D view stays within [[-90, 90]] degrees under
    every sequence of mouse, wheel and keyboard actions: dragging clamps
    it, the [R] key resets it to 30, nothing else writes it. *)
Theorem pitch_stays_in_bounds :
  forall (s : widget) (l : list action),
    pitch_in_bounds s -> pitch_in_bounds (run_actions s l).
Proof.
  intros s l. revert s. induction l as [|a l IH]; intros s H; simpl.
  - exact H.
  - apply IH. apply act_keeps_pitch. exact H.
Qed.

Lemma pitch_stays_in_bounds_witness :
  pitch_in_bounds
    (run_actions init_widget
       [Press RightButton (5, 5)%Z; Press LeftButton (10, 10)%Z;
        Move (10, 500)%Z; Move (10, -900)%Z; Release LeftButton]).
Proof.
  apply (pitch_stays_in_bounds init_widget).
  unfold pitch_in_bounds. simpl. lra.
Defined.

Lemma last_cons :
  forall (A : Type) (l : list A) (d a : A), last (a :: l) d = last l a.
Proof.
  intros A l. induction l as [|b l IH]; intros d a; [reflexivity|].
  change (last (a :: b :: l) d) with (last (b :: l) d).
  rewrite (IH d b), (IH a b). reflexivity.
Qed.

Lemma int32_add_l :
  forall a b : Z, int32 (int32 a + b) = int32 (a + b).
Proof.
  intros a b. unfold int32. f_equal.
  replace ((a + 2147483648) mod 4294967296 - 2147483648 + b + 2147483648)%Z
    with ((a + 2147483648) mod 4294967296 + b)%Z by lia.
  rewrite Zplus_mod_idemp_l. f_equal. lia.
Qed.

Lemma int32_add_r :
  forall a b : Z, int32 (a + int32 b) = int32 (a + b).
Proof.
  intros a b. rewrite Z.add_comm, int32_add_l. f_equal. lia.
Qed.

Lemma int32_small :
  forall a : Z, (-2147483648 <= a < 2147483648)%Z -> int32 a = a.
Proof.
  intros a H. unfold int32. rewrite Z.mod_small; lia.
Qed.

Lemma move_pans :
  forall (s : widget) (q p : Z * Z),
    dragging_at s q -> QPoint_bool q = true ->
    mouseMoveEvent p s
    = mkWidget (panned (view s) (QPoint_sub p q)) (Some p) true.
Proof.
  intros [c lst drag] q p (Hl & Hd & Hm) Hq. simpl in Hl, Hd, Hm. subst lst drag.
  unfold mouseMoveEvent. cbn [last_mouse_pos is_dragging view].
  rewrite Hq. cbn [andb]. rewrite Hm. unfold panned. rewrite Hm. reflexivity.
Qed.

(** Panning by a wrapped difference is panning by the difference. *)
Lemma panned_wrapped :
  forall (c : canvas) (q p : Z * Z),
    panned c (QPoint_sub p q) = panned c (fst p - fst q, snd p - snd q)%Z.
Proof.
  intros c q p. unfold panned, QPoint_add, QPoint_sub. cbn [fst snd].
  rewrite !int32_add_r. reflexivity.
Qed.

Lemma panned_twice :
  forall (c : canvas) (q p r : Z * Z),
    panned (panned c (fst p - fst q, snd p - snd q)%Z)
           (fst r - fst p, snd r - snd p)%Z
    = panned c (fst r - fst q, snd r - snd q)%Z.
Proof.
  intros c q p r. unfold panned, QPoint_add.
  cbn [show_grid show_axes mode zoom_level pan_offset rotation_x rotation_y fst snd].
  rewrite !int32_add_l. f_equal. f_equal; f_equal; lia.
Qed.

Lemma panned_nowhere :
  forall (c : canvas) (q : Z * Z),
    is_QPoint (pan_offset c) ->
    panned c (fst q - fst q, snd q - snd q)%Z = c.
Proof.
  intros [sg sa md z [px py] rx ry] q [Hx Hy]. unfold panned, QPoint_add.
  cbn [show_grid show_axes mode zoom_level pan_offset rotation_x rotation_y fst snd]
    in *.
  rewrite !Z.sub_diag, !Z.add_0_r, !int32_small by assumption. reflexivity.
Qed.

Lemma moves_pan :
  forall (ps : list (Z * Z)) (s : widget) (q : Z * Z),
    dragging_at s q -> is_QPoint (pan_offset (view s)) ->
    forallb QPoint_bool (q :: ps) = true ->
    view (run_actions s (map Move ps))
    = panned (view s) (fst (last ps q) - fst q, snd (last ps q) - snd q)%Z.
Proof.
  induction ps as [|p ps IH]; intros s q Hs Hpan Hnn.
  - simpl. symmetry. apply panned_nowhere. exact Hpan.
  - cbn [forallb] in Hnn. apply andb_true_iff in Hnn. destruct Hnn as [Hq Hps].
    cbn [map run_actions fold_left act].
    rewrite (move_pans s q p Hs Hq), panned_wrapped.
    set (s1 := mkWidget _ (Some p) true).
    assert (H1 : dragging_at s1 p).
    { subst s1. destruct Hs as (_ & _ & Hm). repeat split. exact Hm. }
    assert (H2 : is_QPoint (pan_offset (view s1))).
    { subst s1. unfold is_QPoint, panned, QPoint_add, int32.
      cbn [view pan_offset fst snd]. split; Z.div_mod_to_equations; lia. }
    fold (run_actions s1 (map Move ps)).
    rewrite (IH s1 p H1 H2 Hps). rewrite last_cons. subst s1. cbn [view].
    apply panned_twice.
Qed.

(** X18: in the 2D view, a drag with the left button pans by exactly the
    vector from the point where the button went down to the point where
    the mouse is, whatever path it took, and changes nothing else of the
    view; provided no point of the path is the null point [(0, 0)].  The
    pan offset is a [QPoint]: the sum is taken in its 32-bit arithmetic,
    which wraps around. *)
Theorem drag_pans_by_displacement :
  forall (s : widget) (p0 : Z * Z) (ps : list (Z * Z)),
    mode (view s) = Mode2D ->
    is_QPoint (pan_offset (view s)) ->
    forallb QPoint_bool (p0 :: ps) = true ->
    view (run_actions s (Press LeftButton p0 :: map Move ps))
    = panned (view s) (fst (last ps p0) - fst p0, snd (last ps p0) - snd p0)%Z.
Proof.
  intros s p0 ps Hm Hpan Hnn. cbn [run_actions fold_left act mousePressEvent].
  set (s1 := mkWidget (view s) (Some p0) true).
  assert (H1 : dragging_at s1 p0) by (subst s1; repeat split; assumption).
  exact (moves_pan ps s1 p0 H1 Hpan Hnn).
Qed.

Lemma drag_pans_by_displacement_witness :
  pan_offset
    (view (run_actions init_widget
             (Press LeftButton (10, 10)%Z
              :: map Move [(50, 7); (3, 90); (40, 25)]%Z)))
  = (30, 15)%Z
  /\ pan_offset
       (view (run_actions init_widget
                (Press LeftButton (-2147483640, 5)%Z :: map Move [(16, 5)]%Z)))
     = (-2147483640, 0)%Z.
Proof.
  assert (Hpan : is_QPoint (pan_offset (view init_widget)))
    by (unfold is_QPoint; simpl; lia).
  split.
  - rewrite (drag_pans_by_displacement init_widget (10, 10)%Z
               [(50, 7); (3, 90); (40, 25)]%Z eq_refl Hpan eq_refl).
    reflexivity.
  - rewrite (drag_pans_by_displacement init_widget (-2147483640, 5)%Z
               [(16, 5)]%Z eq_refl Hpan eq_refl).
    reflexivity.
Defined.

(** X19: a drag that starts on the null point [(0, 0)] (the top-left pixel
    of the widget) never moves the view: the handler tests the truth value
    of the stored position, and a null [QPoint] is false. *)
Theorem drag_from_origin_is_ignored :
  forall (s : widget) (ps : list (Z * Z)),
    view (run_actions s (Press LeftButton (0, 0)%Z :: map Move ps)) = view s.
Proof.
  intros s ps. cbn [run_actions fold_left act mousePressEvent].
  assert (H : forall (l : list (Z * Z)) (s1 : widget),
             last_mouse_pos s1 = Some (0, 0)%Z ->
             fold_left act (map Move l) s1 = s1).
  { induction l as [|p l IH]; intros s1 H1; [reflexivity|].
    cbn [map fold_left act].
    assert (E : mouseMoveEvent p s1 = s1).
    { unfold mouseMoveEvent. rewrite H1.
      change (QPoint_bool (0, 0)%Z) with false. rewrite andb_false_r.
      reflexivity. }
    rewrite E. apply IH. exact H1. }
  rewrite H by reflexivity. reflexivity.
Qed.

(** *** The rectangle of the 2D view *)

(** X20: with the default pan and a zoom level of at most 1, the rectangle
    in which the 2D view paints a non-empty image lies within the 20-pixel
    margins of a widget that is at least 40 pixels wide and high. *)
Theorem draw_rect_within_margins :
  forall (width height img_width img_height : Z) (c : canvas),
    (40 <= width)%Z -> (40 <= height)%Z ->
    (0 < img_width)%Z -> (0 < img_height)%Z ->
    0 <= zoom_level c -> zoom_level c <= 1 -> pan_offset c = (0, 0)%Z ->
    exists draw_x draw_y draw_width draw_height : Z,
      draw_rect width height img_width img_height c
      = Ok (draw_x, draw_y, draw_width, draw_height)
      /\ (0 <= draw_width)%Z /\ (0 <= draw_height)%Z
      /\ (20 <= draw_x)%Z /\ (draw_x + draw_width <= width - 20)%Z
      /\ (20 <= draw_y)%Z /\ (draw_y + draw_height <= height - 20)%Z.
Proof.
  intros width height iw ih c Hw Hh Hiw Hih Hz0 Hz1 Hpan.
  unfold draw_rect. rewrite Hpan. cbn [fst snd].
  replace ((iw =? 0)%Z || (ih =? 0)%Z) with false
    by (symmetry; apply orb_false_iff; split; apply Z.eqb_neq; lia).
  set (z := zoom_level c) in *.
  assert (Qiw : 0 < inject_Z iw)
    by (change 0 with (inject_Z 0); rewrite <- Zlt_Qlt; lia).
  assert (Qih : 0 < inject_Z ih)
    by (change 0 with (inject_Z 0); rewrite <- Zlt_Qlt; lia).
  assert (Qvw : 0 <= inject_Z (width - 40))
    by (change 0 with (inject_Z 0); rewrite <- Zle_Qle; lia).
  assert (Qvh : 0 <= inject_Z (height - 40))
    by (change 0 with (inject_Z 0); rewrite <- Zle_Qle; lia).
  set (a := inject_Z iw) in *. set (b := inject_Z ih) in *.
  set (vw := inject_Z (width - 40)) in *. set (vh := inject_Z (height - 40)) in *.
  set (r1 := vw / a). set (r2 := vh / b).
  assert (E1 : a * r1 == vw) by (subst r1; field; lra).
  assert (E2 : b * r2 == vh) by (subst r2; field; lra).
  assert (R1 : 0 <= r1) by (subst r1; apply Qle_shift_div_l; lra).
  assert (R2 : 0 <= r2) by (subst r2; apply Qle_shift_div_l; lra).
  set (m := Qmin r1 r2).
  assert (M0 : 0 <= m) by (subst m; apply Q.min_glb; assumption).
  assert (M1 : m <= r1) by (subst m; apply Q.le_min_l).
  assert (M2 : m <= r2) by (subst m; apply Q.le_min_r).
  assert (Z0 : 0 <= m * z) by (apply Qmult_le_0_compat; assumption).
  assert (Z1 : 0 <= m * (1 - z)) by (apply Qmult_le_0_compat; lra).
  assert (A0 : 0 <= a * (m * z)) by (apply Qmult_le_0_compat; lra).
  assert (A1 : 0 <= a * (r1 - m * z)) by (apply Qmult_le_0_compat; lra).
  assert (B0 : 0 <= b * (m * z)) by (apply Qmult_le_0_compat; lra).
  assert (B1 : 0 <= b * (r2 - m * z)) by (apply Qmult_le_0_compat; lra).
  assert (Hdw : (0 <= Qtrunc (a * (m * z)) <= width - 40)%Z).
  { apply ImageSpec.Qtrunc_nonneg_bounds; [exact A0|]. fold vw. lra. }
  assert (Hdh : (0 <= Qtrunc (b * (m * z)) <= height - 40)%Z).
  { apply ImageSpec.Qtrunc_nonneg_bounds; [exact B0|]. fold vh. lra. }
  do 4 eexists. split; [reflexivity|].
  set (dw := Qtrunc (a * (m * z))) in *. set (dh := Qtrunc (b * (m * z))) in *.
  repeat split; try lia; Z.div_mod_to_equations; lia.
Qed.

Lemma draw_rect_within_margins_witness :
  exists draw_x draw_y draw_width draw_height : Z,
    draw_rect 400 600 256 128 init = Ok (draw_x, draw_y, draw_width, draw_height)
    /\ (0 <= draw_width)%Z /\ (0 <= draw_height)%Z
    /\ (20 <= draw_x)%Z /\ (draw_x + draw_width <= 400 - 20)%Z
    /\ (20 <= draw_y)%Z /\ (draw_y + draw_height <= 600 - 20)%Z.
Proof.
  apply (draw_rect_within_margins 400 600 256 128 init);
    first [lia | discriminate | reflexivity].
Defined.

End CanvasMouseSpec.

(** ** The presets directory *)

Module PresetSpec.
Import Py TerrainParams PresetStore.

Lemma read_write_same :
  forall (d : presets_dir) (name : string) (j : Json.doc),
    read name (write name j d) = Some j.
Proof.
  induction d as [|[n j'] d IH]; intros name j; simpl.
  - rewrite String.eqb_refl. reflexivity.
  - destruct (String.eqb n name) eqn:E; simpl; rewrite E; [reflexivity|apply IH].
Qed.

Lemma read_write_other :
  forall (d : presets_dir) (name other : string) (j : Json.doc),
    other <> name -> read other (write name j d) = read other d.
Proof.
  induction d as [|[n j'] d IH]; intros name other j Hne; simpl.
  - replace (String.eqb name other) with false; [reflexivity|].
    symmetry. apply String.eqb_neq. congruence.
  - destruct (String.eqb n name) eqn:E; simpl.
    + apply String.eqb_eq in E. subst n.
      replace (String.eqb name other) with false
        by (symmetry; apply String.eqb_neq; congruence).
      reflexivity.
    + rewrite IH by exact Hne. reflexivity.
Qed.



Lemma read_stem :
  forall (d : presets_dir) (name : string),
    In name (map fst d) <-> read name d <> None.
Proof.
  induction d as [|[n j] d IH]; intros name; simpl.
  - split; [tauto|congruence].
  - destruct (String.eqb n name) eqn:E.
    + apply String.eqb_eq in E. split; [discriminate|]. intros _. left. exact E.
    + apply String.eqb_neq in E. rewrite <- IH. tauto.
Qed.

Lemma in_insert_sorted :
  forall (l : list string) (s x : string),
    In x (insert_sorted s l) <-> x = s \/ In x l.
Proof.
  induction l as [|y l IH]; intros s x; simpl.
  - split; intros [H|H]; auto.
  - destruct (String.leb s y); simpl; [split; intros [H|H]; auto|].
    rewrite IH. tauto.
Qed.

Lemma in_sorted :
  forall (l : list string) (x : string), In x (sorted l) <-> In x l.
Proof.
  induction l as [|y l IH]; intros x; simpl; [tauto|].
  rewrite in_insert_sorted, IH. split; intros [H|H]; auto.
Qed.

Lemma listed_iff_readable :
  forall (d : presets_dir) (name : string),
    In name (list_presets d) <-> read name d <> None.
Proof.
  intros d name. unfold list_presets. rewrite in_sorted. apply read_stem.
Qed.




Ltac read_written :=
  repeat first
    [ rewrite read_write_same
    | rewrite read_write_other by (intros Heq; discriminate Heq) ].

(** X23: on every directory, [create_default_presets] returns its three
    names; afterwards each of them is listed and loads to parameters that,
    once [__post_init__] has read the size list as a tuple, lie within the
    documented ranges. *)
Theorem default_presets_are_loadable :
  forall d : presets_dir,
    snd (create_default_presets d) = map fst default_presets
    /\ List.length (snd (create_default_presets d)) = 3%nat
    /\ forall name : string,
         In name (snd (create_default_presets d)) ->
         In name (list_presets (fst (create_default_presets d)))
         /\ exists p : TerrainParams.t,
              load_preset (fst (create_default_presets d)) name = Ok p
              /\ size p = VList [VInt 1024; VInt 1024]
              /\ in_range (post_init p).
Proof.
  intros d. split; [reflexivity|]. split; [reflexivity|].
  intros name Hin. unfold create_default_presets in *.
  cbn [snd fst map default_presets] in Hin.
  cbn [fst default_presets fold_left]. unfold save_preset.
  destruct Hin as [<-|[<-|[<-|[]]]].
  - split.
    + apply listed_iff_readable. read_written. discriminate.
    + unfold load_preset. read_written.
      eexists. split; [vm_compute; reflexivity|]. split; [reflexivity|].
      unfold in_range; simpl. ParamsSpec.range_facts.
      * left; reflexivity.
      * exists "convergent". split; [reflexivity|]. left; reflexivity.
  - split.
    + apply listed_iff_readable. read_written. discriminate.
    + unfold load_preset. read_written.
      eexists. split; [vm_compute; reflexivity|]. split; [reflexivity|].
      unfold in_range; simpl. ParamsSpec.range_facts.
      * left; reflexivity.
      * exists "convergent". split; [reflexivity|]. left; reflexivity.
  - split.
    + apply listed_iff_readable. read_written. discriminate.
    + unfold load_preset. read_written.
      eexists. split; [vm_compute; reflexivity|]. split; [reflexivity|].
      unfold in_range; simpl. ParamsSpec.range_facts.
      * left; reflexivity.
      * exists "convergent". split; [reflexivity|]. left; reflexivity.
Qed.

End PresetSpec.

(** ** Thermal weathering *)

Module ErosionSpec.
Import Engine EngineSpec EngineMore.

Section Thermal.
Context {L : NumLib}.

(** X24: given that the square root is never negative, thermal weathering
    keeps the shape of the heightmap and never raises a cell; a heightmap
    with fewer than two rows or two columns is rejected with
    [ValueError]. *)
Theorem thermal_weathering_never_raises :
  forall (heightmap : arr) (temp : Q) (h w : nat),
    (forall q : Q, 0 <= fsqrt q) ->
    has_shape h w heightmap -> (0 < h)%nat ->
    match _simulate_thermal_weathering heightmap temp with
    | Ok out =>
        (2 <= h)%nat /\ (2 <= w)%nat /\ has_shape h w out
        /\ forall y x : nat,
             (y < h)%nat -> (x < w)%nat -> get out y x <= get heightmap y x
    | Raise e => e = ValueError /\ ((h < 2)%nat \/ (w < 2)%nat)
    end.
Proof.
  intros heightmap temp h w Hsqrt Hs Hh.
  unfold _simulate_thermal_weathering, np_gradient.
  rewrite (shape_of_has_shape _ h w _ Hs Hh).
  destruct ((h <? 2)%nat || (w <? 2)%nat) eqn:E.
  - simpl. split; [reflexivity|]. apply orb_true_iff in E.
    destruct E as [E|E]; apply Nat.ltb_lt in E; [left|right]; exact E.
  - apply orb_false_iff in E. destruct E as [E1 E2].
    apply Nat.ltb_ge in E1. apply Nat.ltb_ge in E2. cbn [rbind fst snd].
    set (rate := if Qltb temp 0.3 || Qltb 0.7 temp then 0.005 else 0.001).
    assert (Hrate : 0 <= rate) by (subst rate; destruct (_ || _); discriminate).
    set (gy := tabulate h w _). set (gx := tabulate h w _).
    assert (Hgy : has_shape h w gy) by (subst gy; apply tabulate_has_shape).
    assert (Hgx : has_shape h w gx) by (subst gx; apply tabulate_has_shape).
    assert (Hslope : has_shape h w (slope_of gy gx)).
    { unfold slope_of. apply amap2_has_shape; assumption. }
    split; [exact E1|]. split; [exact E2|]. split.
    + apply amap2_has_shape; assumption.
    + intros y x Hy Hx.
      rewrite (get_amap2 _ _ _ h w y x Hs Hslope Hy Hx).
      assert (H0 : 0 <= get (slope_of gy gx) y x).
      { unfold slope_of.
        rewrite (get_amap2 _ _ _ h w y x Hgx Hgy Hy Hx).
        apply Hsqrt. }
      assert (H1 : 0 <= get (slope_of gy gx) y x * rate)
        by (apply Qmult_le_0_compat; assumption).
      lra.
Qed.

End Thermal.

Lemma testlib_sqrt_nonneg : forall q : Q, 0 <= TestLib.sqrt_approx q.
Proof.
  intros q. unfold TestLib.sqrt_approx.
  apply Qle_shift_div_l; [reflexivity|].
  setoid_replace (0 * 1000000) with 0 by ring.
  change 0 with (inject_Z 0). rewrite <- Zle_Qle. apply Z.sqrt_nonneg.
Qed.

Lemma thermal_weathering_never_raises_witness :
  exists out : arr,
    @_simulate_thermal_weathering TestLib.lib [[1; 3]; [2; 5]] 0.4 = Ok out
    /\ get out 1 1 <= 5.
Proof.
  pose proof (@thermal_weathering_never_raises TestLib.lib [[1; 3]; [2; 5]] 0.4 2 2
                testlib_sqrt_nonneg) as H.
  destruct (@_simulate_thermal_weathering TestLib.lib [[1; 3]; [2; 5]] 0.4)
    as [out|e].
  - exists out. split; [reflexivity|].
    destruct H as (_ & _ & _ & Hcells).
    + split; [reflexivity|repeat constructor].
    + lia.
    + apply (Hcells 1%nat 1%nat); lia.
  - exfalso. destruct H as (_ & [Hlt|Hlt]).
    + split; [reflexivity|repeat constructor].
    + lia.
    + lia.
    + lia.
Defined.

End ErosionSpec.
